(** * Moving-average crossover strategy ([src/lib/strategy.ts])

    A shallow embedding of the strategy engine: [simpleMovingAverage],
    [evaluateStrategy] and [buildOrder], over IEEE 754 binary64 numbers
    (Rocq's primitive floats, which are the numbers of the JavaScript
    runtime), followed by the properties of the specification.

    Around the engine: the chart series of the dashboard
    ([src/app/page.tsx]), the exchange client ([src/lib/ccxtClient.ts])
    and the three routes that use it, with the exchanges as an outside
    world that answers calls, and their properties. *)

From Stdlib Require Import Ascii DecimalString DecimalPos.
From Stdlib Require Import String ZArith List Bool Lia Floats.
Import ListNotations.

Local Open Scope Z_scope.

(* 0.99, 1.01, 1.03 and 0.97 are read as their nearest binary64 values,
   as the JavaScript parser reads them. *)
Set Warnings "-inexact-float".

(** ** The JavaScript runtime functions the module calls *)

Module JS.

(** A JavaScript number is a binary64 float. *)
Definition number := float.

(** Integers that appear where a number is expected ([sum / period]). *)
Definition of_Z (z : Z) : number :=
  SF2Prim (binary_normalize prec emax z 0 false).

(** [a > b] and [a >= b]; like [<] and [<=] they are false on NaN. *)
Definition gtb (a b : number) : bool := (b <? a)%float.
Definition geb (a b : number) : bool := (b <=? a)%float.

(** [Math.min(a, b)]: NaN when either is NaN, and [-0] below [+0]. *)
Definition min2 (a b : number) : number :=
  if is_nan a || is_nan b then nan
  else if (a <? b)%float then a
  else if (b <? a)%float then b
  else if get_sign a then a else b.

(** [Math.max(a, b)]: NaN when either is NaN, and [+0] above [-0]. *)
Definition max2 (a b : number) : number :=
  if is_nan a || is_nan b then nan
  else if (a <? b)%float then b
  else if (b <? a)%float then a
  else if get_sign a then b else a.

(** [Math.min(...xs)] and [Math.max(...xs)] as functions of the spread
    values. An engine refuses a spread of too many arguments with a
    [RangeError] (beyond a hundred thousand or so, depending on the
    engine); that limit is not modelled, so these stand for the calls on
    lists below it only. The strategy spreads a window of at most
    [slowLength] candles, at most 400 in the data model. *)
Definition Math_min (xs : list number) : number := fold_left min2 xs infinity.
Definition Math_max (xs : list number) : number := fold_left max2 xs neg_infinity.

(** [Number.isFinite(x)]. *)
Definition isFinite (x : number) : bool :=
  negb (is_nan x) && negb (is_infinity x).

(** [xs[i]] for an array of [number | null]: [None] stands for both
    [null] and [undefined] (an index out of range), which the module
    never tells apart (it tests [!= null] and uses [?? null]). *)
Definition index (xs : list (option number)) (i : Z) : option number :=
  if i <? 0 then None
  else match nth_error xs (Z.to_nat i) with
       | Some v => v
       | None => None
       end.

(** [xs.slice(start, end)] for integers [start] and [end]: negative
    positions count from the end, and both are clamped to the array. *)
Definition clamp_index (len i : Z) : Z :=
  if i <? 0 then Z.max (len + i) 0 else Z.min i len.

Definition slice {A} (xs : list A) (start stop : Z) : list A :=
  let len := Z.of_nat (length xs) in
  let k := clamp_index len start in
  let final := clamp_index len stop in
  firstn (Z.to_nat (final - k)) (skipn (Z.to_nat k) xs).

(** [xs.slice(start)]. *)
Definition slice_from {A} (xs : list A) (start : Z) : list A :=
  slice xs start (Z.of_nat (length xs)).

(** *** [Number.prototype.toFixed] and [Number(string)]

    The text [x.toFixed(f)] is kept as the decimal numeral it spells
    rather than as characters. *)
Inductive numeral :=
| NumNaN                                  (* "NaN" *)
| NumInfinity (neg : bool)                (* "Infinity", "-Infinity" *)
| NumFixed (neg : bool) (n : Z) (f : Z)   (* sign, then n / 10^f with f fraction digits *)
| NumToString (x : number).               (* |x| >= 10^21: the text of [String(x)] *)

(** The integer [n] for which [n / 10^f] is nearest to [m * 2^e], the
    larger one of two. *)
Definition nearest_scaled (m : positive) (e f : Z) : Z :=
  if 0 <=? e then Z.pos m * 2 ^ e * 10 ^ f
  else (2 * (Z.pos m * 10 ^ f) + 2 ^ (- e)) / 2 ^ (1 - e).

(** Whether [m * 2^e >= 10^21]. *)
Definition at_least_1e21 (m : positive) (e : Z) : bool :=
  if 0 <=? e then 10 ^ 21 <=? Z.pos m * 2 ^ e
  else 10 ^ 21 * 2 ^ (- e) <=? Z.pos m.

Definition toFixed (x : number) (f : Z) : numeral :=
  match Prim2SF x with
  | S754_nan => NumNaN
  | S754_infinity s => NumInfinity s
  | S754_zero _ => NumFixed false 0 f
  | S754_finite s m e =>
      if at_least_1e21 m e then NumToString x
      else NumFixed s (nearest_scaled m e f) f
  end.

(** The binary64 number nearest to [p / q] (ties to even), signed. *)
Definition round_ratio (s : bool) (p q : positive) : spec_float :=
  let '(mz, ez, lz) := SFdiv_core_binary prec emax (Z.pos p) 0 (Z.pos q) 0 in
  binary_round_aux prec emax s mz ez lz.

(** [Number(text)] for the texts [toFixed] returns: the decimal is read
    with correct rounding (the nearest binary64 number, ties to even),
    and [String(x)] reads back as [x]. *)
Definition Number (t : numeral) : number :=
  match t with
  | NumNaN => nan
  | NumInfinity s => if s then neg_infinity else infinity
  | NumToString x => x
  | NumFixed s n f =>
      match n with
      | Z.pos p => SF2Prim (round_ratio s p (Z.to_pos (10 ^ f)))
      | _ => if s then neg_zero else zero
      end
  end.

End JS.

(** ** Data model *)

(** [OHLCVRecord] of [ccxtClient.ts]. *)
Record OHLCVRecord := {
  timestamp : JS.number;
  open : JS.number;
  high : JS.number;
  low : JS.number;
  close : JS.number;
  volume : JS.number
}.

Inductive StrategyMode := paper | live.

(** [fastLength] and [slowLength] are whole numbers (the request schema
    admits nothing else), kept as integers. *)
Record StrategyConfig := {
  symbol : string;
  timeframe : string;
  fastLength : Z;
  slowLength : Z;
  capital : JS.number;
  riskPercent : JS.number;
  mode : StrategyMode
}.

Inductive Action := buy | sell | hold.

Definition Action_eqb (a b : Action) : bool :=
  match a, b with
  | buy, buy | sell, sell | hold, hold => true
  | _, _ => false
  end.

(** The [reason] text; the two crossover messages embed
    [lastFast.toFixed(2)] and [lastSlow.toFixed(2)]. *)
Inductive Reason :=
| NoActionableCrossover
| BullishCrossover (fast slow : JS.numeral)
| BearishCrossover (fast slow : JS.numeral)
| RemainsAbove
| RemainsBelow.

(** [side] is typed ["buy" | "sell"] in the source; the field holds the
    computation's action as it is, so it is an [Action] here and that it
    is never [hold] is a property of [buildOrder]. *)
Inductive OrderType := market.

Record StrategyOrder := {
  side : Action;
  type : OrderType;
  size : JS.number;
  price : JS.number;
  order_stopLoss : option JS.number;
  order_takeProfit : option JS.number
}.

Record StrategyComputation := {
  action : Action;
  reason : Reason;
  latestPrice : JS.number;
  positionSize : JS.number;
  stopLoss : option JS.number;
  takeProfit : option JS.number;
  fastMA : list (option JS.number);
  slowMA : list (option JS.number)
}.

(** ** Thrown errors *)

Inductive Result (A : Type) :=
| Ok (a : A)
| Throw (message : string).
Arguments Ok {A} a.
Arguments Throw {A} message.

Definition bind {A B} (r : Result A) (k : A -> Result B) : Result B :=
  match r with
  | Ok a => k a
  | Throw msg => Throw msg
  end.

Notation "x <- r ;; k" := (bind r (fun x => k))
  (at level 61, r at next level, right associativity).

Definition InvalidPeriod : string := "SMA period must be greater than zero".
Definition NoData : string := "No OHLCV data available for strategy evaluation.".

(** ** [simpleMovingAverage] *)

Definition window_sum (window : list JS.number) : JS.number :=
  fold_left (fun acc value => (acc + value)%float) window 0%float.

(** The [for] loop: [n] iterations remain, [i] is the loop index and
    [result] the array built so far. *)
Fixpoint sma_loop (values : list JS.number) (period : Z) (n : nat) (i : Z)
    (result : list (option JS.number)) : list (option JS.number) :=
  match n with
  | O => result
  | S n' =>
      if i + 1 <? period then
        sma_loop values period n' (i + 1) (result ++ [None])
      else
        let window := JS.slice values (i + 1 - period) (i + 1) in
        let sum := window_sum window in
        sma_loop values period n' (i + 1)
          (result ++ [Some (sum / JS.of_Z period)%float])
  end.

Definition simpleMovingAverage (values : list JS.number) (period : Z)
    : Result (list (option JS.number)) :=
  if period <=? 0 then Throw InvalidPeriod
  else Ok (sma_loop values period (length values) 0 []).

(** ** [evaluateStrategy] *)

Definition both_defined (a b : option JS.number)
    (test : JS.number -> JS.number -> bool) : bool :=
  match a, b with
  | Some x, Some y => test x y
  | _, _ => false
  end.

Definition signal (lastFast lastSlow prevFast prevSlow : option JS.number)
    : Action * Reason :=
  match lastFast, lastSlow with
  | Some lf, Some ls =>
      if both_defined prevFast prevSlow PrimFloat.leb && JS.gtb lf ls then
        (buy, BullishCrossover (JS.toFixed lf 2) (JS.toFixed ls 2))
      else if both_defined prevFast prevSlow JS.geb && (lf <? ls)%float then
        (sell, BearishCrossover (JS.toFixed lf 2) (JS.toFixed ls 2))
      else if JS.gtb lf ls then (buy, RemainsAbove)
      else if (lf <? ls)%float then (sell, RemainsBelow)
      else (hold, NoActionableCrossover)
  | _, _ => (hold, NoActionableCrossover)
  end.

Definition finite_or_undefined (x : JS.number) : option JS.number :=
  if JS.isFinite x then Some x else None.

Definition evaluateStrategy (candles : list OHLCVRecord) (config : StrategyConfig)
    : Result StrategyComputation :=
  if (length candles =? 0)%nat then Throw NoData
  else
    let closes := map close candles in
    fastMA <- simpleMovingAverage closes (fastLength config) ;;
    slowMA <- simpleMovingAverage closes (slowLength config) ;;
    let lastIndex := Z.of_nat (length closes) - 1 in
    let lastFast := JS.index fastMA lastIndex in
    let lastSlow := JS.index slowMA lastIndex in
    let prevFast := JS.index fastMA (lastIndex - 1) in
    let prevSlow := JS.index slowMA (lastIndex - 1) in
    let latestPrice := nth (Z.to_nat lastIndex) closes nan in
    let '(action, reason) := signal lastFast lastSlow prevFast prevSlow in
    let riskFraction :=
      JS.max2 (JS.min2 (riskPercent config / 100)%float 1%float) 0%float in
    let capitalToUse := (capital config * riskFraction)%float in
    let positionSize :=
      if JS.gtb latestPrice 0%float
      then JS.Number (JS.toFixed (capitalToUse / latestPrice)%float 6)
      else 0%float in
    let recentLow :=
      JS.Math_min (map low (JS.slice_from candles (- slowLength config))) in
    let recentHigh :=
      JS.Math_max (map high (JS.slice_from candles (- slowLength config))) in
    let stopLoss :=
      if Action_eqb action buy
      then JS.Number (JS.toFixed (recentLow * 0.99)%float 2)
      else JS.Number (JS.toFixed (recentHigh * 1.01)%float 2) in
    let takeProfit :=
      if Action_eqb action buy
      then JS.Number (JS.toFixed (latestPrice * 1.03)%float 2)
      else JS.Number (JS.toFixed (latestPrice * 0.97)%float 2) in
    Ok {| action := action;
          reason := reason;
          latestPrice := latestPrice;
          positionSize := positionSize;
          stopLoss := finite_or_undefined stopLoss;
          takeProfit := finite_or_undefined takeProfit;
          fastMA := fastMA;
          slowMA := slowMA |}.

(** ** [buildOrder] *)

Definition buildOrder (computation : StrategyComputation) : option StrategyOrder :=
  if Action_eqb (action computation) hold
     || (positionSize computation <=? 0)%float
  then None
  else Some {| side := action computation;
               type := market;
               size := positionSize computation;
               price := latestPrice computation;
               order_stopLoss := stopLoss computation;
               order_takeProfit := takeProfit computation |}.

(** ** Sample inputs *)

Definition candle (c : JS.number) : OHLCVRecord :=
  {| timestamp := 0%float; open := c; high := c; low := c; close := c;
     volume := 0%float |}.

Definition cfg (fast slow : Z) (cap risk : JS.number) : StrategyConfig :=
  {| symbol := "BTC/USDT"; timeframe := "1h"; fastLength := fast;
     slowLength := slow; capital := cap; riskPercent := risk; mode := paper |}.

(** ** Vocabulary of the specification *)

(** The values at indices [i - P + 1] through [i]. *)
Definition window_at (values : list JS.number) (P i : Z) : list JS.number :=
  map (fun j => nth (Z.to_nat (i - P + 1) + j) values nan) (seq 0 (Z.to_nat P)).

(** The mean as the source computes it: the values added from the left,
    starting from 0, and the sum divided by their count. *)
Definition arithmetic_mean (xs : list JS.number) : JS.number :=
  (fold_left PrimFloat.add xs 0 / JS.of_Z (Z.of_nat (length xs)))%float.

(** The moving average of period [P] at index [i]: undefined before the
    first full window. *)
Definition sma_value (values : list JS.number) (P i : Z) : option JS.number :=
  if (i <? 0) || (i <? P - 1) then None
  else Some (arithmetic_mean (window_at values P i)).

(** The close of the last candle. *)
Definition latest_close (candles : list OHLCVRecord) : JS.number :=
  close (last candles (candle nan)).

Definition clamp (x lo hi : JS.number) : JS.number :=
  JS.max2 (JS.min2 x hi) lo.

(** Rounding to [d] decimal places: [Number(x.toFixed(d))]. *)
Definition round_dp (x : JS.number) (d : Z) : JS.number :=
  JS.Number (JS.toFixed x d).

Inductive ReasonKind :=
| bullish_crossover | bearish_crossover
| continuation_above | continuation_below | no_signal.

Definition kind_of (r : Reason) : ReasonKind :=
  match r with
  | NoActionableCrossover => no_signal
  | BullishCrossover _ _ => bullish_crossover
  | BearishCrossover _ _ => bearish_crossover
  | RemainsAbove => continuation_above
  | RemainsBelow => continuation_below
  end.

(** The decision policy of section 4.2, case by case. *)
Definition all_defined (a b c d : option JS.number) : bool :=
  match a, b, c, d with
  | Some _, Some _, Some _, Some _ => true
  | _, _, _, _ => false
  end.

Definition compare_defined (test : JS.number -> JS.number -> bool)
    (a b : option JS.number) : bool :=
  match a, b with
  | Some x, Some y => test x y
  | _, _ => false
  end.

Definition priority_policy (curFast curSlow prevFast prevSlow : option JS.number)
    : Action * ReasonKind :=
  if all_defined curFast curSlow prevFast prevSlow
     && compare_defined PrimFloat.leb prevFast prevSlow
     && compare_defined JS.gtb curFast curSlow
  then (buy, bullish_crossover)
  else if all_defined curFast curSlow prevFast prevSlow
     && compare_defined JS.geb prevFast prevSlow
     && compare_defined PrimFloat.ltb curFast curSlow
  then (sell, bearish_crossover)
  else if compare_defined JS.gtb curFast curSlow then (buy, continuation_above)
  else if compare_defined PrimFloat.ltb curFast curSlow then (sell, continuation_below)
  else (hold, no_signal).

(** One entry of the moving average, as the loop body computes it at
    index [i]. *)
Definition sma_entry (values : list JS.number) (period i : Z) : option JS.number :=
  if i + 1 <? period then None
  else Some (window_sum (JS.slice values (i + 1 - period) (i + 1))
             / JS.of_Z period)%float.

(** The most recent [n] items, or all of them when fewer exist. *)
Definition trailing {A} (xs : list A) (n : Z) : list A :=
  skipn (length xs - Z.to_nat n) xs.

(** The position size as a function of capital, risk percent and latest
    price: the expression of [evaluateStrategy]. *)
Definition position_size (capital riskPercent price : JS.number) : JS.number :=
  if JS.gtb price 0%float
  then round_dp (capital * clamp (riskPercent / 100) 0 1 / price)%float 6
  else 0%float.

(** A configuration with another risk percent or capital, and a candle
    with another close. *)
Definition set_riskPercent (config : StrategyConfig) (r : JS.number) : StrategyConfig :=
  {| symbol := symbol config; timeframe := timeframe config;
     fastLength := fastLength config; slowLength := slowLength config;
     capital := capital config; riskPercent := r; mode := mode config |}.

Definition set_capital (config : StrategyConfig) (c : JS.number) : StrategyConfig :=
  {| symbol := symbol config; timeframe := timeframe config;
     fastLength := fastLength config; slowLength := slowLength config;
     capital := c; riskPercent := riskPercent config; mode := mode config |}.

Definition set_close (k : OHLCVRecord) (p : JS.number) : OHLCVRecord :=
  {| timestamp := timestamp k; open := open k; high := high k; low := low k;
     close := p; volume := volume k |}.

(** ** Vocabulary for binary64 rounding

    The kernel's floats are specified by [SpecFloat]: every operation
    rounds the exact result with [binary_round_aux]. The definitions
    below give that rounding a closed form on integers. *)

(** [encq a b] is twice the integer part of [a / b], plus one when the
    division is not exact: the floor of [a / b] and a sticky bit. *)
Definition encq (a b : Z) : Z :=
  2 * (a / b) + (if a mod b =? 0 then 0 else 1).

(** Round to nearest, ties to even. [t] encodes [2 * x] as [encq] does:
    [t / 4] is the integer part of [x] and [t mod 4] places [x] below,
    at or above the midpoint. *)
Definition rne (t : Z) : Z :=
  t / 4 + (if (t mod 4 =? 3) || ((t mod 4 =? 2) && Z.odd (t / 4)) then 1 else 0).

(** The shift-right records and the locations of [SpecFloat], encoded
    the same way. *)
Definition rec_code (mrs : shr_record) : Z :=
  4 * shr_m mrs + (if shr_r mrs then 2 else 0) + (if shr_s mrs then 1 else 0).

Definition loc_code (l : location) : Z :=
  match l with
  | loc_Exact => 0
  | loc_Inexact Lt => 1
  | loc_Inexact Eq => 2
  | loc_Inexact Gt => 3
  end.

(** The float of mantissa [r <= 2^53] and exponent [E], renormalised when
    the rounding carried into a new bit, infinite past the largest
    exponent. *)
Definition pack (s : bool) (r E : Z) : spec_float :=
  if r =? 0 then S754_zero s
  else if r =? 2 ^ 53 then
    if E + 1 <=? 971 then S754_finite s (2 ^ 52) (E + 1) else S754_infinity s
  else
    if E <=? 971 then S754_finite s (Z.to_pos r) E else S754_infinity s.

(** The exponent of the binary64 number that [(a / b) * 2^e] rounds to,
    and that number, for a representation fine enough ([e <= cexp a b e]). *)
Definition cexp (a b e : Z) : Z := fexp prec emax (Zdigits2 (a / b) + e).

Definition RN (s : bool) (a b e : Z) : spec_float :=
  pack s (rne (encq (2 * a) (b * 2 ^ (cexp a b e - e)))) (cexp a b e).

(** The same for any representation: it is first refined to an exponent
    at most -1074, below the exponent of every binary64 number. *)
Definition refine (e : Z) : Z := Z.max 0 (e + 1074).

Definition RNf (s : bool) (a b e : Z) : spec_float :=
  RN s (a * 2 ^ refine e) b (e - refine e).

(** [A * 2^e1 <= B * 2^e2], compared at a common scale. *)
Definition dle (A e1 B e2 : Z) : Prop :=
  A * 2 ^ (e1 - Z.min e1 e2) <= B * 2 ^ (e2 - Z.min e1 e2).

(** The order of [SpecFloat] as a lexicographic order. A number that is
    not NaN has a key: its class (negative infinity, negative, zero,
    positive, positive infinity), then its exponent and mantissa, both
    negated for a negative number. *)
Definition SFkey (x : spec_float) : option (Z * Z * Z) :=
  match x with
  | S754_nan => None
  | S754_zero _ => Some (0, 0, 0)
  | S754_infinity false => Some (2, 0, 0)
  | S754_infinity true => Some (-2, 0, 0)
  | S754_finite false m e => Some (1, e, Z.pos m)
  | S754_finite true m e => Some (-1, - e, - Z.pos m)
  end.

Definition key_le (k1 k2 : Z * Z * Z) : Prop :=
  let '(c1, u1, v1) := k1 in
  let '(c2, u2, v2) := k2 in
  c1 < c2 \/ (c1 = c2 /\ (u1 < u2 \/ (u1 = u2 /\ v1 <= v2))).

(** [SFle x y]: both are numbers and [x <= y]. *)
Definition SFle (x y : spec_float) : Prop :=
  match SFkey x, SFkey y with
  | Some k1, Some k2 => key_le k1 k2
  | _, _ => False
  end.

(** Equal as numbers: the two zeros are. *)
Definition SFeqv (x y : spec_float) : Prop := SFle x y /\ SFle y x.

Definition SFzero : spec_float := S754_zero false.

Definition SFone : spec_float := S754_finite false (2 ^ 52) (-52).

(** Sign, mantissa and exponent of a finite number (mantissa 0 for a
    zero), and the classes of numbers the lemmas speak of. *)
Definition SFsign (x : spec_float) : bool :=
  match x with
  | S754_zero s | S754_infinity s | S754_finite s _ _ => s
  | S754_nan => false
  end.

Definition SFmant (x : spec_float) : Z :=
  match x with
  | S754_finite _ m _ => Z.pos m
  | _ => 0
  end.

Definition SFexp (x : spec_float) : Z :=
  match x with
  | S754_finite _ _ e => e
  | _ => 0
  end.

Definition SFfinite (x : spec_float) : Prop :=
  match x with
  | S754_zero _ | S754_finite _ _ _ => True
  | _ => False
  end.

Definition SFpos (x : spec_float) : Prop :=
  match x with
  | S754_finite false _ _ | S754_infinity false => True
  | _ => False
  end.

Definition SFvalid_finite (x : spec_float) : Prop :=
  valid_binary x = true /\ SFfinite x.

Definition SFvalid_number (x : spec_float) : Prop :=
  valid_binary x = true /\ x <> S754_nan.

(** [Number(x.toFixed(f))] on [SpecFloat] numbers. *)
Definition SFround_dp (x : spec_float) (f : Z) : spec_float :=
  match x with
  | S754_nan => S754_nan
  | S754_infinity s => S754_infinity s
  | S754_zero _ => S754_zero false
  | S754_finite s m e =>
      if JS.at_least_1e21 m e then x
      else RNf s (JS.nearest_scaled m e f) (10 ^ f) 0
  end.

(** ** The chart series of the dashboard ([src/app/page.tsx]) *)

(** The period of [movingAverage] is what [Number.parseInt] made of an
    input field: an integer, or NaN when the field held no number. *)
Inductive Period :=
| PeriodInt (period : Z)
| PeriodNaN.

(** The loop of [movingAverage]. Every comparison with NaN is false, so
    with a period that is NaN no entry is null; [slice] reads a start that
    is NaN as 0, and the sum is divided by NaN. *)
Fixpoint movingAverage_loop (values : list JS.number) (period : Period) (n : nat)
    (index : Z) (output : list (option JS.number)) : list (option JS.number) :=
  match n with
  | O => output
  | S n' =>
      match period with
      | PeriodInt p =>
          if index + 1 <? p then
            movingAverage_loop values period n' (index + 1) (output ++ [None])
          else
            let window := JS.slice values (index + 1 - p) (index + 1) in
            let sum := fold_left (fun acc item => (acc + item)%float) window 0%float in
            movingAverage_loop values period n' (index + 1)
              (output ++ [Some (sum / JS.of_Z p)%float])
      | PeriodNaN =>
          let window := JS.slice values 0 (index + 1) in
          let sum := fold_left (fun acc item => (acc + item)%float) window 0%float in
          movingAverage_loop values period n' (index + 1)
            (output ++ [Some (sum / nan)%float])
      end
  end.

Definition movingAverage (values : list JS.number) (period : Period)
    : list (option JS.number) :=
  match period with
  | PeriodInt p =>
      if p <=? 0 then [] else movingAverage_loop values period (length values) 0 []
  | PeriodNaN => movingAverage_loop values period (length values) 0 []
  end.

(** ** The exchange client ([src/lib/ccxtClient.ts]) *)

(** [process.env]: a variable is unset or holds a string. *)
Record ProcessEnv := {
  CRYPTO_EXCHANGE : option string;
  CRYPTO_API_KEY : option string;
  CRYPTO_API_SECRET : option string;
  CRYPTO_API_PASSWORD : option string;
  CRYPTO_SANDBOX : option string;
  ENABLE_LIVE_TRADING : option string
}.

(** A value of type [string | undefined] in a condition: true unless
    undefined or empty. *)
Definition truthy (value : option string) : bool :=
  match value with
  | Some s => negb (s =? EmptyString)%string
  | None => false
  end.

(** [value === text]. *)
Definition is_text (value : option string) (text : string) : bool :=
  match value with
  | Some s => (s =? text)%string
  | None => false
  end.

(** The object an exchange is constructed with. *)
Record ExchangeOptions := {
  enableRateLimit : bool;
  apiKey : option string;
  secret : option string;
  password : option string
}.

(** An exchange class of the library, as far as the client looks at it:
    whether its instances have a [setSandboxMode] method. *)
Record ExchangeCtor := {
  has_setSandboxMode : bool
}.

(** What the library holds under a key, when that is truthy. The client
    reads the whole module as a table of exchange classes and tests the
    entry for truth only, so the entry is an exchange class or any other
    export (its version text, a table, a helper). [new] makes an instance
    of a class; on another export it throws: a TypeError for a value that
    is not a constructor, or what the constructor throws. A class stands
    for every export [new] makes an object of, and its [setSandboxMode],
    when it has one, is taken to return; where the object lacks a method
    a handler calls, that call throws a TypeError, which is one of the
    answers of the world below. *)
Inductive Export :=
| exchange_class (cls : ExchangeCtor)
| other_export (thrown_by_new : option string).

(** An exchange instance: the key it was looked up by, what it was
    constructed with and whether sandbox mode was switched on. *)
Record BasicExchange := {
  exchange_id : string;
  options : ExchangeOptions;
  sandboxMode : bool
}.

(** What an order submission answers: [id] when it is a string, among
    other fields left opaque. *)
Record OrderResult := {
  order_id : option string;
  raw_text : string
}.

(** What [fetchBalance] answers. A value of [total] that is not a number
    is [None]; [free] and [used] hold numbers. *)
Record Balance := {
  total : option (list (string * option JS.number));
  free : option (list (string * JS.number));
  used : option (list (string * JS.number))
}.

(** A call on an exchange instance. *)
Inductive Call :=
| call_fetchOHLCV (exchange : BasicExchange) (symbol timeframe : string) (limit : Z)
| call_fetchBalance (exchange : BasicExchange)
| call_createOrder (exchange : BasicExchange) (symbol : string) (type : OrderType)
    (side : Action) (amount : JS.number).

(** A step either returns a value or throws; the thrown object has a
    [message], or none. *)
Inductive Outcome (A : Type) :=
| Returns (a : A)
| Throws (message : option string).
Arguments Returns {A} a.
Arguments Throws {A} message.

(** A computation that calls exchanges: the calls made, in order, and how
    it ended. *)
Definition Async (A : Type) : Type := list Call * Outcome A.

Definition resolve {A} (a : A) : Async A := ([], Returns a).

Definition throw_error {A} (message : string) : Async A := ([], Throws (Some message)).

Definition and_then {A B} (m : Async A) (k : A -> Async B) : Async B :=
  match m with
  | (calls, Returns a) => let '(more, r) := k a in (calls ++ more, r)
  | (calls, Throws e) => (calls, Throws e)
  end.

Notation "x <~ m ;; k" := (and_then m (fun x => k))
  (at level 61, m at next level, right associativity).

(** A method call that awaits the answer of the exchange. *)
Definition await {A} (c : Call) (answer : Outcome A) : Async A := ([c], answer).

Definition of_Result {A} (r : Result A) : Async A :=
  match r with
  | Ok a => resolve a
  | Throw message => throw_error message
  end.

(** The outside world of the client: the registry of the library, keyed
    by exchange id, and what the exchanges answer. An answer is a function
    of the instance and the arguments of the call; no handler makes the
    same call twice. *)
Record Ccxt := {
  registry : string -> option Export;
  fetchOHLCV : BasicExchange -> string -> string -> Z -> Outcome (list (list JS.number));
  fetchBalance : BasicExchange -> Outcome Balance;
  createOrder : BasicExchange -> string -> OrderType -> Action -> JS.number
                -> Outcome OrderResult
}.

Definition quoted (s : string) : string :=
  String "034"%char (s ++ String "034"%char EmptyString).

Definition ExchangeNotAvailable (exchangeId : string) : string :=
  "Exchange " ++ quoted exchangeId
  ++ " is not available in ccxt. Check CRYPTO_EXCHANGE env.".

Definition AuthRequired : string :=
  "Live trading requires CRYPTO_API_KEY and CRYPTO_API_SECRET to be set.".

Definition getExchangeClass (ccxt : Ccxt) (exchangeId : string) : Async Export :=
  match registry ccxt exchangeId with
  | Some ExchangeClass => resolve ExchangeClass
  | None => throw_error (ExchangeNotAvailable exchangeId)
  end.

(** [createExchange(config)]; [requireAuth] is false when the argument or
    the field is left out. *)
Definition createExchange (ccxt : Ccxt) (env : ProcessEnv) (requireAuth : bool)
    : Async BasicExchange :=
  let exchangeId :=
    match CRYPTO_EXCHANGE env with
    | Some e => e
    | None => "binance"%string
    end in
  let apiKey := CRYPTO_API_KEY env in
  let secret := CRYPTO_API_SECRET env in
  let password := CRYPTO_API_PASSWORD env in
  if requireAuth && (negb (truthy apiKey) || negb (truthy secret)) then
    throw_error AuthRequired
  else
    ExchangeClass <~ getExchangeClass ccxt exchangeId ;;
    match ExchangeClass with
    | other_export thrown => ([], Throws thrown)
    | exchange_class cls =>
        let sandbox :=
          has_setSandboxMode cls && is_text (CRYPTO_SANDBOX env) "true" in
        resolve {| exchange_id := exchangeId;
                   options := {| enableRateLimit := true; apiKey := apiKey;
                                 secret := secret; password := password |};
                   sandboxMode := sandbox |}
    end.

(** A row of [fetchOHLCV] read by position; a position the row lacks is
    undefined, which every later use reads as NaN. *)
Definition record_of_row (row : list JS.number) : OHLCVRecord :=
  {| timestamp := nth 0 row nan;
     open := nth 1 row nan;
     high := nth 2 row nan;
     low := nth 3 row nan;
     close := nth 4 row nan;
     volume := nth 5 row nan |}.

Definition fetchOhlcv (ccxt : Ccxt) (env : ProcessEnv)
    (symbol timeframe : string) (limit : Z) : Async (list OHLCVRecord) :=
  exchange <~ createExchange ccxt env false ;;
  raw <~ await (call_fetchOHLCV exchange symbol timeframe limit)
           (fetchOHLCV ccxt exchange symbol timeframe limit) ;;
  resolve (map record_of_row raw).

(** ** The strategy route ([POST /api/strategy]) *)

Module StrategyRoute.

(** What [bodySchema] admits, on a body already read as a configuration:
    the bounds of the schema. *)
Definition bodySchema (payload : StrategyConfig) : bool :=
  (1 <=? Z.of_nat (String.length (symbol payload)))
  && (1 <=? Z.of_nat (String.length (timeframe payload)))
  && (3 <=? fastLength payload) && (fastLength payload <=? 200)
  && (5 <=? slowLength payload) && (slowLength payload <=? 400)
  && (10 <=? capital payload)%float
  && (0.1 <=? riskPercent payload)%float && (riskPercent payload <=? 100)%float.

(** The request after [request.json()] and [bodySchema.safeParse]. *)
Inductive ParsedRequest :=
| MalformedJSON
| InvalidPayload (issues : list string)
| ValidPayload (payload : StrategyConfig).

(** The [execution] field of the response, when there is one. *)
Inductive Execution :=
| submitted (orderId : option string) (raw : OrderResult)
| skipped (reason : string).

Record Meta := {
  evaluatedAt : JS.number;
  meta_symbol : string;
  meta_timeframe : string;
  candlesUsed : nat;
  liveTrading : bool
}.

Record Evaluation := {
  strategy : StrategyComputation;
  suggestion : option StrategyOrder;
  execution : option Execution;
  meta : Meta
}.

(** The body and status handed to [NextResponse.json]. *)
Inductive Response :=
| json_ok (body : Evaluation)
| json_error (status : Z) (error : string) (issues : list string).

Definition NotEnabled : string :=
  "ENABLE_LIVE_TRADING is not set to true. Order not transmitted.".

Definition mode_is_live (m : StrategyMode) : bool :=
  match m with
  | live => true
  | paper => false
  end.

(** The second [try] block, before its [catch]. *)
Definition evaluate_and_execute (ccxt : Ccxt) (env : ProcessEnv) (now : JS.number)
    (payload : StrategyConfig) : Async Response :=
  let limit := Z.max (slowLength payload * 4) 200 in
  candles <~ fetchOhlcv ccxt env (symbol payload) (timeframe payload) limit ;;
  strategy <~ of_Result (evaluateStrategy candles payload) ;;
  let suggestedOrder := buildOrder strategy in
  execution <~
    match suggestedOrder with
    | Some order =>
        if mode_is_live (mode payload) then
          if is_text (ENABLE_LIVE_TRADING env) "true" then
            exchange <~ createExchange ccxt env true ;;
            orderResult <~
              await (call_createOrder exchange (symbol payload) (type order)
                       (side order) (size order))
                    (createOrder ccxt exchange (symbol payload) (type order)
                       (side order) (size order)) ;;
            resolve (Some (submitted (order_id orderResult) orderResult))
          else resolve (Some (skipped NotEnabled))
        else resolve None
    | None => resolve None
    end ;;
  resolve (json_ok {| strategy := strategy;
                      suggestion := suggestedOrder;
                      execution := execution;
                      meta := {| evaluatedAt := now;
                                 meta_symbol := symbol payload;
                                 meta_timeframe := timeframe payload;
                                 candlesUsed := length candles;
                                 liveTrading := mode_is_live (mode payload) |} |}).

(** The handler: the calls it makes on exchanges and its response. [now]
    is what [Date.now()] answers; the logging of a caught error is left
    out. *)
Definition POST (ccxt : Ccxt) (env : ProcessEnv) (now : JS.number)
    (request : ParsedRequest) : list Call * Response :=
  match request with
  | MalformedJSON => ([], json_error 400 "Malformed JSON payload supplied." [])
  | InvalidPayload issues => ([], json_error 400 "Invalid request payload" issues)
  | ValidPayload payload =>
      match evaluate_and_execute ccxt env now payload with
      | (calls, Returns response) => (calls, response)
      | (calls, Throws error) =>
          (calls,
           json_error 500
             match error with
             | Some message => message
             | None => "Strategy evaluation failed."%string
             end [])
      end
  end.

End StrategyRoute.

(** ** The account route ([GET /api/account]) *)

Module AccountRoute.

Record BalanceRow := {
  asset : string;
  row_total : JS.number;
  row_free : JS.number;
  row_used : JS.number
}.

(** The three responses: not authenticated with no balances and a
    message, authenticated with the balances, and an error. *)
Inductive Response :=
| json_unauthenticated (message : string)
| json_balances (balances : list BalanceRow)
| json_error (status : Z) (error : string).

(** [record?.[key] ?? 0] on the entries of a record. *)
Fixpoint lookup (key : string) (entries : list (string * JS.number)) : option JS.number :=
  match entries with
  | [] => None
  | (k, v) :: rest => if (k =? key)%string then Some v else lookup key rest
  end.

Definition lookup_or_zero (record : option (list (string * JS.number))) (key : string)
    : JS.number :=
  match record with
  | Some entries =>
      match lookup key entries with
      | Some v => v
      | None => 0%float
      end
  | None => 0%float
  end.

(** [typeof value === "number" && value > 0]. *)
Definition positive_number (entry : string * option JS.number) : bool :=
  match snd entry with
  | Some value => JS.gtb value 0%float
  | None => false
  end.

Definition summary_row (balances : Balance) (entry : string * option JS.number)
    : BalanceRow :=
  {| asset := fst entry;
     row_total := match snd entry with Some value => value | None => nan end;
     row_free := lookup_or_zero (free balances) (fst entry);
     row_used := lookup_or_zero (used balances) (fst entry) |}.

Definition summary (balances : Balance) : list BalanceRow :=
  map (summary_row balances)
    (filter positive_number
       match total balances with
       | Some entries => entries
       | None => []
       end).

Definition NotConfigured : string :=
  "API credentials not configured. Showing empty balances.".

Definition load_balances (ccxt : Ccxt) (env : ProcessEnv) : Async Response :=
  exchange <~ createExchange ccxt env false ;;
  let hasAuth := truthy (CRYPTO_API_KEY env) && truthy (CRYPTO_API_SECRET env) in
  if negb hasAuth then resolve (json_unauthenticated NotConfigured)
  else
    balances <~ await (call_fetchBalance exchange) (fetchBalance ccxt exchange) ;;
    resolve (json_balances (summary balances)).

Definition GET (ccxt : Ccxt) (env : ProcessEnv) : list Call * Response :=
  match load_balances ccxt env with
  | (calls, Returns response) => (calls, response)
  | (calls, Throws error) =>
      (calls,
       json_error 500
         match error with
         | Some message => message
         | None => "Failed to load balances."%string
         end)
  end.

End AccountRoute.

(** ** The market-data route ([GET /api/market-data]) *)

Module MarketDataRoute.

(** A string is held as its UTF-8 bytes. [byte c] is the code of a byte. *)
Definition byte (c : ascii) : Z := Z.of_N (N_of_ascii c).

(** The one-byte white space and line terminators: TAB, LF, VT, FF, CR
    and the space. *)
Definition is_space (c : ascii) : bool :=
  ((9 <=? byte c) && (byte c <=? 13)) || (byte c =? 32).

(** The string without its leading white space and line terminators, as
    [parseInt] trims it. The others are U+00A0 (C2 A0), U+1680 (E1 9A 80),
    U+2000 to U+200A, U+2028, U+2029 and U+202F (E2 80 followed by 80 to
    8A, A8, A9 or AF), U+205F (E2 81 9F), U+3000 (E3 80 80) and U+FEFF
    (EF BB BF). *)
Fixpoint trim_start (s : string) : string :=
  match s with
  | EmptyString => s
  | String c1 r1 =>
      if is_space c1 then trim_start r1
      else
        match r1 with
        | EmptyString => s
        | String c2 r2 =>
            if (byte c1 =? 194) && (byte c2 =? 160) then trim_start r2
            else
              match r2 with
              | EmptyString => s
              | String c3 r3 =>
                  let b1 := byte c1 in
                  let b2 := byte c2 in
                  let b3 := byte c3 in
                  if ((b1 =? 225) && (b2 =? 154) && (b3 =? 128))
                     || ((b1 =? 226) && (b2 =? 128)
                         && (((128 <=? b3) && (b3 <=? 138))
                             || (b3 =? 168) || (b3 =? 169) || (b3 =? 175)))
                     || ((b1 =? 226) && (b2 =? 129) && (b3 =? 159))
                     || ((b1 =? 227) && (b2 =? 128) && (b3 =? 128))
                     || ((b1 =? 239) && (b2 =? 187) && (b3 =? 191))
                  then trim_start r3
                  else s
              end
        end
  end.

Definition digit_of (c : ascii) : option Z :=
  if (48 <=? byte c) && (byte c <=? 57) then Some (byte c - 48) else None.

(** The digits the string starts with. *)
Fixpoint leading_digits (s : string) : list Z :=
  match s with
  | EmptyString => []
  | String c rest =>
      match digit_of c with
      | Some d => d :: leading_digits rest
      | None => []
      end
  end.

Definition mathInt (digits : list Z) : Z :=
  fold_left (fun acc d => 10 * acc + d) digits 0.

(** [Number.parseInt(text, 10)]: [None] is NaN. The result is kept as the
    integer the digits spell; the number is the binary64 nearest to it
    ([-0] for a negative zero), which lies between 50 and 500 exactly
    when the integer does. *)
Definition parseInt (text : string) : option Z :=
  let trimmed := trim_start text in
  let '(sign, body) :=
    match trimmed with
    | String c rest =>
        if byte c =? 45 then (-1, rest)
        else if byte c =? 43 then (1, rest)
        else (1, trimmed)
    | EmptyString => (1, trimmed)
    end in
  match leading_digits body with
  | [] => None
  | digits => Some (sign * mathInt digits)
  end.

(** [Object.fromEntries(searchParams.entries())[key]]: the last entry of
    that key, if any. *)
Fixpoint fromEntries (entries : list (string * string)) (key : string) : option string :=
  match entries with
  | [] => None
  | (k, v) :: rest =>
      match fromEntries rest key with
      | Some later => Some later
      | None => if (k =? key)%string then Some v else None
      end
  end.

Record Query := {
  query_symbol : string;
  query_timeframe : string;
  query_limit : Z
}.

(** The transform of [limit]. *)
Definition limit_of (value : option string) : Z :=
  match value with
  | None => 200
  | Some text =>
      if (text =? EmptyString)%string then 200
      else match parseInt text with
           | None => 200
           | Some parsed => parsed
           end
  end.

(** [querySchema.safeParse]: the data, or [None] when it fails. *)
Definition querySchema (entries : list (string * string)) : option Query :=
  let symbol :=
    match fromEntries entries "symbol" with
    | Some s => s
    | None => "BTC/USDT"%string
    end in
  let timeframe :=
    match fromEntries entries "timeframe" with
    | Some s => s
    | None => "1h"%string
    end in
  let limit := limit_of (fromEntries entries "limit") in
  if (50 <=? limit) && (limit <=? 500)
  then Some {| query_symbol := symbol; query_timeframe := timeframe;
               query_limit := limit |}
  else None.

Inductive Response :=
| json_data (data : list OHLCVRecord)
| json_error (status : Z) (error : string).

(** The handler, on the entries of [searchParams]. *)
Definition GET (ccxt : Ccxt) (env : ProcessEnv) (searchParams : list (string * string))
    : list Call * Response :=
  match querySchema searchParams with
  | None => ([], json_error 400 "Invalid query parameters.")
  | Some data =>
      match fetchOhlcv ccxt env (query_symbol data) (query_timeframe data)
              (query_limit data) with
      | (calls, Returns candles) => (calls, json_data candles)
      | (calls, Throws error) =>
          (calls,
           json_error 500
             match error with
             | Some message => message
             | None => "Failed to fetch market data."%string
             end)
      end
  end.

End MarketDataRoute.

(** ** Vocabulary for the properties of the client and the routes *)

(** The exchange id the client looks up, the instance it constructs from
    a class, and the message a [catch] reports. *)
Definition exchangeId_of (env : ProcessEnv) : string :=
  match CRYPTO_EXCHANGE env with
  | Some e => e
  | None => "binance"%string
  end.

Definition exchange_of (env : ProcessEnv) (ExchangeClass : ExchangeCtor) : BasicExchange :=
  {| exchange_id := exchangeId_of env;
     options := {| enableRateLimit := true; apiKey := CRYPTO_API_KEY env;
                   secret := CRYPTO_API_SECRET env;
                   password := CRYPTO_API_PASSWORD env |};
     sandboxMode :=
       has_setSandboxMode ExchangeClass && is_text (CRYPTO_SANDBOX env) "true" |}.

Definition message_or (error : option string) (default : string) : string :=
  match error with
  | Some message => message
  | None => default
  end.

(** A computation after one more call, made first. *)
Definition prepend {A} (c : Call) (m : Async A) : Async A := (c :: fst m, snd m).

Definition has_credentials (env : ProcessEnv) : bool :=
  truthy (CRYPTO_API_KEY env) && truthy (CRYPTO_API_SECRET env).

Definition is_createOrder (c : Call) : bool :=
  match c with
  | call_createOrder _ _ _ _ _ => true
  | _ => false
  end.

Definition is_fetchBalance (c : Call) : bool :=
  match c with
  | call_fetchBalance _ => true
  | _ => false
  end.

(** The body of a successful response of the strategy route. *)
Definition response_body (now : JS.number) (payload : StrategyConfig)
    (candles : list OHLCVRecord) (comp : StrategyComputation)
    (execution : option StrategyRoute.Execution) : StrategyRoute.Evaluation :=
  {| StrategyRoute.strategy := comp;
     StrategyRoute.suggestion := buildOrder comp;
     StrategyRoute.execution := execution;
     StrategyRoute.meta :=
       {| StrategyRoute.evaluatedAt := now;
          StrategyRoute.meta_symbol := symbol payload;
          StrategyRoute.meta_timeframe := timeframe payload;
          StrategyRoute.candlesUsed := length candles;
          StrategyRoute.liveTrading := StrategyRoute.mode_is_live (mode payload) |} |}.

(** The runs of the strategy route on a valid payload, case by case. *)
Inductive POST_run (ccxt : Ccxt) (env : ProcessEnv) (now : JS.number)
    (payload : StrategyConfig) : list Call -> StrategyRoute.Response -> Prop :=
| run_unavailable :
    registry ccxt (exchangeId_of env) = None ->
    POST_run ccxt env now payload []
      (StrategyRoute.json_error 500 (ExchangeNotAvailable (exchangeId_of env)) [])
| run_not_constructed thrown :
    registry ccxt (exchangeId_of env) = Some (other_export thrown) ->
    POST_run ccxt env now payload []
      (StrategyRoute.json_error 500 (message_or thrown "Strategy evaluation failed.") [])
| run_fetch_failed cls error :
    registry ccxt (exchangeId_of env) = Some (exchange_class cls) ->
    let exchange := exchange_of env cls in
    let limit := Z.max (slowLength payload * 4) 200 in
    fetchOHLCV ccxt exchange (symbol payload) (timeframe payload) limit = Throws error ->
    POST_run ccxt env now payload
      [call_fetchOHLCV exchange (symbol payload) (timeframe payload) limit]
      (StrategyRoute.json_error 500 (message_or error "Strategy evaluation failed.") [])
| run_evaluated cls raw calls response :
    registry ccxt (exchangeId_of env) = Some (exchange_class cls) ->
    let exchange := exchange_of env cls in
    let limit := Z.max (slowLength payload * 4) 200 in
    fetchOHLCV ccxt exchange (symbol payload) (timeframe payload) limit = Returns raw ->
    evaluated_run ccxt env now payload cls (map record_of_row raw) calls response ->
    POST_run ccxt env now payload
      (call_fetchOHLCV exchange (symbol payload) (timeframe payload) limit :: calls)
      response

with evaluated_run (ccxt : Ccxt) (env : ProcessEnv) (now : JS.number)
    (payload : StrategyConfig) : ExchangeCtor -> list OHLCVRecord -> list Call
                                 -> StrategyRoute.Response -> Prop :=
| run_strategy_failed cls candles message :
    evaluateStrategy candles payload = Throw message ->
    evaluated_run ccxt env now payload cls candles []
      (StrategyRoute.json_error 500 message [])
| run_no_execution cls candles comp :
    evaluateStrategy candles payload = Ok comp ->
    buildOrder comp = None \/ mode payload = paper ->
    evaluated_run ccxt env now payload cls candles []
      (StrategyRoute.json_ok (response_body now payload candles comp None))
| run_skipped cls candles comp order :
    evaluateStrategy candles payload = Ok comp ->
    buildOrder comp = Some order -> mode payload = live ->
    is_text (ENABLE_LIVE_TRADING env) "true" = false ->
    evaluated_run ccxt env now payload cls candles []
      (StrategyRoute.json_ok
         (response_body now payload candles comp
            (Some (StrategyRoute.skipped StrategyRoute.NotEnabled))))
| run_auth_missing cls candles comp order :
    evaluateStrategy candles payload = Ok comp ->
    buildOrder comp = Some order -> mode payload = live ->
    is_text (ENABLE_LIVE_TRADING env) "true" = true ->
    has_credentials env = false ->
    evaluated_run ccxt env now payload cls candles []
      (StrategyRoute.json_error 500 AuthRequired [])
| run_order_failed cls candles comp order error :
    evaluateStrategy candles payload = Ok comp ->
    buildOrder comp = Some order -> mode payload = live ->
    is_text (ENABLE_LIVE_TRADING env) "true" = true ->
    has_credentials env = true ->
    let exchange := exchange_of env cls in
    createOrder ccxt exchange (symbol payload) (type order) (side order) (size order)
    = Throws error ->
    evaluated_run ccxt env now payload cls candles
      [call_createOrder exchange (symbol payload) (type order) (side order) (size order)]
      (StrategyRoute.json_error 500 (message_or error "Strategy evaluation failed.") [])
| run_submitted cls candles comp order answer :
    evaluateStrategy candles payload = Ok comp ->
    buildOrder comp = Some order -> mode payload = live ->
    is_text (ENABLE_LIVE_TRADING env) "true" = true ->
    has_credentials env = true ->
    let exchange := exchange_of env cls in
    createOrder ccxt exchange (symbol payload) (type order) (side order) (size order)
    = Returns answer ->
    evaluated_run ccxt env now payload cls candles
      [call_createOrder exchange (symbol payload) (type order) (side order) (size order)]
      (StrategyRoute.json_ok
         (response_body now payload candles comp
            (Some (StrategyRoute.submitted (order_id answer) answer)))).

(** ** Sample worlds *)

Definition sample_env (live_trading : option string) : ProcessEnv :=
  {| CRYPTO_EXCHANGE := None;
     CRYPTO_API_KEY := Some "key"%string;
     CRYPTO_API_SECRET := Some "secret"%string;
     CRYPTO_API_PASSWORD := None;
     CRYPTO_SANDBOX := Some "true"%string;
     ENABLE_LIVE_TRADING := live_trading |}.

(** An environment that names an export of the library that is not an
    exchange class, and sets no credentials. *)
Definition version_env : ProcessEnv :=
  {| CRYPTO_EXCHANGE := Some "version"%string;
     CRYPTO_API_KEY := None;
     CRYPTO_API_SECRET := None;
     CRYPTO_API_PASSWORD := None;
     CRYPTO_SANDBOX := None;
     ENABLE_LIVE_TRADING := None |}.

Definition sample_balance : Balance :=
  {| total := Some [("BTC", Some 1.5); ("ETH", Some 0); ("XRP", None);
                    ("SOL", Some 20)]%string%float;
     free := Some [("BTC", 1)]%string%float;
     used := None |}.

(** A registry that knows one exchange, which answers the rows given, one
    balance, and an order id, and holds its version text besides. *)
Definition sample_ccxt (rows : list (list JS.number)) : Ccxt :=
  {| registry := fun exchangeId =>
       if (exchangeId =? "binance")%string
       then Some (exchange_class {| has_setSandboxMode := true |})
       else if (exchangeId =? "version")%string
       then Some (other_export (Some "ExchangeClass is not a constructor"%string))
       else None;
     fetchOHLCV := fun _ _ _ _ => Returns rows;
     fetchBalance := fun _ => Returns sample_balance;
     createOrder := fun _ _ _ _ _ =>
       Returns {| order_id := Some "42"%string; raw_text := "filled"%string |} |}.

Definition sample_row (c : JS.number) : list JS.number :=
  [0; c; c; c; c; 0]%float.

Definition live_cfg (fast slow : Z) (cap risk : JS.number) : StrategyConfig :=
  {| symbol := "BTC/USDT"; timeframe := "1h"; fastLength := fast;
     slowLength := slow; capital := cap; riskPercent := risk; mode := live |}.

(** ** Sample runs of the runtime functions *)

(** [toFixed] rounds the exact value of the number: 0.125 is a tie and
    goes up, 1.005 lies below the decimal 1.005 and goes down, -2.5 goes
    away from zero, and from 10^21 on the number is kept. *)
Example round_dp_runs :
  round_dp 0.125%float 2 = 0.13%float
  /\ round_dp 1.005%float 2 = 1%float
  /\ round_dp (-2.5)%float 0 = (-3)%float
  /\ round_dp (1 / 3)%float 6 = 0.333333%float
  /\ round_dp 1e21%float 2 = 1e21%float
  /\ round_dp nan 2 = nan
  /\ round_dp neg_infinity 2 = neg_infinity.
Proof. repeat split; vm_compute; reflexivity. Qed.

Example toFixed_runs :
  JS.toFixed 0.125%float 2 = JS.NumFixed false 13 2
  /\ JS.toFixed (-0.001)%float 2 = JS.NumFixed true 0 2
  /\ JS.toFixed (-0)%float 2 = JS.NumFixed false 0 2
  /\ JS.toFixed 1e21%float 2 = JS.NumToString 1e21%float.
Proof. repeat split; vm_compute; reflexivity. Qed.

Example Math_min_max_runs :
  JS.Math_min [3; 1; 2]%float = 1%float
  /\ JS.Math_max [3; 1; 2]%float = 3%float
  /\ JS.Math_min [1; nan; 2]%float = nan
  /\ JS.Math_min [] = infinity.
Proof. repeat split; vm_compute; reflexivity. Qed.

Example slice_runs :
  JS.slice [1; 2; 3; 4; 5] 1 3 = [2; 3]
  /\ JS.slice_from [1; 2; 3; 4; 5] (-2) = [4; 5]
  /\ JS.slice_from [1; 2; 3] (-5) = [1; 2; 3].
Proof. repeat split; reflexivity. Qed.

Example simpleMovingAverage_run :
  simpleMovingAverage [1; 2; 3; 4; 5; 6]%float 3
  = Ok [None; None; Some 2%float; Some 3%float; Some 4%float; Some 5%float].
Proof. vm_compute. reflexivity. Qed.

(** ** Lists and slices *)

Lemma firstn_skipn_nth {A} (d : A) (l : list A) (n k : nat) :
  (k + n <= length l)%nat ->
  firstn n (skipn k l) = map (fun j => nth (k + j)%nat l d) (seq 0 n).
Proof.
  revert k. induction n as [|n IH]; intros k Hk; [reflexivity|].
  destruct (skipn k l) as [|x t] eqn:E.
  - apply (f_equal (@length A)) in E. rewrite length_skipn in E. simpl in E. lia.
  - cbn [firstn seq map]. f_equal.
    + rewrite Nat.add_0_r.
      rewrite <- (firstn_skipn k l) at 1. rewrite E.
      rewrite app_nth2; rewrite length_firstn; [|lia].
      replace (k - Nat.min k (length l))%nat with 0%nat by lia. reflexivity.
    + rewrite <- seq_shift, map_map.
      replace t with (skipn (S k) l).
      * rewrite IH by lia. apply map_ext. intros j. f_equal. lia.
      * change (S k) with (1 + k)%nat. rewrite <- skipn_skipn, E. reflexivity.
Qed.

Lemma slice_window (values : list JS.number) (P i : Z) :
  1 <= P -> P - 1 <= i < Z.of_nat (length values) ->
  JS.slice values (i + 1 - P) (i + 1) = window_at values P i.
Proof.
  intros HP Hi. unfold JS.slice, JS.clamp_index, window_at.
  destruct (Z.ltb_spec (i + 1 - P) 0); [lia|].
  destruct (Z.ltb_spec (i + 1) 0); [lia|].
  rewrite !Z.min_l by lia.
  replace (i + 1 - (i + 1 - P)) with P by lia.
  replace (i - P + 1) with (i + 1 - P) by lia.
  apply firstn_skipn_nth. lia.
Qed.

Lemma window_at_length values P i : length (window_at values P i) = Z.to_nat P.
Proof. unfold window_at. now rewrite length_map, length_seq. Qed.

(** ** The moving-average loop *)

Lemma sma_loop_entries values period n : forall i result,
  sma_loop values period n i result =
  result ++ map (fun k => sma_entry values period (i + Z.of_nat k)) (seq 0 n).
Proof.
  induction n as [|n IH]; intros i result.
  - simpl. now rewrite app_nil_r.
  - cbn [sma_loop seq map]. rewrite <- seq_shift, map_map.
    replace (i + Z.of_nat 0) with i by lia.
    assert (E : map (fun k => sma_entry values period (i + Z.of_nat (S k))) (seq 0 n)
              = map (fun k => sma_entry values period (i + 1 + Z.of_nat k)) (seq 0 n)).
    { apply map_ext. intros k. f_equal. lia. }
    rewrite E. unfold sma_entry at 1.
    destruct (i + 1 <? period); rewrite IH, <- app_assoc; reflexivity.
Qed.

Lemma sma_loop_length values period n i result :
  length (sma_loop values period n i result) = (length result + n)%nat.
Proof. now rewrite sma_loop_entries, length_app, length_map, length_seq. Qed.

Lemma sma_loop_nth values period n (k : nat) :
  (k < n)%nat ->
  nth_error (sma_loop values period n 0 []) k
  = Some (sma_entry values period (Z.of_nat k)).
Proof.
  intros Hk. rewrite sma_loop_entries. cbn [app].
  rewrite nth_error_map, nth_error_seq.
  destruct (Nat.ltb_spec k n); [reflexivity | lia].
Qed.

Lemma sma_entry_value values period i :
  1 <= period -> 0 <= i < Z.of_nat (length values) ->
  sma_entry values period i = sma_value values period i.
Proof.
  intros HP Hi. unfold sma_entry, sma_value.
  destruct (Z.ltb_spec i 0); [lia|]. cbn [orb].
  destruct (Z.ltb_spec (i + 1) period), (Z.ltb_spec i (period - 1)); try lia;
    [reflexivity|].
  rewrite slice_window by lia. unfold arithmetic_mean, window_sum.
  rewrite window_at_length, Z2Nat.id by lia. reflexivity.
Qed.

Lemma simpleMovingAverage_ok values period :
  1 <= period ->
  simpleMovingAverage values period
  = Ok (sma_loop values period (length values) 0 []).
Proof.
  intros HP. unfold simpleMovingAverage.
  destruct (Z.leb_spec period 0); [lia | reflexivity].
Qed.

Lemma sma_index values period i :
  1 <= period -> i < Z.of_nat (length values) ->
  JS.index (sma_loop values period (length values) 0 []) i
  = sma_value values period i.
Proof.
  intros HP Hi. unfold JS.index.
  destruct (Z.ltb_spec i 0) as [Hneg|Hpos].
  - unfold sma_value. destruct (Z.ltb_spec i 0); [reflexivity | lia].
  - rewrite <- (Z2Nat.id i) at 2 by lia.
    rewrite sma_loop_nth by lia. rewrite Z2Nat.id by lia.
    apply sma_entry_value; lia.
Qed.

(** ** Unfolding [evaluateStrategy] *)

Lemma slice_from_trailing {A} (xs : list A) (n : Z) :
  1 <= n -> JS.slice_from xs (- n) = trailing xs n.
Proof.
  intros Hn. unfold JS.slice_from, JS.slice, JS.clamp_index, trailing.
  destruct (Z.ltb_spec (- n) 0); [|lia].
  destruct (Z.ltb_spec (Z.of_nat (length xs)) 0); [lia|].
  rewrite Z.min_id.
  replace (Z.to_nat (Z.max (Z.of_nat (length xs) + - n) 0))
    with (length xs - Z.to_nat n)%nat by lia.
  apply firstn_all2. rewrite length_skipn. lia.
Qed.

Lemma nth_last_close (candles : list OHLCVRecord) :
  candles <> [] ->
  nth (Z.to_nat (Z.of_nat (length (map close candles)) - 1)) (map close candles) nan
  = latest_close candles.
Proof.
  intros Hne. unfold latest_close. rewrite length_map.
  replace (Z.to_nat (Z.of_nat (length candles) - 1)) with (length candles - 1)%nat by lia.
  induction candles as [|c [|c' t] IH]; [easy | reflexivity |].
  replace (length (c :: c' :: t) - 1)%nat with (S (length (c' :: t) - 1))
    by (cbn [length]; lia).
  change (last (c :: c' :: t) (candle nan)) with (last (c' :: t) (candle nan)).
  rewrite <- IH by discriminate. reflexivity.
Qed.

(** What [evaluateStrategy] returns on a non-empty sequence with positive
    periods, field by field. *)
Lemma evaluateStrategy_fields (candles : list OHLCVRecord) (config : StrategyConfig) :
  candles <> [] -> 1 <= fastLength config -> 1 <= slowLength config ->
  let closes := map close candles in
  let last_index := Z.of_nat (length candles) - 1 in
  exists comp,
    evaluateStrategy candles config = Ok comp
    /\ fastMA comp = sma_loop closes (fastLength config) (length closes) 0 []
    /\ slowMA comp = sma_loop closes (slowLength config) (length closes) 0 []
    /\ (action comp, reason comp)
       = signal (sma_value closes (fastLength config) last_index)
                (sma_value closes (slowLength config) last_index)
                (sma_value closes (fastLength config) (last_index - 1))
                (sma_value closes (slowLength config) (last_index - 1))
    /\ latestPrice comp = latest_close candles
    /\ positionSize comp
       = (if JS.gtb (latest_close candles) 0%float
          then round_dp (capital config * clamp (riskPercent config / 100) 0 1
                         / latest_close candles)%float 6
          else 0%float)
    /\ stopLoss comp
       = finite_or_undefined
           (if Action_eqb (action comp) buy
            then round_dp (JS.Math_min (map low (trailing candles (slowLength config)))
                           * 0.99)%float 2
            else round_dp (JS.Math_max (map high (trailing candles (slowLength config)))
                           * 1.01)%float 2)
    /\ takeProfit comp
       = finite_or_undefined
           (if Action_eqb (action comp) buy
            then round_dp (latest_close candles * 1.03)%float 2
            else round_dp (latest_close candles * 0.97)%float 2).
Proof.
  intros Hne Hf Hs closes last_index. unfold evaluateStrategy.
  destruct (Nat.eqb_spec (length candles) 0) as [E|_].
  { destruct candles; [easy | discriminate]. }
  fold closes. rewrite !simpleMovingAverage_ok by assumption. cbn [bind].
  assert (Hlen : length closes = length candles) by apply length_map.
  rewrite !sma_index by lia. rewrite Hlen. fold last_index.
  assert (Hlast : nth (Z.to_nat last_index) closes nan = latest_close candles).
  { rewrite <- (nth_last_close candles Hne). fold closes. now rewrite Hlen. }
  rewrite !Hlast.
  rewrite !slice_from_trailing by assumption.
  destruct (signal _ _ _ _) as [a r].
  eexists. split; [reflexivity|]. cbn. repeat split; reflexivity.
Qed.

(** ** Comparisons of binary64 numbers *)

Lemma SFcompare_antisym (x y : spec_float) :
  SFcompare y x = option_map CompOpp (SFcompare x y).
Proof.
  destruct x as [sx|sx| |sx mx ex], y as [sy|sy| |sy my ey]; unfold SFcompare;
    try destruct sx; try destruct sy; try reflexivity;
    fold (Pos.compare mx my); fold (Pos.compare my mx);
    rewrite (Z.compare_antisym ex ey), (Pos.compare_antisym mx my);
    destruct (ex ?= ey), (mx ?= my)%positive; reflexivity.
Qed.

Lemma SFcompare_nan (x y : float) :
  SFcompare (Prim2SF x) (Prim2SF y) = None <-> is_nan x = true \/ is_nan y = true.
Proof.
  assert (N : forall z, Prim2SF z = S754_nan <-> is_nan z = true).
  { intros z. unfold is_nan. rewrite eqb_spec. unfold SFeqb.
    destruct (Prim2SF z) as [s|s| |s m e]; cbn; try destruct s; cbn;
      try (split; [discriminate | discriminate]); try tauto.
    - rewrite Z.compare_refl, Pos.compare_cont_refl. split; discriminate.
    - rewrite Z.compare_refl, Pos.compare_cont_refl. split; discriminate. }
  rewrite <- !N.
  destruct (Prim2SF x) as [sx|sx| |sx mx ex], (Prim2SF y) as [sy|sy| |sy my ey];
    cbn; try (split; [discriminate | intros [H|H]; discriminate]);
    try (split; [auto | reflexivity]).
Qed.

Lemma leb_gtb_false (x y : float) : (x <=? y)%float = true -> JS.gtb x y = false.
Proof.
  unfold JS.gtb. rewrite leb_spec, ltb_spec. unfold SFleb, SFltb.
  rewrite (SFcompare_antisym (Prim2SF x) (Prim2SF y)).
  destruct (SFcompare (Prim2SF x) (Prim2SF y)) as [[]|]; cbn; congruence.
Qed.

Lemma ltb_leb (x y : float) : (x <? y)%float = true -> (x <=? y)%float = true.
Proof.
  rewrite leb_spec, ltb_spec. unfold SFleb, SFltb.
  destruct (SFcompare (Prim2SF x) (Prim2SF y)) as [[]|]; cbn; congruence.
Qed.

(** Two numbers that are not NaN are ordered one way, the other, or equal. *)
Lemma number_trichotomy (x y : float) :
  is_nan x = false -> is_nan y = false ->
  (x <? y)%float = true \/ (y <? x)%float = true \/ (x =? y)%float = true.
Proof.
  intros Hx Hy. rewrite !ltb_spec, eqb_spec. unfold SFltb, SFeqb.
  rewrite (SFcompare_antisym (Prim2SF x) (Prim2SF y)).
  destruct (SFcompare (Prim2SF x) (Prim2SF y)) as [[]|] eqn:E; cbn; auto.
  apply SFcompare_nan in E. destruct E; congruence.
Qed.


(** ** Rounding to binary64: the closed form and its monotonicity *)

Local Abbreviation fexp64 := (fexp prec emax).

Lemma fexp64_eq (k : Z) : fexp64 k = Z.max (k - 53) (-1074).
Proof. reflexivity. Qed.

Ltac unfold_fexp := rewrite ?fexp64_eq in *.

Lemma pow2_pos (n : Z) : 0 <= n -> 0 < 2 ^ n.
Proof. intros. apply Z.pow_pos_nonneg; lia. Qed.

Lemma pow2_split (a b : Z) : 0 <= a -> 0 <= b -> 2 ^ (a + b) = 2 ^ a * 2 ^ b.
Proof. intros. apply Z.pow_add_r; assumption. Qed.

(** *** Number of binary digits *)

Lemma digits2_pos_bounds (p : positive) :
  2 ^ (Z.pos (digits2_pos p) - 1) <= Z.pos p < 2 ^ Z.pos (digits2_pos p).
Proof.
  induction p as [p IH|p IH|]; cbn [digits2_pos]; [| |cbn; lia];
    rewrite Pos2Z.inj_succ;
    replace (Z.succ (Z.pos (digits2_pos p)) - 1) with (1 + (Z.pos (digits2_pos p) - 1)) by lia;
    unfold Z.succ; rewrite (Z.add_comm (Z.pos (digits2_pos p)) 1);
    rewrite !pow2_split by lia; change (2 ^ 1) with 2; lia.
Qed.

Lemma Zdigits2_nonneg (m : Z) : 0 <= Zdigits2 m.
Proof. destruct m; cbn; lia. Qed.

Lemma Zdigits2_bounds (m : Z) :
  0 < m -> 2 ^ (Zdigits2 m - 1) <= m < 2 ^ Zdigits2 m.
Proof. destruct m as [|p|p]; try lia. intros _. apply digits2_pos_bounds. Qed.

Lemma Zdigits2_upper (m : Z) : 0 <= m -> m < 2 ^ Zdigits2 m.
Proof.
  intros H. destruct (Z.eq_dec m 0) as [->|]; [cbn; lia|].
  apply Zdigits2_bounds. lia.
Qed.

Lemma Zdigits2_unique (m d : Z) :
  2 ^ (d - 1) <= m < 2 ^ d -> 0 < m -> Zdigits2 m = d.
Proof.
  intros [Hl Hu] Hm. pose proof (Zdigits2_bounds m Hm) as [Hl' Hu'].
  pose proof (Zdigits2_nonneg m).
  assert (0 <= d).
  { destruct (Z.leb_spec 0 d); [assumption|]. rewrite Z.pow_neg_r in Hu; lia. }
  assert (d - 1 < Zdigits2 m).
  { destruct (Z.eq_dec d 0); [lia|].
    apply (Z.pow_lt_mono_r_iff 2); [lia | lia | lia]. }
  assert (Zdigits2 m - 1 < d).
  { assert (Zdigits2 m <> 0) by (destruct m; cbn; lia).
    apply (Z.pow_lt_mono_r_iff 2); [lia | lia | lia]. }
  lia.
Qed.

Lemma Zdigits2_mono (m n : Z) : 0 <= m <= n -> Zdigits2 m <= Zdigits2 n.
Proof.
  intros [Hm Hn]. destruct (Z.eq_dec m 0) as [->|]; [apply Zdigits2_nonneg|].
  pose proof (Zdigits2_bounds m ltac:(lia)) as [Hl _].
  pose proof (Zdigits2_bounds n ltac:(lia)) as [_ Hu].
  assert (Zdigits2 m <> 0) by (destruct m; cbn; lia).
  pose proof (Zdigits2_nonneg m). pose proof (Zdigits2_nonneg n).
  assert (Zdigits2 m - 1 < Zdigits2 n); [|lia].
  apply (Z.pow_lt_mono_r_iff 2); lia.
Qed.

(** Dropping [n] low bits of a number of [d] digits leaves [d - n]. *)
Lemma div_pow2_lt (m d n : Z) :
  0 <= m < 2 ^ d -> 0 <= n <= d -> m / 2 ^ n < 2 ^ (d - n).
Proof.
  intros Hm Hn. apply Z.div_lt_upper_bound; [apply pow2_pos; lia|].
  rewrite <- pow2_split by lia. replace (n + (d - n)) with d by lia. lia.
Qed.

Lemma div_pow2_ge (m d n : Z) :
  2 ^ (d - 1) <= m -> 0 <= n <= d - 1 -> 2 ^ (d - 1 - n) <= m / 2 ^ n.
Proof.
  intros Hm Hn. apply Z.div_le_lower_bound; [apply pow2_pos; lia|].
  rewrite <- pow2_split by lia. replace (n + (d - 1 - n)) with (d - 1) by lia. lia.
Qed.

(** *** The quotient with its sticky bit *)

Lemma encq_nonneg (a b : Z) : 0 <= a -> 0 < b -> 0 <= encq a b.
Proof.
  intros. unfold encq. pose proof (Z.div_pos a b ltac:(lia) ltac:(lia)).
  destruct (a mod b =? 0); lia.
Qed.

Lemma encq_mono (a b c d : Z) :
  0 <= a -> 0 < b -> 0 < d -> a * d <= c * b -> encq a b <= encq c d.
Proof.
  intros Ha Hb Hd H. unfold encq.
  pose proof (Z.div_mod a b ltac:(lia)) as Ea.
  pose proof (Z.div_mod c d ltac:(lia)) as Ec.
  pose proof (Z.mod_pos_bound a b Hb) as Ra.
  pose proof (Z.mod_pos_bound c d Hd) as Rc.
  assert (Q : a / b <= c / d).
  { apply Z.div_le_lower_bound; [lia|]. nia. }
  destruct (Z.eqb_spec (a mod b) 0) as [Za|Za], (Z.eqb_spec (c mod d) 0) as [Zc|Zc];
    try lia.
  assert (a / b <> c / d); [|lia].
  intros Eq. rewrite Zc, Eq in *. nia.
Qed.

Lemma encq_cancel (a b c : Z) : 0 < c -> 0 < b -> encq (a * c) (b * c) = encq a b.
Proof.
  intros Hc Hb. unfold encq.
  rewrite Z.div_mul_cancel_r by lia.
  rewrite Zmult_mod_distr_r.
  destruct (Z.eqb_spec (a mod b) 0) as [E|E], (Z.eqb_spec (a mod b * c) 0) as [F|F];
    try reflexivity; nia.
Qed.

Lemma encq_2 (t : Z) : encq t 2 = t.
Proof.
  unfold encq. pose proof (Z.div_mod t 2 ltac:(lia)).
  pose proof (Z.mod_pos_bound t 2 ltac:(lia)).
  destruct (Z.eqb_spec (t mod 2) 0); lia.
Qed.

(** Shifting the encoded quotient right by [n] bits, keeping the sticky
    bit, is the encoding of [a / (b * 2^n)]. *)
Lemma encq_shift (a b n : Z) :
  0 <= a -> 0 < b -> 0 <= n ->
  encq (encq a b) (2 ^ (n + 1)) = encq a (b * 2 ^ n).
Proof.
  intros Ha Hb Hn. unfold encq.
  pose proof (pow2_pos n Hn) as HM. set (M := 2 ^ n) in *.
  replace (2 ^ (n + 1)) with (2 * M) by (unfold M; rewrite pow2_split by lia; lia).
  pose proof (Z.div_mod a b ltac:(lia)) as Ea.
  pose proof (Z.mod_pos_bound a b Hb) as Ra.
  set (q := a / b) in *. set (r := a mod b) in *.
  assert (Hq : 0 <= q) by (apply Z.div_pos; lia).
  set (s := if r =? 0 then 0 else 1).
  assert (Hs : 0 <= s <= 1) by (unfold s; destruct (r =? 0); lia).
  assert (D1 : (2 * q + s) / (2 * M) = q / M).
  { rewrite <- Z.div_div by lia. f_equal.
    symmetry. apply (Z.div_unique _ 2 q s); lia. }
  assert (D2 : a / (b * M) = q / M).
  { unfold q. rewrite Z.div_div by lia. reflexivity. }
  assert (M1 : (2 * q + s) mod (2 * M) = s + 2 * (q mod M)).
  { rewrite Z.rem_mul_r by lia.
    replace ((2 * q + s) mod 2) with s
      by (apply (Z.mod_unique _ 2 q s); lia).
    replace ((2 * q + s) / 2) with q
      by (apply (Z.div_unique _ 2 q s); lia).
    reflexivity. }
  assert (M2 : a mod (b * M) = r + b * (q mod M)).
  { rewrite Z.rem_mul_r by lia. reflexivity. }
  rewrite D1, D2, M1, M2.
  pose proof (Z.mod_pos_bound q M HM) as Rq.
  unfold s.
  destruct (Z.eqb_spec r 0) as [Zr|Zr];
    destruct (Z.eqb_spec (q mod M) 0) as [Zq|Zq];
    repeat match goal with
      | |- context [?x =? 0] => destruct (Z.eqb_spec x 0)
      end; try lia; try nia.
Qed.

(** *** Round to nearest, ties to even *)

Lemma rne_exact (m : Z) : rne (4 * m) = m.
Proof.
  unfold rne. replace (4 * m) with (m * 4) by lia.
  rewrite Z.div_mul, Z.mod_mul by lia. cbn. lia.
Qed.

Lemma rne_bounds (t : Z) : t / 4 <= rne t <= t / 4 + 1.
Proof. unfold rne. destruct (_ || _); lia. Qed.

Lemma rne_mono (t u : Z) : t <= u -> rne t <= rne u.
Proof.
  intros H. unfold rne.
  pose proof (Z.div_mod t 4 ltac:(lia)) as Et.
  pose proof (Z.div_mod u 4 ltac:(lia)) as Eu.
  pose proof (Z.mod_pos_bound t 4 ltac:(lia)) as Rt.
  pose proof (Z.mod_pos_bound u 4 ltac:(lia)) as Ru.
  assert (Q : t / 4 <= u / 4) by (apply Z.div_le_mono; lia).
  destruct (Z.eq_dec (t / 4) (u / 4)) as [E|E].
  - rewrite E in *.
    destruct (Z.eqb_spec (t mod 4) 3), (Z.eqb_spec (t mod 4) 2),
      (Z.eqb_spec (u mod 4) 3), (Z.eqb_spec (u mod 4) 2), (Z.odd (u / 4));
      cbn; lia.
  - destruct (_ || _), (_ || _); lia.
Qed.

Lemma rne_lt_pow (t k : Z) : 0 <= k -> t < 4 * 2 ^ k -> rne t <= 2 ^ k.
Proof.
  intros Hk H. pose proof (rne_bounds t).
  assert (t / 4 < 2 ^ k) by (apply Z.div_lt_upper_bound; lia). lia.
Qed.

Lemma rne_ge_pow (t k : Z) : 4 * k <= t -> k <= rne t.
Proof.
  intros H. pose proof (rne_bounds t).
  assert (k <= t / 4) by (apply Z.div_le_lower_bound; lia). lia.
Qed.

(** *** The shift-right records of [SpecFloat] *)

Lemma loc_code_range (l : location) : 0 <= loc_code l < 4.
Proof. destruct l as [|[]]; cbn; lia. Qed.

Lemma rec_code_of_loc (m : Z) (l : location) :
  rec_code (shr_record_of_loc m l) = 4 * m + loc_code l.
Proof.
  destruct l as [|[]]; unfold rec_code;
    cbn [shr_record_of_loc shr_m shr_r shr_s loc_code]; lia.
Qed.

Lemma encq_4 (m c : Z) :
  0 <= c < 4 -> encq (4 * m + c) 4 = 2 * m + (if c =? 0 then 0 else 1).
Proof.
  intros Hc. unfold encq.
  replace ((4 * m + c) / 4) with m by (apply (Z.div_unique _ 4 m c); lia).
  replace ((4 * m + c) mod 4) with c by (apply (Z.mod_unique _ 4 m c); lia).
  reflexivity.
Qed.

Lemma shr_1_code (mrs : shr_record) :
  0 <= shr_m mrs ->
  rec_code (shr_1 mrs) = encq (rec_code mrs) 4 /\ 0 <= shr_m (shr_1 mrs).
Proof.
  destruct mrs as [m r s]. cbn [shr_m]. intros Hm.
  assert (E : rec_code {| shr_m := m; shr_r := r; shr_s := s |}
              = 4 * m + ((if r then 2 else 0) + (if s then 1 else 0))).
  { unfold rec_code. cbn [shr_m shr_r shr_s]. lia. }
  rewrite E, encq_4 by (destruct r, s; lia).
  destruct m as [|[p|p|]|p]; try lia; destruct r, s; unfold rec_code;
    cbn [shr_1 shr_m shr_r shr_s orb Z.eqb Z.add]; lia.
Qed.

Lemma iter_pos_nat {A} (f : A -> A) (p : positive) (x : A) :
  iter_pos f p x = Nat.iter (Pos.to_nat p) f x.
Proof.
  revert x. induction p as [p IH|p IH|]; intros x; cbn [iter_pos].
  - rewrite !IH, Pos2Nat.inj_xI, <- Nat.iter_succ_r, <- Nat.iter_add.
    f_equal. lia.
  - rewrite !IH, Pos2Nat.inj_xO, <- Nat.iter_add. f_equal. lia.
  - reflexivity.
Qed.

Lemma iter_shr_1_code (n : nat) (mrs : shr_record) :
  0 <= shr_m mrs ->
  rec_code (Nat.iter n shr_1 mrs) = encq (rec_code mrs) (2 ^ (Z.of_nat n + 1))
  /\ 0 <= shr_m (Nat.iter n shr_1 mrs).
Proof.
  intros Hm. induction n as [|n [IH Hn]].
  - change (Nat.iter 0 shr_1 mrs) with mrs.
    split; [symmetry; apply encq_2 | assumption].
  - rewrite Nat.iter_succ. destruct (shr_1_code _ Hn) as [E H']. split; [|exact H'].
    rewrite E, IH.
    assert (Hc : 0 <= rec_code mrs).
    { unfold rec_code. destruct (shr_r mrs), (shr_s mrs); lia. }
    change 4 with (2 ^ (1 + 1)).
    rewrite encq_shift by (try apply pow2_pos; lia).
    f_equal. rewrite Nat2Z.inj_succ, <- pow2_split by lia.
    f_equal; lia.
Qed.

(** [shr_fexp] when the target exponent is not below [e]. *)
Lemma shr_fexp_code (m e : Z) (l : location) :
  0 <= m -> e <= fexp64 (Zdigits2 m + e) ->
  let E := fexp64 (Zdigits2 m + e) in
  exists mrs,
    shr_fexp prec emax m e l = (mrs, E)
    /\ rec_code mrs = encq (4 * m + loc_code l) (2 ^ (E - e + 1))
    /\ 0 <= shr_m mrs.
Proof.
  intros Hm He E. unfold shr_fexp, shr. fold E.
  assert (H0 : 0 <= shr_m (shr_record_of_loc m l)) by (destruct l as [|[]]; exact Hm).
  destruct (E - e) as [|p|p] eqn:En; try lia.
  - eexists. split; [f_equal; lia|]. rewrite <- rec_code_of_loc.
    split; [symmetry; apply encq_2 | exact H0].
  - eexists. split; [f_equal; lia|]. rewrite iter_pos_nat.
    destruct (iter_shr_1_code (Pos.to_nat p) _ H0) as [C N].
    split; [|exact N]. rewrite C, rec_code_of_loc, positive_nat_Z. reflexivity.
Qed.

Lemma round_nearest_even_rne (mrs : shr_record) :
  round_nearest_even (shr_m mrs) (loc_of_shr_record mrs) = rne (rec_code mrs).
Proof.
  destruct mrs as [m r s]. unfold rne.
  assert (E : exists c, 0 <= c < 4
                /\ rec_code {| shr_m := m; shr_r := r; shr_s := s |} = 4 * m + c
                /\ c = (if r then 2 else 0) + (if s then 1 else 0)).
  { eexists. split; [|split; [|reflexivity]]; unfold rec_code;
      cbn [shr_m shr_r shr_s]; destruct r, s; lia. }
  destruct E as (c & Hc & -> & Ec).
  replace ((4 * m + c) / 4) with m by (apply (Z.div_unique _ 4 m c); lia).
  replace ((4 * m + c) mod 4) with c by (apply (Z.mod_unique _ 4 m c); lia).
  cbn [shr_m loc_of_shr_record].
  destruct r, s; subst c; cbn [round_nearest_even];
    [ change (2 + 1 =? 3) with true
    | change (2 + 0 =? 3) with false; change (2 + 0 =? 2) with true
    | change (0 + 1 =? 3) with false; change (0 + 1 =? 2) with false
    | change (0 + 0 =? 3) with false; change (0 + 0 =? 2) with false ];
    cbn [orb andb]; try lia.
  change (IntDef.Z.even m) with (Z.even m).
  rewrite <- Z.negb_even. destruct (Z.even m); cbn [negb]; lia.
Qed.

(** *** The closed form of the rounding *)

Lemma cexp_ge_emin (a b e : Z) : -1074 <= cexp a b e.
Proof. unfold cexp. rewrite fexp64_eq. lia. Qed.

(** The scaled mantissa is below [2^53]. *)
Lemma scaled_lt (a b e : Z) :
  0 <= a -> 0 < b -> e <= cexp a b e ->
  a / (b * 2 ^ (cexp a b e - e)) < 2 ^ 53.
Proof.
  intros Ha Hb He. set (n := cexp a b e - e).
  rewrite <- Z.div_div by (try apply pow2_pos; lia).
  set (m := a / b). assert (Hm : 0 <= m) by (apply Z.div_pos; lia).
  pose proof (Zdigits2_upper m Hm) as Hu. pose proof (Zdigits2_nonneg m) as Hd.
  assert (Hn : Zdigits2 m - 53 <= n).
  { unfold n, cexp. fold m. rewrite fexp64_eq. lia. }
  destruct (Z.leb_spec n (Zdigits2 m)).
  - pose proof (div_pow2_lt m (Zdigits2 m) n ltac:(lia) ltac:(unfold n; lia)).
    assert (2 ^ (Zdigits2 m - n) <= 2 ^ 53) by (apply Z.pow_le_mono_r; lia). lia.
  - rewrite Z.div_small; [lia|]. split; [lia|].
    assert (2 ^ Zdigits2 m <= 2 ^ n) by (apply Z.pow_le_mono_r; lia). lia.
Qed.

Lemma encq_div4 (a b : Z) : 0 <= a -> 0 < b -> encq (2 * a) b / 4 = a / b.
Proof.
  intros Ha Hb. unfold encq.
  pose proof (Z.mod_pos_bound (2 * a) b Hb).
  set (s := if (2 * a) mod b =? 0 then 0 else 1).
  assert (0 <= s <= 1) by (unfold s; destruct (_ =? 0); lia).
  change 4 with (2 * 2). rewrite <- Z.div_div by lia.
  replace ((2 * (2 * a / b) + s) / 2) with (2 * a / b)
    by (apply (Z.div_unique _ 2 _ s); lia).
  rewrite Z.div_div by lia. rewrite (Z.mul_comm b 2).
  apply Z.div_mul_cancel_l; lia.
Qed.

Lemma rne_scaled_range (a b e : Z) :
  0 <= a -> 0 < b -> e <= cexp a b e ->
  0 <= rne (encq (2 * a) (b * 2 ^ (cexp a b e - e))) <= 2 ^ 53.
Proof.
  intros Ha Hb He.
  assert (HB : 0 < b * 2 ^ (cexp a b e - e)).
  { apply Z.mul_pos_pos; [lia | apply pow2_pos; lia]. }
  pose proof (rne_bounds (encq (2 * a) (b * 2 ^ (cexp a b e - e)))) as R.
  rewrite encq_div4 in R by lia.
  pose proof (scaled_lt a b e Ha Hb He).
  assert (0 <= a / (b * 2 ^ (cexp a b e - e))) by (apply Z.div_pos; lia).
  lia.
Qed.

(** Above the smallest exponent the rounded mantissa is normal. *)
Lemma rne_scaled_normal (a b e : Z) :
  0 <= a -> 0 < b -> e <= cexp a b e -> -1074 < cexp a b e ->
  2 ^ 52 <= rne (encq (2 * a) (b * 2 ^ (cexp a b e - e))).
Proof.
  intros Ha Hb He Hn.
  assert (C : cexp a b e = Zdigits2 (a / b) + e - 53).
  { unfold cexp in *. unfold_fexp. lia. }
  set (n := cexp a b e - e). assert (Hn' : 0 <= n) by (unfold n; lia).
  assert (HB : 0 < b * 2 ^ n).
  { apply Z.mul_pos_pos; [lia | apply pow2_pos; lia]. }
  apply rne_ge_pow.
  assert (Q : 2 ^ 52 <= a / (b * 2 ^ n)).
  { rewrite <- Z.div_div by (try apply pow2_pos; lia).
    assert (Hm : 0 <= a / b) by (apply Z.div_pos; lia).
    assert (Hpos : 0 < a / b).
    { destruct (Z.eq_dec (a / b) 0) as [Z0|]; [|lia].
      rewrite Z0 in C. cbn [Zdigits2] in C. lia. }
    pose proof (Zdigits2_bounds (a / b) Hpos) as [L _].
    pose proof (div_pow2_ge (a / b) (Zdigits2 (a / b)) n L ltac:(unfold n; lia)).
    replace (Zdigits2 (a / b) - 1 - n) with 52 in * by (unfold n; lia).
    assumption. }
  rewrite <- (encq_div4 a (b * 2 ^ n)) in Q by lia.
  pose proof (Z.div_mod (encq (2 * a) (b * 2 ^ n)) 4 ltac:(lia)).
  pose proof (Z.mod_pos_bound (encq (2 * a) (b * 2 ^ n)) 4 ltac:(lia)).
  lia.
Qed.

(** The second normalisation of [binary_round_aux], on a mantissa that
    is at most [2^53]. *)
Lemma pack_spec (s : bool) (r E : Z) :
  0 <= r <= 2 ^ 53 -> -1074 <= E ->
  (let '(mrs, e') := shr_fexp prec emax r E loc_Exact in
   match shr_m mrs with
   | Z0 => S754_zero s
   | Zpos m => if e' <=? emax - prec then S754_finite s m e' else S754_infinity s
   | Zneg _ => S754_nan
   end) = pack s r E.
Proof.
  intros Hr HE. unfold pack.
  destruct (Z.eqb_spec r 0) as [->|Hnz].
  { unfold shr_fexp, shr. cbn [Zdigits2]. rewrite fexp64_eq.
    destruct (Z.max (0 + E - 53) (-1074) - E) eqn:D; try lia; reflexivity. }
  destruct (Z.eqb_spec r (2 ^ 53)) as [->|Hne].
  { unfold shr_fexp, shr. change (Zdigits2 (2 ^ 53)) with 54. rewrite fexp64_eq.
    replace (Z.max (54 + E - 53) (-1074) - E) with 1 by lia.
    cbn [iter_pos shr_record_of_loc]. cbn [shr_1 shr_m].
    change (emax - prec) with 971. reflexivity. }
  pose proof (Zdigits2_nonneg r).
  assert (Hd : Zdigits2 r <= 53).
  { destruct (Z.leb_spec (Zdigits2 r) 53); [assumption|].
    pose proof (Zdigits2_bounds r ltac:(lia)) as [Hl _].
    assert (2 ^ 53 <= 2 ^ (Zdigits2 r - 1)) by (apply Z.pow_le_mono_r; lia). lia. }
  unfold shr_fexp, shr. rewrite fexp64_eq.
  destruct (Z.max (Zdigits2 r + E - 53) (-1074) - E) eqn:D; try lia;
    cbn [shr_record_of_loc shr_m]; change (emax - prec) with 971;
    destruct r; try lia; reflexivity.
Qed.

Lemma new_location_code (b r : Z) :
  0 < b -> 0 <= r < b ->
  loc_code (new_location b r)
  = (if b <=? 2 * r then 2 else 0) + (if (r =? 0) || (2 * r =? b) then 0 else 1).
Proof.
  intros Hb Hr. unfold new_location, new_location_even, new_location_odd.
  destruct (Z.even b) eqn:Ev.
  - destruct (Z.eqb_spec r 0) as [->|Hr0]; [cbn; destruct (Z.leb_spec b 0); lia|].
    destruct (Z.compare_spec (2 * r) b), (Z.leb_spec b (2 * r)),
      (Z.eqb_spec (2 * r) b); cbn; lia.
  - assert (Hodd : 2 * r <> b).
    { intros <-. rewrite Z.even_mul in Ev. discriminate. }
    destruct (Z.eqb_spec r 0) as [->|Hr0]; [cbn; destruct (Z.leb_spec b 0); lia|].
    destruct (Z.compare_spec (2 * r + 1) b), (Z.leb_spec b (2 * r)),
      (Z.eqb_spec (2 * r) b); cbn; lia.
Qed.

(** The quotient and its location, as [SFdiv_core_binary] leaves them,
    are the encoding of [2 * a / b]. *)
Lemma encq_location (a b : Z) :
  0 <= a -> 0 < b ->
  4 * (a / b) + loc_code (new_location b (a mod b)) = encq (2 * a) b.
Proof.
  intros Ha Hb. pose proof (Z.mod_pos_bound a b Hb) as Hr.
  pose proof (Z.div_mod a b ltac:(lia)) as E.
  rewrite new_location_code by lia. unfold encq.
  set (q := a / b) in *. set (r := a mod b) in *.
  destruct (Z.leb_spec b (2 * r)).
  - replace (2 * a / b) with (2 * q + 1)
      by (apply (Z.div_unique _ b _ (2 * r - b)); lia).
    replace ((2 * a) mod b) with (2 * r - b)
      by (apply (Z.mod_unique _ b (2 * q + 1)); lia).
    destruct (Z.eqb_spec r 0), (Z.eqb_spec (2 * r) b), (Z.eqb_spec (2 * r - b) 0);
      cbn [orb]; lia.
  - replace (2 * a / b) with (2 * q)
      by (apply (Z.div_unique _ b _ (2 * r)); lia).
    replace ((2 * a) mod b) with (2 * r)
      by (apply (Z.mod_unique _ b (2 * q)); lia).
    destruct (Z.eqb_spec r 0), (Z.eqb_spec (2 * r) b), (Z.eqb_spec (2 * r) 0);
      cbn [orb]; lia.
Qed.

(** [binary_round_aux] on a quotient [a / b] with its location. *)
Theorem binary_round_aux_RN (s : bool) (a b e : Z) :
  0 <= a -> 0 < b -> e <= cexp a b e ->
  binary_round_aux prec emax s (a / b) e (new_location b (a mod b)) = RN s a b e.
Proof.
  intros Ha Hb He. unfold binary_round_aux, RN.
  assert (Hm : 0 <= a / b) by (apply Z.div_pos; lia).
  destruct (shr_fexp_code (a / b) e (new_location b (a mod b)) Hm He)
    as (mrs & -> & C & N).
  fold (cexp a b e) in *.
  rewrite round_nearest_even_rne, C, encq_location by assumption.
  rewrite encq_shift by lia.
  apply pack_spec; [apply rne_scaled_range; assumption | apply cexp_ge_emin].
Qed.

(** The exact case: an integer mantissa. *)
Corollary binary_round_aux_exact (s : bool) (m e : Z) :
  0 <= m -> e <= fexp64 (Zdigits2 m + e) ->
  binary_round_aux prec emax s m e loc_Exact = RN s m 1 e.
Proof.
  intros Hm He.
  pose proof (binary_round_aux_RN s m 1 e Hm ltac:(lia)) as H.
  unfold cexp in H. rewrite Z.div_1_r, Z.mod_1_r in H.
  apply H. exact He.
Qed.

(** *** The rounding does not depend on the representation *)

Lemma div_scaled_bounds (a b j : Z) :
  0 <= a -> 0 < b -> 0 <= j ->
  a / b * 2 ^ j <= a * 2 ^ j / b < (a / b + 1) * 2 ^ j.
Proof.
  intros Ha Hb Hj. pose proof (pow2_pos j Hj) as HP.
  pose proof (Z.div_mod a b ltac:(lia)) as E.
  pose proof (Z.mod_pos_bound a b Hb) as R.
  split.
  - apply Z.div_le_lower_bound; [lia|]. nia.
  - apply Z.div_lt_upper_bound; [lia|]. nia.
Qed.

Lemma cexp_rescale (a b e j : Z) :
  0 <= a -> 0 < b -> 0 <= j -> e <= cexp a b e ->
  cexp (a * 2 ^ j) b (e - j) = cexp a b e.
Proof.
  intros Ha Hb Hj He. unfold cexp in *.
  pose proof (div_scaled_bounds a b j Ha Hb Hj) as [Lo Hi].
  pose proof (pow2_pos j Hj) as HP.
  set (m := a / b) in *. set (X := a * 2 ^ j / b) in *.
  assert (Hm : 0 <= m) by (apply Z.div_pos; lia).
  destruct (Z.eq_dec m 0) as [Zm|Nm].
  - rewrite Zm in *. cbn [Zdigits2] in He |- *.
    rewrite fexp64_eq in He. rewrite 2!fexp64_eq.
    assert (HX : 0 <= X) by lia.
    assert (Zdigits2 X <= j).
    { destruct (Z.eq_dec X 0) as [->|]; [cbn; lia|].
      pose proof (Zdigits2_bounds X ltac:(lia)) as [L _].
      destruct (Z.leb_spec (Zdigits2 X) j); [assumption|].
      assert (2 ^ j <= 2 ^ (Zdigits2 X - 1)) by (apply Z.pow_le_mono_r; lia). lia. }
    lia.
  - pose proof (Zdigits2_bounds m ltac:(lia)) as [L U].
    pose proof (Zdigits2_nonneg m).
    assert (Hd : Zdigits2 m <> 0) by (destruct m; cbn; lia).
    rewrite (Zdigits2_unique X (Zdigits2 m + j)).
    + f_equal. lia.
    + replace (Zdigits2 m + j - 1) with (Zdigits2 m - 1 + j) by lia.
      rewrite !pow2_split by lia. nia.
    + nia.
Qed.

Lemma RN_rescale (s : bool) (a b e j : Z) :
  0 <= a -> 0 < b -> 0 <= j -> e <= cexp a b e ->
  RN s (a * 2 ^ j) b (e - j) = RN s a b e.
Proof.
  intros Ha Hb Hj He. unfold RN. rewrite cexp_rescale by assumption.
  f_equal. f_equal.
  replace (cexp a b e - (e - j)) with (cexp a b e - e + j) by lia.
  rewrite pow2_split by lia.
  replace (2 * (a * 2 ^ j)) with (2 * a * 2 ^ j) by lia.
  rewrite Z.mul_assoc. apply encq_cancel; [apply pow2_pos; lia|].
  apply Z.mul_pos_pos; [lia | apply pow2_pos; lia].
Qed.

(** *** The rounding is monotone *)

Lemma SFleb_finite_pos (m1 m2 : positive) (e1 e2 : Z) :
  SFleb (S754_finite false m1 e1) (S754_finite false m2 e2)
  = (e1 <? e2) || ((e1 =? e2) && (m1 <=? m2)%positive).
Proof.
  unfold SFleb, SFcompare. fold (Pos.compare m1 m2). unfold Pos.leb.
  destruct (Z.compare_spec e1 e2), (Z.ltb_spec e1 e2), (Z.eqb_spec e1 e2);
    try lia; cbn [orb andb]; reflexivity.
Qed.

Lemma pack_le (r1 E1 r2 E2 : Z) :
  0 <= r1 <= 2 ^ 53 -> 0 <= r2 <= 2 ^ 53 ->
  (E1 = E2 /\ r1 <= r2) \/ (E1 < E2 /\ 2 ^ 52 <= r2) ->
  SFleb (pack false r1 E1) (pack false r2 E2) = true.
Proof.
  intros H1 H2 H. unfold pack.
  assert (P52 : Z.pos (2 ^ 52) = 2 ^ 52) by reflexivity.
  destruct (Z.eqb_spec r1 0) as [Z1|N1].
  { destruct (r2 =? 0), (r2 =? 2 ^ 53), (E2 + 1 <=? 971), (E2 <=? 971); reflexivity. }
  destruct (Z.eqb_spec r2 0) as [Z2|N2]; [lia|].
  destruct (Z.eqb_spec r1 (2 ^ 53)) as [T1|T1], (Z.eqb_spec r2 (2 ^ 53)) as [T2|T2];
    repeat match goal with
      | |- context [?x <=? 971] => destruct (Z.leb_spec x 971)
      end; try reflexivity; try lia;
    rewrite SFleb_finite_pos;
    repeat match goal with
      | |- context [?x <? ?y] => destruct (Z.ltb_spec x y)
      | |- context [?x =? ?y] => destruct (Z.eqb_spec x y)
      end; cbn [orb andb]; try reflexivity; try lia;
    apply Pos.leb_le; lia.
Qed.

Lemma div_le_cross (a1 b1 a2 b2 : Z) :
  0 <= a1 -> 0 < b1 -> 0 < b2 -> a1 * b2 <= a2 * b1 -> a1 / b1 <= a2 / b2.
Proof.
  intros Ha Hb1 Hb2 H.
  pose proof (Z.div_mod a1 b1 ltac:(lia)) as E.
  pose proof (Z.mod_pos_bound a1 b1 Hb1) as R.
  apply Z.div_le_lower_bound; [lia|]. nia.
Qed.

Lemma RN_mono_same (a1 b1 a2 b2 e : Z) :
  0 <= a1 -> 0 < b1 -> 0 < b2 ->
  e <= cexp a1 b1 e -> e <= cexp a2 b2 e ->
  a1 * b2 <= a2 * b1 ->
  SFleb (RN false a1 b1 e) (RN false a2 b2 e) = true.
Proof.
  intros Ha1 Hb1 Hb2 He1 He2 H.
  assert (Ha2 : 0 <= a2) by nia.
  pose proof (div_le_cross a1 b1 a2 b2 Ha1 Hb1 Hb2 H) as Hm.
  assert (Hm1 : 0 <= a1 / b1) by (apply Z.div_pos; lia).
  pose proof (Zdigits2_mono (a1 / b1) (a2 / b2) ltac:(lia)) as Hd.
  assert (HE : cexp a1 b1 e <= cexp a2 b2 e).
  { unfold cexp. rewrite !fexp64_eq. lia. }
  unfold RN. apply pack_le; try (apply rne_scaled_range; assumption).
  destruct (Z.eq_dec (cexp a1 b1 e) (cexp a2 b2 e)) as [Eq|Ne].
  - left. split; [exact Eq|]. rewrite <- Eq. apply rne_mono.
    pose proof (pow2_pos (cexp a1 b1 e - e) ltac:(lia)) as HP.
    apply encq_mono; try nia.
  - right. split; [lia|].
    pose proof (cexp_ge_emin a1 b1 e). apply rne_scaled_normal; try assumption; lia.
Qed.

(** *** Rounding as a function of the value [(a / b) * 2^e] alone *)

Lemma refine_fine (a b e : Z) :
  e - refine e <= cexp (a * 2 ^ refine e) b (e - refine e).
Proof.
  pose proof (cexp_ge_emin (a * 2 ^ refine e) b (e - refine e)).
  unfold refine in *. lia.
Qed.

Lemma RN_RNf (s : bool) (a b e : Z) :
  0 <= a -> 0 < b -> e <= cexp a b e -> RN s a b e = RNf s a b e.
Proof.
  intros Ha Hb He. unfold RNf. symmetry.
  apply RN_rescale; try assumption. unfold refine. lia.
Qed.

(** Rescaling the representation does not change the result. *)
Lemma RNf_rescale (s : bool) (a b e j : Z) :
  0 <= a -> 0 < b -> 0 <= j -> RNf s (a * 2 ^ j) b (e - j) = RNf s a b e.
Proof.
  intros Ha Hb Hj. unfold RNf.
  set (J1 := refine (e - j)). set (J2 := refine e).
  assert (H1 : 0 <= J1) by (unfold J1, refine; lia).
  assert (H2 : 0 <= J2) by (unfold J2, refine; lia).
  assert (Hd : 0 <= j + J1 - J2) by (unfold J1, J2, refine; lia).
  pose proof (pow2_pos J2 H2).
  rewrite <- (RN_rescale s (a * 2 ^ J2) b (e - J2) (j + J1 - J2));
    [| nia | lia | exact Hd | apply refine_fine].
  f_equal; [|lia].
  rewrite <- !Z.mul_assoc, <- !pow2_split by lia. f_equal. f_equal. lia.
Qed.

Lemma dle_scale (A e1 B e2 k : Z) :
  k <= e1 -> k <= e2 ->
  dle A e1 B e2 <-> A * 2 ^ (e1 - k) <= B * 2 ^ (e2 - k).
Proof.
  intros H1 H2. unfold dle. set (m := Z.min e1 e2).
  assert (Hm : k <= m) by (unfold m; lia).
  replace (e1 - k) with (e1 - m + (m - k)) by lia.
  replace (e2 - k) with (e2 - m + (m - k)) by lia.
  rewrite !pow2_split by (unfold m; lia).
  pose proof (pow2_pos (m - k) ltac:(lia)) as HP.
  rewrite !Z.mul_assoc. split; intros H; [nia|].
  apply Z.mul_le_mono_pos_r in H; assumption.
Qed.

Theorem RNf_mono (a1 b1 e1 a2 b2 e2 : Z) :
  0 <= a1 -> 0 < b1 -> 0 < b2 ->
  dle (a1 * b2) e1 (a2 * b1) e2 ->
  SFleb (RNf false a1 b1 e1) (RNf false a2 b2 e2) = true.
Proof.
  intros Ha1 Hb1 Hb2 H.
  set (k := Z.min (e1 - refine e1) (e2 - refine e2)).
  assert (K1 : k <= e1 - refine e1) by (unfold k; lia).
  assert (K2 : k <= e2 - refine e2) by (unfold k; lia).
  assert (R1 : 0 <= refine e1) by (unfold refine; lia).
  assert (R2 : 0 <= refine e2) by (unfold refine; lia).
  apply (dle_scale _ _ _ _ k) in H; [|lia|lia].
  pose proof (pow2_pos (e1 - k) ltac:(lia)) as P1.
  pose proof (pow2_pos (e2 - k) ltac:(lia)) as P2.
  assert (Ha2 : 0 <= a2) by nia.
  unfold RNf.
  pose proof (pow2_pos (refine e1) R1) as Q1.
  pose proof (pow2_pos (refine e2) R2) as Q2.
  rewrite <- (RN_rescale false (a1 * 2 ^ refine e1) b1 (e1 - refine e1)
                (e1 - refine e1 - k)) by (try apply refine_fine; nia || lia).
  rewrite <- (RN_rescale false (a2 * 2 ^ refine e2) b2 (e2 - refine e2)
                (e2 - refine e2 - k)) by (try apply refine_fine; nia || lia).
  replace (e1 - refine e1 - (e1 - refine e1 - k)) with k by lia.
  replace (e2 - refine e2 - (e2 - refine e2 - k)) with k by lia.
  rewrite <- !Z.mul_assoc, <- !pow2_split by lia.
  replace (refine e1 + (e1 - refine e1 - k)) with (e1 - k) by lia.
  replace (refine e2 + (e2 - refine e2 - k)) with (e2 - k) by lia.
  assert (F1 : k <= cexp (a1 * 2 ^ (e1 - k)) b1 k).
  { pose proof (cexp_ge_emin (a1 * 2 ^ (e1 - k)) b1 k). unfold refine in *. lia. }
  assert (F2 : k <= cexp (a2 * 2 ^ (e2 - k)) b2 k).
  { pose proof (cexp_ge_emin (a2 * 2 ^ (e2 - k)) b2 k). unfold refine in *. lia. }
  apply RN_mono_same; try assumption; nia.
Qed.

(** *** The order of [SpecFloat] as a lexicographic order *)

Lemma SFleb_SFle (x y : spec_float) : SFleb x y = true <-> SFle x y.
Proof.
  unfold SFle, SFleb.
  destruct x as [sx|sx| |sx mx ex], y as [sy|sy| |sy my ey];
    try destruct sx; try destruct sy; cbn [SFcompare SFkey key_le];
    try (split; [intros _; lia | reflexivity]);
    try (split; [discriminate | lia]);
    try (split; [discriminate | tauto]);
    fold (Pos.compare mx my);
    destruct (Z.compare_spec ex ey); try (split; [intros _; lia | reflexivity]);
    try (split; [discriminate | lia]);
    destruct (Pos.compare_spec mx my); cbn [CompOpp];
    try (split; [intros _; lia | reflexivity]);
    try (split; [discriminate | lia]).
Qed.

Lemma SFle_trans (x y z : spec_float) : SFle x y -> SFle y z -> SFle x z.
Proof.
  unfold SFle.
  destruct (SFkey x) as [[[c1 u1] v1]|], (SFkey y) as [[[c2 u2] v2]|],
    (SFkey z) as [[[c3 u3] v3]|]; cbn [key_le]; try tauto. lia.
Qed.

Lemma SFle_total (x y : spec_float) :
  x <> S754_nan -> y <> S754_nan -> SFle x y \/ SFle y x.
Proof.
  intros Hx Hy. unfold SFle.
  destruct (SFkey x) as [[[c1 u1] v1]|] eqn:Kx;
    [|destruct x as [|[]| |[]]; try discriminate; congruence].
  destruct (SFkey y) as [[[c2 u2] v2]|] eqn:Ky;
    [|destruct y as [|[]| |[]]; try discriminate; congruence].
  cbn [key_le]. lia.
Qed.

Lemma SFle_refl (x : spec_float) : x <> S754_nan -> SFle x x.
Proof. intros H. destruct (SFle_total x x H H); assumption. Qed.

Lemma SFle_not_nan (x y : spec_float) : SFle x y -> x <> S754_nan /\ y <> S754_nan.
Proof.
  unfold SFle. intros H. split; intros ->; cbn [SFkey] in H; [exact H|].
  destruct (SFkey x); exact H.
Qed.

Lemma SFkey_opp (x : spec_float) :
  SFkey (SFopp x)
  = option_map (fun '(c, u, v) => (- c, - u, - v)) (SFkey x).
Proof.
  destruct x as [[]|[]| |[] m e]; cbn [SFopp SFkey option_map negb];
    try reflexivity; repeat f_equal; lia.
Qed.

Lemma SFle_opp (x y : spec_float) : SFle (SFopp x) (SFopp y) <-> SFle y x.
Proof.
  unfold SFle. rewrite !SFkey_opp.
  destruct (SFkey x) as [[[c1 u1] v1]|], (SFkey y) as [[[c2 u2] v2]|];
    cbn [option_map key_le]; try tauto. lia.
Qed.

Lemma SFopp_involutive (x : spec_float) : SFopp (SFopp x) = x.
Proof. destruct x as [[]|[]| |[] m e]; reflexivity. Qed.

Lemma SFle_sign (x : spec_float) :
  x <> S754_nan -> SFle SFzero x \/ SFle x SFzero.
Proof. intros H. apply SFle_total; [discriminate | exact H]. Qed.

(** A function that commutes with negation (up to the sign of zero),
    keeps non-negative numbers non-negative and is monotone on them, is
    monotone. *)
Lemma odd_monotone (F : spec_float -> spec_float) (D : spec_float -> Prop) :
  (forall x, D x -> D (SFopp x)) ->
  (forall x, D x -> SFeqv (F (SFopp x)) (SFopp (F x))) ->
  (forall x, D x -> SFle SFzero x -> SFle SFzero (F x)) ->
  (forall x y, D x -> D y -> SFle SFzero x -> SFle x y -> SFle (F x) (F y)) ->
  forall x y, D x -> D y -> SFle x y -> SFle (F x) (F y).
Proof.
  intros Dopp Odd Pos Mono x y Dx Dy Hxy.
  destruct (SFle_not_nan _ _ Hxy) as [Nx Ny].
  destruct (SFle_sign x Nx) as [Px|Mx]; [apply Mono; assumption|].
  assert (Px' : SFle SFzero (SFopp x)).
  { apply SFle_opp. rewrite SFopp_involutive. exact Mx. }
  assert (Fx : SFle (F x) SFzero).
  { apply SFle_opp. apply (SFle_trans _ (F (SFopp x))).
    - apply (Pos _ (Dopp _ Dx) Px').
    - apply (Odd x Dx). }
  destruct (SFle_sign y Ny) as [Py|My].
  - apply (SFle_trans _ SFzero); [exact Fx | apply Pos; assumption].
  - assert (Py' : SFle SFzero (SFopp y)).
    { apply SFle_opp. rewrite SFopp_involutive. exact My. }
    assert (H : SFle (F (SFopp y)) (F (SFopp x))).
    { apply Mono; try apply Dopp; try assumption. apply SFle_opp. exact Hxy. }
    apply SFle_opp.
    apply (SFle_trans _ (F (SFopp y))); [apply (Odd y Dy)|].
    apply (SFle_trans _ (F (SFopp x))); [exact H | apply (Odd x Dx)].
Qed.

(** *** Valid binary64 numbers *)

Lemma valid_finite (s : bool) (m : positive) (e : Z) :
  valid_binary (S754_finite s m e) = true <->
  Z.max (Zdigits2 (Z.pos m) + e - 53) (-1074) = e /\ e <= 971.
Proof.
  cbn [valid_binary]. unfold bounded, canonical_mantissa.
  rewrite andb_true_iff, Z.eqb_eq, Z.leb_le. rewrite fexp64_eq.
  change (emax - prec) with 971. reflexivity.
Qed.

Lemma valid_digits (s : bool) (m : positive) (e : Z) :
  valid_binary (S754_finite s m e) = true ->
  Z.pos m < 2 ^ 53 /\ -1074 <= e <= 971
  /\ (e = -1074 \/ 2 ^ 52 <= Z.pos m).
Proof.
  intros V. apply valid_finite in V. destruct V as [C B].
  pose proof (Zdigits2_bounds (Z.pos m) ltac:(lia)) as [L U].
  assert (D : Zdigits2 (Z.pos m) <= 53) by lia.
  assert (2 ^ Zdigits2 (Z.pos m) <= 2 ^ 53)
    by (apply Z.pow_le_mono_r; lia).
  split; [lia|]. split; [lia|].
  destruct (Z.eq_dec e (-1074)); [now left | right].
  replace (Zdigits2 (Z.pos m)) with 53 in L by lia. exact L.
Qed.

(** A valid number is the rounding of its own value. *)
Lemma RN_canonical (s : bool) (m : positive) (e : Z) :
  valid_binary (S754_finite s m e) = true ->
  RN s (Z.pos m) 1 e = S754_finite s m e.
Proof.
  intros V. pose proof (valid_digits s m e V) as (U & B & _).
  apply valid_finite in V. destruct V as [C _].
  unfold RN, cexp. rewrite Z.div_1_r, fexp64_eq, C.
  replace (e - e) with 0 by lia. change (1 * 2 ^ 0) with 1.
  assert (E : encq (2 * Z.pos m) 1 = 4 * Z.pos m).
  { unfold encq. rewrite Z.div_1_r, Z.mod_1_r. cbn [Z.eqb]. lia. }
  rewrite E, rne_exact. unfold pack.
  destruct (Z.eqb_spec (Z.pos m) 0); [lia|].
  destruct (Z.eqb_spec (Z.pos m) (2 ^ 53)); [lia|].
  destruct (Z.leb_spec e 971); [reflexivity | lia].
Qed.

Lemma canonical_fine (s : bool) (m : positive) (e : Z) :
  valid_binary (S754_finite s m e) = true -> e <= cexp (Z.pos m) 1 e.
Proof.
  intros V. apply valid_finite in V. destruct V as [C _].
  unfold cexp. rewrite Z.div_1_r, fexp64_eq. lia.
Qed.

Lemma RNf_canonical (s : bool) (m : positive) (e : Z) :
  valid_binary (S754_finite s m e) = true ->
  RNf s (Z.pos m) 1 e = S754_finite s m e.
Proof.
  intros V. rewrite <- RN_RNf; [apply RN_canonical; exact V | lia | lia |].
  apply (canonical_fine s); exact V.
Qed.

Lemma pack_valid (s : bool) (r E : Z) :
  0 <= r <= 2 ^ 53 -> -1074 <= E -> (-1074 < E -> 2 ^ 52 <= r) ->
  valid_binary (pack s r E) = true.
Proof.
  intros Hr HE Hn. unfold pack.
  destruct (Z.eqb_spec r 0); [reflexivity|].
  destruct (Z.eqb_spec r (2 ^ 53)).
  - destruct (Z.leb_spec (E + 1) 971); [|reflexivity].
    apply valid_finite. change (Zdigits2 (Z.pos (2 ^ 52))) with 53. lia.
  - destruct (Z.leb_spec E 971); [|reflexivity].
    apply valid_finite. rewrite Z2Pos.id by lia.
    pose proof (Zdigits2_bounds r ltac:(lia)) as [L U].
    pose proof (Zdigits2_nonneg r).
    assert (D : Zdigits2 r <= 53).
    { destruct (Z.leb_spec (Zdigits2 r) 53); [assumption|].
      assert (2 ^ 53 <= 2 ^ (Zdigits2 r - 1)) by (apply Z.pow_le_mono_r; lia). lia. }
    destruct (Z.eq_dec E (-1074)); [lia|].
    assert (Zdigits2 r = 53); [|lia].
    apply Zdigits2_unique; lia.
Qed.

Lemma RN_valid (s : bool) (a b e : Z) :
  0 <= a -> 0 < b -> e <= cexp a b e ->
  valid_binary (RN s a b e) = true.
Proof.
  intros Ha Hb He. unfold RN. apply pack_valid.
  - apply rne_scaled_range; assumption.
  - apply cexp_ge_emin.
  - apply rne_scaled_normal; assumption.
Qed.

Lemma RNf_valid (s : bool) (a b e : Z) :
  0 <= a -> 0 < b -> valid_binary (RNf s a b e) = true.
Proof.
  intros Ha Hb. unfold RNf. apply RN_valid; [|assumption|apply refine_fine].
  apply Z.mul_nonneg_nonneg; [lia|]. apply Z.lt_le_incl, pow2_pos. unfold refine. lia.
Qed.

(** *** Signs *)

Lemma pack_opp (s : bool) (r E : Z) : SFopp (pack s r E) = pack (negb s) r E.
Proof.
  unfold pack.
  destruct (r =? 0), (r =? 2 ^ 53), (E + 1 <=? 971), (E <=? 971); reflexivity.
Qed.

Lemma RNf_opp (s : bool) (a b e : Z) : SFopp (RNf s a b e) = RNf (negb s) a b e.
Proof. unfold RNf, RN. apply pack_opp. Qed.

Lemma pack_nonneg (r E : Z) : SFle SFzero (pack false r E).
Proof.
  unfold pack.
  destruct (r =? 0), (r =? 2 ^ 53), (E + 1 <=? 971), (E <=? 971);
    unfold SFle; cbn; lia.
Qed.

Lemma RNf_nonneg (a b e : Z) : SFle SFzero (RNf false a b e).
Proof. unfold RNf, RN. apply pack_nonneg. Qed.

Lemma RNf_not_nan (s : bool) (a b e : Z) : RNf s a b e <> S754_nan.
Proof.
  unfold RNf, RN. set (r := rne _). set (E := cexp _ _ _). unfold pack.
  destruct (r =? 0), (r =? 2 ^ 53), (E + 1 <=? 971), (E <=? 971); discriminate.
Qed.

(** *** Multiplication and division round the exact result *)

Lemma Zdigits2_mul_ge (m n : Z) :
  0 < m -> 0 < n -> Zdigits2 m + Zdigits2 n - 1 <= Zdigits2 (m * n).
Proof.
  intros Hm Hn.
  pose proof (Zdigits2_bounds m Hm) as [Lm _].
  pose proof (Zdigits2_bounds n Hn) as [Ln _].
  pose proof (Zdigits2_bounds (m * n) ltac:(nia)) as [_ U].
  assert (Dm : 1 <= Zdigits2 m) by (destruct m; cbn; lia).
  assert (Dn : 1 <= Zdigits2 n) by (destruct n; cbn; lia).
  pose proof (Zdigits2_nonneg (m * n)).
  assert (P : 2 ^ (Zdigits2 m - 1 + (Zdigits2 n - 1)) <= m * n).
  { rewrite pow2_split by lia.
    pose proof (pow2_pos (Zdigits2 m - 1) ltac:(lia)).
    pose proof (pow2_pos (Zdigits2 n - 1) ltac:(lia)). nia. }
  assert (Zdigits2 m - 1 + (Zdigits2 n - 1) < Zdigits2 (m * n)); [|lia].
  apply (Z.pow_lt_mono_r_iff 2); lia.
Qed.

Theorem SFmul_finite (sx sy : bool) (mx my : positive) (ex ey : Z) :
  valid_binary (S754_finite sx mx ex) = true ->
  valid_binary (S754_finite sy my ey) = true ->
  SFmul prec emax (S754_finite sx mx ex) (S754_finite sy my ey)
  = RNf (xorb sx sy) (Z.pos mx * Z.pos my) 1 (ex + ey).
Proof.
  intros Vx Vy. cbn [SFmul]. rewrite Pos2Z.inj_mul.
  assert (F : ex + ey <= fexp64 (Zdigits2 (Z.pos mx * Z.pos my) + (ex + ey))).
  { pose proof (Zdigits2_mul_ge (Z.pos mx) (Z.pos my) ltac:(lia) ltac:(lia)).
    apply valid_finite in Vx, Vy. rewrite fexp64_eq.
    assert (1 <= Zdigits2 (Z.pos mx)) by (cbn; lia).
    assert (1 <= Zdigits2 (Z.pos my)) by (cbn; lia).
    lia. }
  rewrite binary_round_aux_exact by (try exact F; lia).
  apply RN_RNf; [lia | lia |]. unfold cexp. rewrite Z.div_1_r. exact F.
Qed.

Lemma div_core_fine (m1 m2 e1 e2 : Z) :
  0 < m1 -> 0 < m2 ->
  let e' := Z.min (fexp64 (Zdigits2 m1 + e1 - (Zdigits2 m2 + e2))) (e1 - e2) in
  let s := e1 - e2 - e' in
  0 <= s /\ e' <= cexp (m1 * 2 ^ s) m2 e'.
Proof.
  intros H1 H2 e' s. assert (Hs : 0 <= s) by (unfold s, e'; lia).
  split; [exact Hs|].
  pose proof (pow2_pos s Hs) as HP.
  pose proof (Zdigits2_bounds m1 H1) as [L1 U1].
  pose proof (Zdigits2_bounds m2 H2) as [L2 U2].
  assert (D1 : 1 <= Zdigits2 m1) by (destruct m1; cbn; lia).
  assert (D2 : 1 <= Zdigits2 m2) by (destruct m2; cbn; lia).
  set (X := m1 * 2 ^ s / m2).
  pose proof (Z.div_mod (m1 * 2 ^ s) m2 ltac:(lia)) as E.
  pose proof (Z.mod_pos_bound (m1 * 2 ^ s) m2 H2) as R. fold X in E.
  assert (HX : 0 <= X) by (apply Z.div_pos; nia).
  assert (Big : 2 ^ (Zdigits2 m1 - 1 + s) <= m1 * 2 ^ s).
  { rewrite pow2_split by lia. nia. }
  unfold cexp. fold X. rewrite fexp64_eq.
  assert (G : Zdigits2 m1 + s - Zdigits2 m2 <= Zdigits2 X).
  { pose proof (Zdigits2_upper X HX) as UX. pose proof (Zdigits2_nonneg X) as NX.
    destruct (Z.leb_spec (Zdigits2 m1 + s - Zdigits2 m2) (Zdigits2 X)); [assumption|].
    exfalso.
    assert (A : (X + 1) * 2 ^ Zdigits2 m2 <= 2 ^ (Zdigits2 m1 - 1 + s)).
    { assert (X + 1 <= 2 ^ Zdigits2 X) by lia.
      assert (T : 2 ^ (Zdigits2 X + Zdigits2 m2) <= 2 ^ (Zdigits2 m1 - 1 + s))
        by (apply Z.pow_le_mono_r; lia).
      rewrite (pow2_split (Zdigits2 X)) in T by lia.
      pose proof (pow2_pos (Zdigits2 m2) ltac:(lia)).
      set (P := 2 ^ (Zdigits2 m1 - 1 + s)) in *. nia. }
    assert (m2 * (X + 1) < 2 ^ Zdigits2 m2 * (X + 1))
      by (apply Z.mul_lt_mono_pos_r; lia).
    lia. }
  unfold s, e' in *. rewrite ?fexp64_eq in *. lia.
Qed.

Theorem SFdiv_finite (sx sy : bool) (mx my : positive) (ex ey : Z) :
  SFdiv prec emax (S754_finite sx mx ex) (S754_finite sy my ey)
  = RNf (xorb sx sy) (Z.pos mx) (Z.pos my) (ex - ey).
Proof.
  cbn [SFdiv]. unfold SFdiv_core_binary.
  pose proof (div_core_fine (Z.pos mx) (Z.pos my) ex ey ltac:(lia) ltac:(lia)) as F.
  cbv zeta in F.
  set (e' := Z.min (fexp64 (Zdigits2 (Z.pos mx) + ex - (Zdigits2 (Z.pos my) + ey)))
                   (ex - ey)) in *.
  set (s := ex - ey - e') in *. destruct F as [Hs F].
  assert (M : match s with
              | Z.pos _ => Z.shiftl (Z.pos mx) s
              | 0 => Z.pos mx
              | Z.neg _ => 0
              end = Z.pos mx * 2 ^ s).
  { destruct s eqn:Es; [cbn; lia | rewrite Z.shiftl_mul_pow2 by lia; reflexivity | lia]. }
  rewrite M.
  pose proof (pow2_pos s Hs) as HP.
  unfold Z.div, Z.modulo in *.
  destruct (Z.div_eucl (Z.pos mx * 2 ^ s) (Z.pos my)) as [q r] eqn:Eq.
  assert (Q : q = Z.pos mx * 2 ^ s / Z.pos my) by (unfold Z.div; now rewrite Eq).
  assert (Rm : r = (Z.pos mx * 2 ^ s) mod Z.pos my) by (unfold Z.modulo; now rewrite Eq).
  fold (Z.div (Z.pos mx * 2 ^ s) (Z.pos my)) in *.
  rewrite Q, Rm.
  rewrite binary_round_aux_RN; [| nia | lia | exact F].
  rewrite RN_RNf; [| nia | lia | exact F].
  replace e' with (ex - ey - s) by (unfold s; lia).
  apply RNf_rescale; lia.
Qed.

Lemma round_ratio_RNf (s : bool) (p q : positive) :
  JS.round_ratio s p q = RNf s (Z.pos p) (Z.pos q) 0.
Proof.
  pose proof (SFdiv_finite s false p q 0 0) as H.
  cbn [SFdiv] in H. rewrite xorb_false_r in H. exact H.
Qed.

(** The closed form against the kernel's floats: a third, a negative
    tenth, the smallest subnormal, two ties at the bottom of the range,
    and the overflow threshold. *)
Example RNf_third : RNf false 1 3 0 = Prim2SF (1 / 3)%float.
Proof. vm_compute. reflexivity. Qed.

Example RNf_neg_tenth : RNf true 1 10 0 = Prim2SF (- (1 / 10))%float.
Proof. vm_compute. reflexivity. Qed.

Example RNf_smallest : RNf false 1 1 (-1074) = Prim2SF 0x1p-1074%float.
Proof. vm_compute. reflexivity. Qed.

Example RNf_ties :
  RNf false 1 1 (-1075) = S754_zero false
  /\ RNf false 3 1 (-1075) = S754_finite false 2 (-1074).
Proof. split; vm_compute; reflexivity. Qed.

Example RNf_overflow :
  RNf false (2 ^ 54 - 2) 1 970 = S754_finite false (2 ^ 53 - 1) 971
  /\ RNf false (2 ^ 54 - 1) 1 970 = S754_infinity false.
Proof. split; vm_compute; reflexivity. Qed.

(** *** Finite numbers as sign, mantissa and exponent *)

Lemma SFmant_nonneg (x : spec_float) : 0 <= SFmant x.
Proof. destruct x; cbn; lia. Qed.

Lemma RNf_zero (s : bool) (b e : Z) : RNf s 0 b e = S754_zero s.
Proof.
  unfold RNf, RN. rewrite Z.mul_0_l. change (2 * 0) with 0.
  unfold encq. rewrite Zdiv_0_l, Zmod_0_l. reflexivity.
Qed.

Lemma finite_RNf (x : spec_float) :
  valid_binary x = true -> SFfinite x ->
  x = RNf (SFsign x) (SFmant x) 1 (SFexp x).
Proof.
  intros V F. destruct x as [s|s| |s m e]; try contradiction; cbn [SFsign SFmant SFexp].
  - now rewrite RNf_zero.
  - now rewrite RNf_canonical.
Qed.

Lemma SFmul_RNf (x y : spec_float) :
  valid_binary x = true -> valid_binary y = true -> SFfinite x -> SFfinite y ->
  SFmul prec emax x y
  = RNf (xorb (SFsign x) (SFsign y)) (SFmant x * SFmant y) 1 (SFexp x + SFexp y).
Proof.
  intros Vx Vy Fx Fy.
  destruct x as [sx|sx| |sx mx ex], y as [sy|sy| |sy my ey]; try contradiction;
    cbn [SFsign SFmant SFexp]; rewrite ?Z.mul_0_l, ?Z.mul_0_r, ?RNf_zero;
    try reflexivity.
  apply SFmul_finite; assumption.
Qed.

Lemma SFdiv_RNf (x y : spec_float) :
  SFfinite x -> 0 < SFmant y ->
  SFdiv prec emax x y
  = RNf (xorb (SFsign x) (SFsign y)) (SFmant x) (SFmant y) (SFexp x - SFexp y).
Proof.
  intros Fx Py.
  destruct x as [sx|sx| |sx mx ex], y as [sy|sy| |sy my ey]; try contradiction;
    cbn [SFmant] in Py; try lia; cbn [SFsign SFmant SFexp].
  - now rewrite RNf_zero.
  - apply SFdiv_finite.
Qed.

(** *** Comparing scaled integers *)

Lemma dle_refl (A e : Z) : dle A e A e.
Proof. unfold dle. lia. Qed.

Lemma dle_total (A e1 B e2 : Z) : dle A e1 B e2 \/ dle B e2 A e1.
Proof. unfold dle. rewrite (Z.min_comm e2 e1). lia. Qed.

Lemma dle_zero_l (B e1 e2 : Z) : 0 <= B -> dle 0 e1 B e2.
Proof.
  intros HB. unfold dle.
  pose proof (pow2_pos (e2 - Z.min e1 e2) ltac:(lia)). nia.
Qed.

Lemma dle_mul_r (A e1 B e2 C f : Z) :
  0 <= C -> dle A e1 B e2 -> dle (A * C) (e1 + f) (B * C) (e2 + f).
Proof.
  intros HC H. apply (dle_scale _ _ _ _ (Z.min e1 e2 + f)); [lia | lia |].
  unfold dle in H.
  replace (e1 + f - (Z.min e1 e2 + f)) with (e1 - Z.min e1 e2) by lia.
  replace (e2 + f - (Z.min e1 e2 + f)) with (e2 - Z.min e1 e2) by lia.
  nia.
Qed.

Lemma dle_mul_l (A e1 B e2 C f : Z) :
  0 <= C -> dle A e1 B e2 -> dle (C * A) (f + e1) (C * B) (f + e2).
Proof.
  intros HC H. rewrite (Z.mul_comm C A), (Z.mul_comm C B), !(Z.add_comm f).
  apply dle_mul_r; assumption.
Qed.

(** Dividing by a larger number gives less: [X / B <= X / A]. *)
Lemma dle_inverse (A e1 B e2 X g : Z) :
  0 <= X -> dle A e1 B e2 -> dle (X * A) (g - e2) (X * B) (g - e1).
Proof.
  intros HX H. set (k0 := Z.min e1 e2).
  apply (dle_scale _ _ _ _ (g - e1 - e2 + k0)); [unfold k0; lia | unfold k0; lia |].
  unfold dle in H. fold k0 in H.
  replace (g - e2 - (g - e1 - e2 + k0)) with (e1 - k0) by lia.
  replace (g - e1 - (g - e1 - e2 + k0)) with (e2 - k0) by lia.
  nia.
Qed.

(** *** The order on valid numbers is the order of their values *)

Lemma SFle_zero_sign (s : bool) (z : spec_float) :
  (SFle (S754_zero s) z <-> SFle SFzero z) /\ (SFle z (S754_zero s) <-> SFle z SFzero).
Proof. unfold SFle. cbn [SFkey SFzero]. tauto. Qed.

Theorem RNf_mono_sign (s1 s2 : bool) (a1 b1 e1 a2 b2 e2 : Z) :
  0 <= a1 -> 0 < b1 -> 0 < b2 ->
  a1 = 0 \/ s1 = false -> a2 = 0 \/ s2 = false ->
  dle (a1 * b2) e1 (a2 * b1) e2 ->
  SFle (RNf s1 a1 b1 e1) (RNf s2 a2 b2 e2).
Proof.
  intros Ha1 Hb1 Hb2 S1 S2 H.
  pose proof (RNf_mono a1 b1 e1 a2 b2 e2 Ha1 Hb1 Hb2 H) as M.
  apply SFleb_SFle in M.
  assert (E1 : SFle (RNf s1 a1 b1 e1) (RNf false a1 b1 e1)).
  { destruct S1 as [->| ->]; [|apply SFle_refl, RNf_not_nan].
    rewrite !RNf_zero. unfold SFle. cbn. lia. }
  assert (E2 : SFle (RNf false a2 b2 e2) (RNf s2 a2 b2 e2)).
  { destruct S2 as [->| ->]; [|apply SFle_refl, RNf_not_nan].
    rewrite !RNf_zero. unfold SFle. cbn. lia. }
  apply (SFle_trans _ _ _ E1). apply (SFle_trans _ _ _ M). exact E2.
Qed.

Lemma nonneg_sign (x : spec_float) :
  SFfinite x -> SFle SFzero x -> SFmant x = 0 \/ SFsign x = false.
Proof.
  destruct x as [s|s| |[] m e]; cbn; try tauto; auto.
  unfold SFle. cbn. lia.
Qed.

Lemma SFle_dle (x y : spec_float) :
  valid_binary x = true -> valid_binary y = true ->
  SFfinite x -> SFfinite y -> SFle SFzero x -> SFle x y ->
  dle (SFmant x) (SFexp x) (SFmant y) (SFexp y).
Proof.
  intros Vx Vy Fx Fy Px Hxy.
  assert (Py : SFle SFzero y) by (eapply SFle_trans; eassumption).
  destruct (dle_total (SFmant x) (SFexp x) (SFmant y) (SFexp y)) as [H|H];
    [exact H|].
  assert (R : SFle y x).
  { rewrite (finite_RNf x Vx Fx), (finite_RNf y Vy Fy).
    apply RNf_mono_sign; try lia; try apply SFmant_nonneg;
      try (apply nonneg_sign; assumption).
    now rewrite !Z.mul_1_r. }
  assert (K : SFkey x = SFkey y).
  { unfold SFle in Hxy, R.
    destruct (SFkey x) as [[[c1 u1] v1]|], (SFkey y) as [[[c2 u2] v2]|];
      cbn [key_le] in *; try tauto. repeat f_equal; lia. }
  destruct x as [sx|sx| |[] mx ex], y as [sy|sy| |[] my ey]; try contradiction;
    cbn [SFkey] in K; try discriminate; cbn [SFmant SFexp];
    try apply dle_refl; try (apply dle_zero_l; lia).
  - exfalso. unfold SFle in Px. cbn in Px. lia.
  - injection K as -> ->. apply dle_refl.
Qed.

(** *** Multiplication and division are monotone *)

Lemma valid_opp (x : spec_float) : valid_binary (SFopp x) = valid_binary x.
Proof. destruct x; reflexivity. Qed.

Lemma SFfinite_opp (x : spec_float) : SFfinite (SFopp x) <-> SFfinite x.
Proof. destruct x; cbn; tauto. Qed.

Lemma SFsign_opp (x : spec_float) :
  x <> S754_nan -> SFsign (SFopp x) = negb (SFsign x).
Proof. destruct x; cbn; congruence. Qed.

Lemma SFmant_opp (x : spec_float) : SFmant (SFopp x) = SFmant x.
Proof. destruct x; reflexivity. Qed.

Lemma SFexp_opp (x : spec_float) : SFexp (SFopp x) = SFexp x.
Proof. destruct x; reflexivity. Qed.

Lemma SFfinite_not_nan (x : spec_float) : SFfinite x -> x <> S754_nan.
Proof. destruct x; cbn; try tauto; discriminate. Qed.

Lemma SFeqv_refl (x : spec_float) : x <> S754_nan -> SFeqv x x.
Proof. intros H. split; apply SFle_refl; exact H. Qed.

Lemma SFle_infinity (x : spec_float) : x <> S754_nan -> SFle x (S754_infinity false).
Proof. destruct x as [s|[]| |[] m e]; unfold SFle; cbn; try lia; congruence. Qed.

Lemma SFzero_RNf : SFzero = RNf false 0 1 0.
Proof. now rewrite RNf_zero. Qed.

Lemma xor_sign_nonneg (a1 a2 : Z) (s1 s2 : bool) :
  a1 = 0 \/ s1 = false -> a2 = 0 \/ s2 = false ->
  a1 * a2 = 0 \/ xorb s1 s2 = false.
Proof. intros [->| ->] [->| ->]; auto; left; lia. Qed.

Section MulMonotone.

Variable y : spec_float.
Hypothesis Vy : valid_binary y = true.
Hypothesis Fy : SFfinite y.
Hypothesis Py : SFle SFzero y.

Lemma SFmul_l_nonneg (x : spec_float) :
  SFvalid_finite x -> SFle SFzero x -> SFle SFzero (SFmul prec emax x y).
Proof.
  intros [Vx Fx] Px. rewrite SFmul_RNf by assumption. rewrite SFzero_RNf.
  pose proof (SFmant_nonneg x). pose proof (SFmant_nonneg y).
  apply RNf_mono_sign; try lia; auto.
  - apply xor_sign_nonneg; apply nonneg_sign; assumption.
  - apply dle_zero_l. nia.
Qed.

Lemma SFmul_l_odd (x : spec_float) :
  SFvalid_finite x -> SFmul prec emax (SFopp x) y = SFopp (SFmul prec emax x y).
Proof.
  intros [Vx Fx]. rewrite !SFmul_RNf; try assumption;
    [| now rewrite valid_opp | now apply SFfinite_opp].
  rewrite RNf_opp, SFsign_opp, SFmant_opp, SFexp_opp by now apply SFfinite_not_nan.
  now rewrite negb_xorb_l.
Qed.

Lemma SFmul_l_mono_nonneg (x1 x2 : spec_float) :
  SFvalid_finite x1 -> SFvalid_finite x2 -> SFle SFzero x1 -> SFle x1 x2 ->
  SFle (SFmul prec emax x1 y) (SFmul prec emax x2 y).
Proof.
  intros [V1 F1] [V2 F2] P1 H.
  assert (P2 : SFle SFzero x2) by (eapply SFle_trans; eassumption).
  rewrite !SFmul_RNf by assumption.
  pose proof (SFmant_nonneg x1). pose proof (SFmant_nonneg x2).
  pose proof (SFmant_nonneg y).
  apply RNf_mono_sign; try lia; try nia;
    try (apply xor_sign_nonneg; apply nonneg_sign; assumption).
  rewrite !Z.mul_1_r. apply dle_mul_r; [lia|].
  apply SFle_dle; assumption.
Qed.

Theorem SFmul_mono_l (x1 x2 : spec_float) :
  valid_binary x1 = true -> valid_binary x2 = true ->
  SFfinite x1 -> SFfinite x2 -> SFle x1 x2 ->
  SFle (SFmul prec emax x1 y) (SFmul prec emax x2 y).
Proof.
  intros V1 V2 F1 F2 H.
  apply (odd_monotone (fun x => SFmul prec emax x y) SFvalid_finite); try (split; assumption);
    try exact H.
  - intros x [Vx Fx]. split; [now rewrite valid_opp | now apply SFfinite_opp].
  - intros x Dx. rewrite SFmul_l_odd by exact Dx. apply SFeqv_refl.
    destruct Dx as [Vx Fx]. rewrite SFmul_RNf by assumption.
    rewrite RNf_opp. apply RNf_not_nan.
  - apply SFmul_l_nonneg.
  - apply SFmul_l_mono_nonneg.
Qed.

End MulMonotone.

Lemma SFmul_comm (x y : spec_float) :
  valid_binary x = true -> valid_binary y = true -> SFfinite x -> SFfinite y ->
  SFmul prec emax x y = SFmul prec emax y x.
Proof.
  intros Vx Vy Fx Fy. rewrite !SFmul_RNf by assumption.
  now rewrite xorb_comm, Z.mul_comm, Z.add_comm.
Qed.

Theorem SFmul_mono_r (x y1 y2 : spec_float) :
  valid_binary x = true -> SFfinite x -> SFle SFzero x ->
  valid_binary y1 = true -> valid_binary y2 = true ->
  SFfinite y1 -> SFfinite y2 -> SFle y1 y2 ->
  SFle (SFmul prec emax x y1) (SFmul prec emax x y2).
Proof.
  intros Vx Fx Px V1 V2 F1 F2 H.
  rewrite (SFmul_comm x y1), (SFmul_comm x y2) by assumption.
  apply SFmul_mono_l; assumption.
Qed.

Lemma SFmul_finite_valid (x y : spec_float) :
  valid_binary x = true -> valid_binary y = true -> SFfinite x -> SFfinite y ->
  valid_binary (SFmul prec emax x y) = true
  /\ SFmul prec emax x y <> S754_nan.
Proof.
  intros Vx Vy Fx Fy. rewrite SFmul_RNf by assumption.
  pose proof (SFmant_nonneg x). pose proof (SFmant_nonneg y).
  split; [apply RNf_valid; nia | apply RNf_not_nan].
Qed.

Section DivMonotone.

(** Division by a positive finite number [p]. *)
Variable p : spec_float.
Hypothesis Pp : 0 < SFmant p.
Hypothesis Sp : SFsign p = false.

Lemma SFdiv_by_finite (x : spec_float) :
  x <> S754_nan ->
  SFdiv prec emax x p
  = match x with
    | S754_infinity s => S754_infinity s
    | _ => RNf (SFsign x) (SFmant x) (SFmant p) (SFexp x - SFexp p)
    end.
Proof.
  intros Nx. destruct x as [s|s| |s m e]; try congruence.
  - rewrite SFdiv_RNf by (cbn; auto). now rewrite Sp, xorb_false_r.
  - destruct p as [sp|sp| |sp mp ep]; cbn in Pp; try lia.
    cbn in Sp. subst sp. cbn. now rewrite xorb_false_r.
  - rewrite SFdiv_RNf by (cbn; auto). now rewrite Sp, xorb_false_r.
Qed.

Lemma SFdiv_l_odd (x : spec_float) :
  SFvalid_number x -> SFdiv prec emax (SFopp x) p = SFopp (SFdiv prec emax x p).
Proof.
  intros [Vx Nx].
  rewrite !SFdiv_by_finite; [| exact Nx | destruct x; cbn; congruence].
  destruct x as [s|s| |s m e]; try congruence; cbn [SFopp];
    try reflexivity; now rewrite RNf_opp.
Qed.

Lemma SFdiv_l_not_nan (x : spec_float) :
  x <> S754_nan -> SFdiv prec emax x p <> S754_nan.
Proof.
  intros Nx. rewrite SFdiv_by_finite by exact Nx.
  destruct x; try congruence; apply RNf_not_nan.
Qed.

Lemma SFdiv_l_nonneg (x : spec_float) :
  SFvalid_number x -> SFle SFzero x -> SFle SFzero (SFdiv prec emax x p).
Proof.
  intros [Vx Nx] Px. rewrite SFdiv_by_finite by exact Nx.
  destruct x as [s|[]| |[] m e]; try congruence;
    try (unfold SFle in Px; cbn in Px; lia).
  - cbn [SFmant SFsign SFexp]. rewrite RNf_zero. unfold SFle. cbn. lia.
  - apply RNf_nonneg.
Qed.

Lemma SFdiv_l_mono_nonneg (x1 x2 : spec_float) :
  SFvalid_number x1 -> SFvalid_number x2 -> SFle SFzero x1 -> SFle x1 x2 ->
  SFle (SFdiv prec emax x1 p) (SFdiv prec emax x2 p).
Proof.
  intros [V1 N1] [V2 N2] P1 H.
  assert (P2 : SFle SFzero x2) by (eapply SFle_trans; eassumption).
  destruct x2 as [s2|s2| |s2 m2 e2] eqn:E2; try congruence.
  - rewrite <- E2 in *.
    assert (F1 : SFfinite x1).
    { subst x2. destruct x1 as [|[]| |]; cbn; auto; try congruence;
        unfold SFle in H, P1; cbn in H, P1; lia. }
    assert (F2 : SFfinite x2) by (subst x2; exact I).
    rewrite !SFdiv_RNf by assumption. rewrite Sp, !xorb_false_r.
    pose proof (SFmant_nonneg x1).
    apply RNf_mono_sign; try lia; try (apply nonneg_sign; assumption).
    apply dle_mul_r with (f := - SFexp p); [lia|].
    apply SFle_dle; assumption.
  - destruct s2; [unfold SFle in P2; cbn in P2; lia|].
    rewrite (SFdiv_by_finite (S754_infinity false)) by discriminate.
    apply SFle_infinity. apply SFdiv_l_not_nan. exact N1.
  - rewrite <- E2 in *.
    assert (F1 : SFfinite x1).
    { subst x2. destruct x1 as [|[]| |]; cbn; auto; try congruence;
        unfold SFle in H, P1; cbn in H, P1; destruct s2; lia. }
    assert (F2 : SFfinite x2) by (subst x2; exact I).
    rewrite !SFdiv_RNf by assumption. rewrite Sp, !xorb_false_r.
    pose proof (SFmant_nonneg x1).
    apply RNf_mono_sign; try lia; try (apply nonneg_sign; assumption).
    apply dle_mul_r with (f := - SFexp p); [lia|].
    apply SFle_dle; assumption.
Qed.

Theorem SFdiv_mono_l (x1 x2 : spec_float) :
  valid_binary x1 = true -> valid_binary x2 = true ->
  SFle x1 x2 -> SFle (SFdiv prec emax x1 p) (SFdiv prec emax x2 p).
Proof.
  intros V1 V2 H. destruct (SFle_not_nan _ _ H) as [N1 N2].
  apply (odd_monotone (fun x => SFdiv prec emax x p) SFvalid_number); try (split; assumption);
    try exact H.
  - intros x [Vx Nx]. split; [now rewrite valid_opp | destruct x; cbn; congruence].
  - intros x Dx. rewrite SFdiv_l_odd by exact Dx. apply SFeqv_refl.
    destruct Dx as [Vx Nx]. pose proof (SFdiv_l_not_nan x Nx).
    destruct (SFdiv prec emax x p); cbn; congruence.
  - apply SFdiv_l_nonneg.
  - apply SFdiv_l_mono_nonneg.
Qed.

End DivMonotone.

(** Division of a finite number by positive infinity is a zero. *)
Lemma SFdiv_by_infinity (x : spec_float) :
  SFfinite x -> SFdiv prec emax x (S754_infinity false) = S754_zero (SFsign x).
Proof.
  destruct x as [s|s| |s m e]; cbn; try tauto; intros _; now rewrite xorb_false_r.
Qed.

(** A non-negative finite number divided by a larger positive number
    gives less. *)
Theorem SFdiv_anti_r (x p1 p2 : spec_float) :
  valid_binary x = true -> SFfinite x -> SFle SFzero x ->
  valid_binary p1 = true -> valid_binary p2 = true ->
  SFpos p1 -> SFle p1 p2 ->
  SFle (SFdiv prec emax x p2) (SFdiv prec emax x p1).
Proof.
  intros Vx Fx Px V1 V2 P1 H.
  pose proof (SFmant_nonneg x) as Mx.
  pose proof (nonneg_sign x Fx Px) as Sx.
  assert (Z1 : forall q, 0 < SFmant q -> SFsign q = false ->
               SFle SFzero (SFdiv prec emax x q)).
  { intros q Mq Sq. rewrite SFdiv_RNf by assumption. rewrite Sq, xorb_false_r.
    rewrite SFzero_RNf. apply RNf_mono_sign; try lia; auto.
    apply dle_zero_l. nia. }
  destruct p1 as [|[]| |[] m1 e1]; try contradiction;
    destruct p2 as [s2|[]| |[] m2 e2];
    try (unfold SFle in H; cbn in H; lia).
  - rewrite SFdiv_by_infinity by assumption. unfold SFle. cbn. lia.
  - rewrite SFdiv_by_infinity by assumption.
    apply (proj1 (SFle_zero_sign _ _)). apply Z1; cbn; [lia | reflexivity].
  - rewrite !SFdiv_RNf by (cbn; auto; lia). cbn [SFsign SFmant SFexp].
    rewrite !xorb_false_r.
    apply RNf_mono_sign; [lia | lia | lia | exact Sx | exact Sx |].
    apply dle_inverse; [lia|].
    apply (SFle_dle (S754_finite false m1 e1) (S754_finite false m2 e2));
      try assumption; try exact I. unfold SFle. cbn. lia.
Qed.

(** *** Rounding to decimal places is monotone *)

Lemma dle_trans (A e1 B e2 C e3 : Z) :
  dle A e1 B e2 -> dle B e2 C e3 -> dle A e1 C e3.
Proof.
  intros H1 H2. set (k := Z.min e1 (Z.min e2 e3)).
  apply (dle_scale _ _ _ _ k) in H1; [| unfold k; lia | unfold k; lia].
  apply (dle_scale _ _ _ _ k) in H2; [| unfold k; lia | unfold k; lia].
  apply (dle_scale _ _ _ _ k); [unfold k; lia | unfold k; lia | lia].
Qed.

Lemma at_least_1e21_dle (m : positive) (e : Z) :
  JS.at_least_1e21 m e = true <-> dle (10 ^ 21) 0 (Z.pos m) e.
Proof.
  unfold JS.at_least_1e21, dle.
  destruct (Z.leb_spec 0 e).
  - rewrite Z.min_l by lia. rewrite Z.leb_le.
    replace (0 - 0) with 0 by lia. replace (e - 0) with e by lia.
    change (2 ^ 0) with 1. lia.
  - rewrite Z.min_r by lia. rewrite Z.leb_le.
    replace (e - e) with 0 by lia. replace (0 - e) with (- e) by lia.
    change (2 ^ 0) with 1. lia.
Qed.

(** [nearest_scaled] at any scale [2^k] fine enough. *)
Lemma nearest_scaled_at (m : positive) (e f k : Z) :
  0 <= f -> k <= e -> k <= 0 ->
  JS.nearest_scaled m e f
  = (2 * (Z.pos m * 10 ^ f) * 2 ^ (e - k) + 2 ^ (- k)) / 2 ^ (1 - k).
Proof.
  intros Hf Hk Hk0. unfold JS.nearest_scaled.
  pose proof (pow2_pos (- k) ltac:(lia)) as HP.
  assert (H10 : 0 < 10 ^ f) by (apply Z.pow_pos_nonneg; lia).
  replace (1 - k) with (1 + - k) by lia. rewrite (pow2_split 1) by lia.
  change (2 ^ 1) with 2.
  destruct (Z.leb_spec 0 e).
  - replace (e - k) with (e + - k) by lia. rewrite pow2_split by lia.
    set (N := Z.pos m * 2 ^ e * 10 ^ f). set (P := 2 ^ (- k)) in *.
    replace (2 * (Z.pos m * 10 ^ f) * (2 ^ e * P) + P) with ((2 * N + 1) * P)
      by (unfold N; ring).
    rewrite Z.div_mul_cancel_r by lia.
    apply (Z.div_unique _ 2 N 1); lia.
  - replace (1 - e) with (1 + - e) by lia. rewrite (pow2_split 1) by lia.
    change (2 ^ 1) with 2.
    replace (- k) with (- e + (e - k)) in * by lia.
    rewrite pow2_split in * by lia.
    pose proof (pow2_pos (- e) ltac:(lia)). pose proof (pow2_pos (e - k) ltac:(lia)).
    set (Q := 2 ^ (e - k)) in *. set (R := 2 ^ (- e)) in *.
    replace (2 * (Z.pos m * 10 ^ f) * Q + R * Q)
      with ((2 * (Z.pos m * 10 ^ f) + R) * Q) by ring.
    replace (2 * (R * Q)) with (2 * R * Q) by ring.
    rewrite Z.div_mul_cancel_r by lia. reflexivity.
Qed.

Lemma nearest_scaled_nonneg (m : positive) (e f : Z) :
  0 <= f -> 0 <= JS.nearest_scaled m e f.
Proof.
  intros Hf. assert (H10 : 0 < 10 ^ f) by (apply Z.pow_pos_nonneg; lia).
  unfold JS.nearest_scaled. destruct (Z.leb_spec 0 e).
  - pose proof (pow2_pos e ltac:(lia)). nia.
  - apply Z.div_pos; [|apply pow2_pos; lia].
    pose proof (pow2_pos (- e) ltac:(lia)). nia.
Qed.

Lemma nearest_scaled_mono (m1 m2 : positive) (e1 e2 f : Z) :
  0 <= f -> dle (Z.pos m1) e1 (Z.pos m2) e2 ->
  JS.nearest_scaled m1 e1 f <= JS.nearest_scaled m2 e2 f.
Proof.
  intros Hf H. set (k := Z.min 0 (Z.min e1 e2)).
  rewrite (nearest_scaled_at m1 e1 f k), (nearest_scaled_at m2 e2 f k)
    by (unfold k; lia).
  apply (dle_scale _ _ _ _ k) in H; [| unfold k; lia | unfold k; lia].
  assert (H10 : 0 < 10 ^ f) by (apply Z.pow_pos_nonneg; lia).
  apply Z.div_le_mono; [apply pow2_pos; unfold k; lia|]. nia.
Qed.

Lemma nearest_scaled_below (m : positive) (e f : Z) :
  0 <= f -> ~ dle (10 ^ 21) 0 (Z.pos m) e ->
  JS.nearest_scaled m e f <= 10 ^ 21 * 10 ^ f.
Proof.
  intros Hf H. set (k := Z.min 0 e).
  rewrite (nearest_scaled_at m e f k) by (unfold k; lia).
  rewrite (dle_scale _ _ _ _ k) in H by (unfold k; lia).
  rewrite Z.sub_0_l in H.
  assert (H10 : 0 < 10 ^ f) by (apply Z.pow_pos_nonneg; lia).
  pose proof (pow2_pos (- k) ltac:(unfold k; lia)) as HP.
  pose proof (pow2_pos (e - k) ltac:(unfold k; lia)) as HQ.
  replace (1 - k) with (1 + - k) by lia. rewrite (pow2_split 1) by (unfold k; lia).
  change (2 ^ 1) with 2.
  set (P := 2 ^ (- k)) in *. set (Q := 2 ^ (e - k)) in *.
  apply Z.lt_succ_r. apply Z.div_lt_upper_bound; [lia|]. nia.
Qed.

Lemma SFround_dp_valid (x : spec_float) (f : Z) :
  0 <= f -> valid_binary x = true -> valid_binary (SFround_dp x f) = true.
Proof.
  intros Hf V. destruct x as [s|s| |s m e]; try reflexivity. cbn [SFround_dp].
  destruct (JS.at_least_1e21 m e); [exact V|].
  apply RNf_valid; [apply nearest_scaled_nonneg; lia|].
  apply Z.pow_pos_nonneg; lia.
Qed.

Lemma SFround_dp_not_nan (x : spec_float) (f : Z) :
  x <> S754_nan -> SFround_dp x f <> S754_nan.
Proof.
  intros N. destruct x as [s|s| |s m e]; try congruence; cbn [SFround_dp];
    try discriminate.
  destruct (JS.at_least_1e21 m e); [discriminate | apply RNf_not_nan].
Qed.

Section RoundMonotone.

Variable f : Z.
Hypothesis Hf : 0 <= f.

Lemma SFround_dp_nonneg (x : spec_float) :
  SFvalid_number x -> SFle SFzero x -> SFle SFzero (SFround_dp x f).
Proof.
  intros [V N] P.
  destruct x as [s|[]| |[] m e]; try congruence; cbn [SFround_dp];
    try (unfold SFle in *; cbn in *; lia).
  destruct (JS.at_least_1e21 m e); [exact P | apply RNf_nonneg].
Qed.

Lemma SFround_dp_odd (x : spec_float) :
  SFvalid_number x -> SFeqv (SFround_dp (SFopp x) f) (SFopp (SFround_dp x f)).
Proof.
  intros [V N].
  destruct x as [s|s| |s m e]; try congruence; cbn [SFround_dp SFopp].
  - split; unfold SFle; cbn; lia.
  - apply SFeqv_refl. discriminate.
  - destruct (JS.at_least_1e21 m e); cbn [SFopp].
    + apply SFeqv_refl. discriminate.
    + rewrite RNf_opp. apply SFeqv_refl, RNf_not_nan.
Qed.

Lemma SFround_dp_mono_nonneg (x y : spec_float) :
  SFvalid_number x -> SFvalid_number y -> SFle SFzero x -> SFle x y ->
  SFle (SFround_dp x f) (SFround_dp y f).
Proof.
  intros [Vx Nx] [Vy Ny] Px H.
  assert (Py : SFle SFzero y) by (eapply SFle_trans; eassumption).
  assert (H10 : 0 < 10 ^ f) by (apply Z.pow_pos_nonneg; lia).
  destruct x as [sx|[]| |[] mx ex]; try congruence;
    try (unfold SFle in Px; cbn in Px; lia).
  - apply (SFle_trans _ SFzero); [unfold SFle; cbn; lia|].
    apply SFround_dp_nonneg; [split|]; assumption.
  - destruct y as [sy|[]| |[] my ey]; try congruence;
      try (unfold SFle in H; cbn in H; lia).
    unfold SFle. cbn. lia.
  - destruct y as [sy|[]| |[] my ey]; try congruence;
      try (unfold SFle in H; cbn in H; lia).
    + cbn [SFround_dp]. apply SFle_infinity.
      apply (SFround_dp_not_nan (S754_finite false mx ex)). discriminate.
    + pose proof (SFle_dle _ _ Vx Vy I I Px H) as L. cbn [SFmant SFexp] in L.
      cbn [SFround_dp].
      destruct (JS.at_least_1e21 mx ex) eqn:Ax, (JS.at_least_1e21 my ey) eqn:Ay.
      * exact H.
      * apply at_least_1e21_dle in Ax.
        pose proof (dle_trans _ _ _ _ _ _ Ax L) as T.
        apply at_least_1e21_dle in T. congruence.
      * rewrite <- (RNf_canonical false my ey Vy).
        pose proof (nearest_scaled_nonneg mx ex f Hf).
        apply RNf_mono_sign; try lia; auto.
        rewrite Z.mul_1_r.
        apply at_least_1e21_dle in Ay.
        assert (B : ~ dle (10 ^ 21) 0 (Z.pos mx) ex).
        { intros C. apply at_least_1e21_dle in C. congruence. }
        pose proof (nearest_scaled_below mx ex f Hf B) as Bd.
        apply (dle_trans _ _ (10 ^ 21 * 10 ^ f) 0).
        -- unfold dle. rewrite Z.min_id, Z.sub_diag. change (2 ^ 0) with 1. lia.
        -- pose proof (dle_mul_r _ _ _ _ (10 ^ f) 0 ltac:(lia) Ay) as Ay'.
           replace (ey + 0) with ey in Ay' by lia. exact Ay'.
      * pose proof (nearest_scaled_nonneg mx ex f Hf).
        pose proof (nearest_scaled_mono mx my ex ey f Hf L).
        apply RNf_mono_sign; try lia; auto.
        unfold dle. rewrite Z.min_id, Z.sub_diag. change (2 ^ 0) with 1. nia.
Qed.

Theorem SFround_dp_mono (x y : spec_float) :
  valid_binary x = true -> valid_binary y = true ->
  SFle x y -> SFle (SFround_dp x f) (SFround_dp y f).
Proof.
  intros Vx Vy H. destruct (SFle_not_nan _ _ H) as [Nx Ny].
  apply (odd_monotone (fun x => SFround_dp x f) SFvalid_number); try (split; assumption);
    try exact H.
  - intros z [Vz Nz]. split; [now rewrite valid_opp | destruct z; cbn; congruence].
  - apply SFround_dp_odd.
  - apply SFround_dp_nonneg.
  - apply SFround_dp_mono_nonneg.
Qed.

End RoundMonotone.

Lemma SFmul_one (x : spec_float) :
  valid_binary x = true -> SFfinite x -> SFmul prec emax x SFone = x.
Proof.
  intros V F. rewrite SFmul_RNf; [| exact V | reflexivity | exact F | exact I].
  cbn [SFsign SFmant SFexp SFone]. rewrite xorb_false_r.
  change (Z.pos (2 ^ 52)) with (2 ^ 52).
  replace (SFexp x + -52) with (SFexp x - 52) by lia.
  rewrite RNf_rescale by (try apply SFmant_nonneg; lia).
  symmetry. apply finite_RNf; assumption.
Qed.

Lemma SFle_between_finite (z x : spec_float) :
  SFle SFzero z -> SFle z x -> SFfinite x -> SFfinite z.
Proof.
  destruct z as [|[]| |[]], x as [|[]| |[]]; unfold SFle; cbn; try tauto; lia.
Qed.

(** A finite number times a number between 0 and 1 is finite. *)
Lemma SFmul_unit_finite (x y : spec_float) :
  valid_binary x = true -> valid_binary y = true ->
  SFfinite x -> SFfinite y -> SFle SFzero y -> SFle y SFone ->
  SFfinite (SFmul prec emax x y).
Proof.
  intros Vx Vy Fx Fy Py Hy.
  assert (G : forall z, valid_binary z = true -> SFfinite z -> SFle SFzero z ->
              SFfinite (SFmul prec emax z y)).
  { intros z Vz Fz Pz. apply (SFle_between_finite _ z); [| |exact Fz].
    - apply SFmul_l_nonneg; try assumption. split; assumption.
    - rewrite <- (SFmul_one z Vz Fz) at 2.
      apply SFmul_mono_r; try assumption; reflexivity || exact I. }
  destruct (SFle_sign x (SFfinite_not_nan x Fx)) as [P|M]; [now apply G|].
  assert (F' : SFfinite (SFmul prec emax (SFopp x) y)).
  { apply G; [now rewrite valid_opp | now apply SFfinite_opp |].
    apply SFle_opp. now rewrite SFopp_involutive. }
  rewrite SFmul_l_odd in F' by (try split; assumption).
  apply (proj1 (SFfinite_opp _)) in F'. exact F'.
Qed.

(** ** From [SpecFloat] back to the numbers of the program *)

Lemma is_nan_Prim2SF (x : float) : is_nan x = true <-> Prim2SF x = S754_nan.
Proof.
  unfold is_nan. rewrite eqb_spec. unfold SFeqb.
  destruct (Prim2SF x) as [s|s| |s m e]; cbn; try destruct s; cbn;
    try (split; [discriminate | discriminate]); try tauto;
    rewrite Z.compare_refl, Pos.compare_cont_refl; split; discriminate.
Qed.

Lemma not_nan_Prim2SF (x : float) : is_nan x = false <-> Prim2SF x <> S754_nan.
Proof.
  rewrite <- is_nan_Prim2SF. destruct (is_nan x); split; congruence.
Qed.

Lemma leb_SFle (x y : float) :
  (x <=? y)%float = true <-> SFle (Prim2SF x) (Prim2SF y).
Proof. rewrite leb_spec. apply SFleb_SFle. Qed.

Lemma leb_not_nan (x y : float) :
  (x <=? y)%float = true -> is_nan x = false /\ is_nan y = false.
Proof.
  intros H. apply leb_SFle, SFle_not_nan in H.
  rewrite !not_nan_Prim2SF. exact H.
Qed.

Lemma gtb_zero_SFpos (p : float) : JS.gtb p 0%float = true <-> SFpos (Prim2SF p).
Proof.
  unfold JS.gtb. rewrite ltb_spec. change (Prim2SF 0%float) with (S754_zero false).
  unfold SFltb. destruct (Prim2SF p) as [s|[]| |[] m e]; cbn;
    split; try discriminate; try tauto; reflexivity.
Qed.

Lemma isFinite_SFfinite (x : float) :
  JS.isFinite x = true <-> SFfinite (Prim2SF x).
Proof.
  unfold JS.isFinite. rewrite andb_true_iff, !negb_true_iff.
  rewrite not_nan_Prim2SF. unfold is_infinity.
  rewrite eqb_spec, abs_spec. change (Prim2SF infinity) with (S754_infinity false).
  unfold SFeqb.
  destruct (Prim2SF x) as [s|s| |s m e]; cbn; try destruct s; cbn;
    split; try tauto; try (intros [? ?]; congruence); try discriminate;
    try (intros _; split; [discriminate | reflexivity]).
Qed.

Lemma Prim2SF_round_dp (x : float) (f : Z) :
  0 <= f -> Prim2SF (round_dp x f) = SFround_dp (Prim2SF x) f.
Proof.
  intros Hf. unfold round_dp, JS.toFixed.
  destruct (Prim2SF x) as [s|s| |s m e] eqn:E; cbn [JS.Number SFround_dp].
  - reflexivity.
  - destruct s; reflexivity.
  - reflexivity.
  - destruct (JS.at_least_1e21 m e); cbn [JS.Number]; [exact E|].
    pose proof (nearest_scaled_nonneg m e f Hf) as Hn.
    assert (H10 : 0 < 10 ^ f) by (apply Z.pow_pos_nonneg; lia).
    destruct (JS.nearest_scaled m e f) as [|n|n]; try lia.
    + rewrite RNf_zero. destruct s; reflexivity.
    + rewrite round_ratio_RNf, Z2Pos.id by lia.
      apply Prim2SF_SF2Prim. apply RNf_valid; lia.
Qed.

(** *** Order lemmas on numbers *)

Lemma number_leb_trans (x y z : float) :
  (x <=? y)%float = true -> (y <=? z)%float = true -> (x <=? z)%float = true.
Proof. rewrite !leb_SFle. apply SFle_trans. Qed.

Lemma number_leb_refl (x : float) : is_nan x = false -> (x <=? x)%float = true.
Proof. rewrite leb_SFle, not_nan_Prim2SF. apply SFle_refl. Qed.

Lemma eqb_leb (x y : float) :
  (x =? y)%float = true -> (x <=? y)%float = true /\ (y <=? x)%float = true.
Proof.
  rewrite eqb_spec, !leb_spec. unfold SFeqb, SFleb.
  rewrite (SFcompare_antisym (Prim2SF x) (Prim2SF y)).
  destruct (SFcompare (Prim2SF x) (Prim2SF y)) as [[]|]; cbn; try discriminate.
  auto.
Qed.

(** [Math.min] of two numbers is one of them and below both. *)
Lemma min2_spec (a b : float) :
  is_nan a = false -> is_nan b = false ->
  (JS.min2 a b = a \/ JS.min2 a b = b)
  /\ (JS.min2 a b <=? a)%float = true /\ (JS.min2 a b <=? b)%float = true.
Proof.
  intros Na Nb. unfold JS.min2. rewrite Na, Nb. cbn [orb].
  pose proof (number_leb_refl a Na). pose proof (number_leb_refl b Nb).
  destruct (a <? b)%float eqn:L1; [pose proof (ltb_leb _ _ L1); auto|].
  destruct (b <? a)%float eqn:L2; [pose proof (ltb_leb _ _ L2); auto|].
  destruct (number_trichotomy a b Na Nb) as [T|[T|T]]; try congruence.
  destruct (eqb_leb _ _ T). destruct (get_sign a); auto.
Qed.

(** [Math.max] of two numbers is one of them and above both. *)
Lemma max2_spec (a b : float) :
  is_nan a = false -> is_nan b = false ->
  (JS.max2 a b = a \/ JS.max2 a b = b)
  /\ (a <=? JS.max2 a b)%float = true /\ (b <=? JS.max2 a b)%float = true.
Proof.
  intros Na Nb. unfold JS.max2. rewrite Na, Nb. cbn [orb].
  pose proof (number_leb_refl a Na). pose proof (number_leb_refl b Nb).
  destruct (a <? b)%float eqn:L1; [pose proof (ltb_leb _ _ L1); auto|].
  destruct (b <? a)%float eqn:L2; [pose proof (ltb_leb _ _ L2); auto|].
  destruct (number_trichotomy a b Na Nb) as [T|[T|T]]; try congruence.
  destruct (eqb_leb _ _ T). destruct (get_sign a); auto.
Qed.

(** The clamp of a number to [0, 1] lies in [0, 1] and is finite. *)
Lemma clamp_range (x : float) :
  is_nan x = false ->
  (0 <=? clamp x 0 1)%float = true /\ (clamp x 0 1 <=? 1)%float = true
  /\ JS.isFinite (clamp x 0%float 1%float) = true.
Proof.
  intros Nx. unfold clamp.
  destruct (min2_spec x 1%float Nx eq_refl) as (Cm & _ & M1).
  assert (Nm : is_nan (JS.min2 x 1%float) = false) by (destruct Cm as [-> | ->]; auto).
  destruct (max2_spec (JS.min2 x 1%float) 0%float Nm eq_refl) as (CM & _ & M0).
  assert (U : (JS.max2 (JS.min2 x 1) 0 <=? 1)%float = true).
  { destruct CM as [-> | ->]; [exact M1 | reflexivity]. }
  split; [exact M0|]. split; [exact U|].
  apply isFinite_SFfinite.
  apply leb_SFle in M0, U. change (Prim2SF 0%float) with SFzero in M0.
  apply (SFle_between_finite _ (Prim2SF 1%float) M0 U). exact I.
Qed.

Lemma clamp_mono (x1 x2 : float) :
  (x1 <=? x2)%float = true -> (clamp x1 0 1 <=? clamp x2 0 1)%float = true.
Proof.
  intros H. destruct (leb_not_nan _ _ H) as [N1 N2]. unfold clamp.
  destruct (min2_spec x1 1%float N1 eq_refl) as (C1 & A1 & B1).
  destruct (min2_spec x2 1%float N2 eq_refl) as (C2 & A2 & B2).
  assert (Nm1 : is_nan (JS.min2 x1 1%float) = false)
    by (destruct C1 as [-> | ->]; auto).
  assert (Nm2 : is_nan (JS.min2 x2 1%float) = false)
    by (destruct C2 as [-> | ->]; auto).
  assert (M : (JS.min2 x1 1 <=? JS.min2 x2 1)%float = true).
  { destruct C2 as [-> | ->]; [|exact B1].
    apply (number_leb_trans _ x1); assumption. }
  destruct (max2_spec (JS.min2 x1 1%float) 0%float Nm1 eq_refl) as (D1 & E1 & F1).
  destruct (max2_spec (JS.min2 x2 1%float) 0%float Nm2 eq_refl) as (D2 & E2 & F2).
  destruct D1 as [-> | ->]; [|exact F2].
  apply (number_leb_trans _ (JS.min2 x2 1%float)); assumption.
Qed.

(** *** Monotonicity of the arithmetic of the program *)

Lemma SFpos_cases (p : spec_float) :
  SFpos p -> (0 < SFmant p /\ SFsign p = false) \/ p = S754_infinity false.
Proof.
  destruct p as [|[]| |[] m e]; cbn; try tauto. intros _. left. split; [lia | reflexivity].
Qed.

Lemma number_mul_mono_l (x1 x2 y : float) :
  JS.isFinite x1 = true -> JS.isFinite x2 = true -> JS.isFinite y = true ->
  (0 <=? y)%float = true -> (x1 <=? x2)%float = true ->
  (x1 * y <=? x2 * y)%float = true.
Proof.
  rewrite !isFinite_SFfinite, !leb_SFle, !mul_spec. intros F1 F2 Fy Py H.
  apply SFmul_mono_l; try apply Prim2SF_valid; assumption.
Qed.

Lemma number_mul_mono_r (x y1 y2 : float) :
  JS.isFinite x = true -> (0 <=? x)%float = true ->
  JS.isFinite y1 = true -> JS.isFinite y2 = true ->
  (y1 <=? y2)%float = true ->
  (x * y1 <=? x * y2)%float = true.
Proof.
  rewrite !isFinite_SFfinite, !leb_SFle, !mul_spec. intros Fx Px F1 F2 H.
  apply SFmul_mono_r; try apply Prim2SF_valid; assumption.
Qed.

Lemma number_mul_nonneg (x y : float) :
  JS.isFinite x = true -> JS.isFinite y = true ->
  (0 <=? x)%float = true -> (0 <=? y)%float = true ->
  (0 <=? x * y)%float = true.
Proof.
  rewrite !isFinite_SFfinite, !leb_SFle, !mul_spec. intros Fx Fy Px Py.
  apply SFmul_l_nonneg; try apply Prim2SF_valid; try assumption.
  split; [apply Prim2SF_valid | assumption].
Qed.

Lemma number_mul_unit_finite (x y : float) :
  JS.isFinite x = true -> JS.isFinite y = true ->
  (0 <=? y)%float = true -> (y <=? 1)%float = true ->
  JS.isFinite (x * y)%float = true.
Proof.
  rewrite !isFinite_SFfinite, !leb_SFle, !mul_spec. intros Fx Fy Py Hy.
  apply SFmul_unit_finite; try apply Prim2SF_valid; assumption.
Qed.

Lemma number_div_mono_l (x1 x2 p : float) :
  JS.gtb p 0%float = true ->
  JS.isFinite p = true \/ (JS.isFinite x1 = true /\ JS.isFinite x2 = true) ->
  (x1 <=? x2)%float = true ->
  (x1 / p <=? x2 / p)%float = true.
Proof.
  rewrite gtb_zero_SFpos, !isFinite_SFfinite, !leb_SFle, !div_spec.
  intros Pp Fin H.
  destruct (SFpos_cases _ Pp) as [[Mp Sp]|Ep].
  - apply SFdiv_mono_l; try apply Prim2SF_valid; assumption.
  - rewrite Ep in *. destruct Fin as [Fp|[F1 F2]]; [contradiction|].
    unfold SF64div. rewrite !SFdiv_by_infinity by assumption.
    unfold SFle. cbn. lia.
Qed.

Lemma number_div_anti_r (x p1 p2 : float) :
  JS.isFinite x = true -> (0 <=? x)%float = true ->
  JS.gtb p1 0%float = true -> (p1 <=? p2)%float = true ->
  (x / p2 <=? x / p1)%float = true.
Proof.
  rewrite gtb_zero_SFpos, !isFinite_SFfinite, !leb_SFle, !div_spec.
  intros Fx Px P1 H.
  apply SFdiv_anti_r; try apply Prim2SF_valid; assumption.
Qed.

Lemma number_div_not_nan (x p : float) :
  JS.gtb p 0%float = true -> JS.isFinite p = true \/ JS.isFinite x = true ->
  is_nan x = false -> is_nan (x / p)%float = false.
Proof.
  rewrite gtb_zero_SFpos, !isFinite_SFfinite, !not_nan_Prim2SF, div_spec.
  intros Pp Fin Nx.
  destruct (SFpos_cases _ Pp) as [[Mp Sp]|Ep].
  - apply SFdiv_l_not_nan; assumption.
  - rewrite Ep in *. destruct Fin as [Fp|Fx]; [contradiction|].
    unfold SF64div. rewrite SFdiv_by_infinity by assumption. discriminate.
Qed.

Lemma round_dp_mono (x y : float) (f : Z) :
  0 <= f -> (x <=? y)%float = true -> (round_dp x f <=? round_dp y f)%float = true.
Proof.
  intros Hf. rewrite !leb_SFle, !Prim2SF_round_dp by exact Hf.
  apply SFround_dp_mono; try apply Prim2SF_valid; exact Hf.
Qed.


(** *** The position size as a function of capital, risk and price *)

Lemma risk_fraction_range (r : float) :
  is_nan r = false ->
  (0 <=? clamp (r / 100) 0 1)%float = true
  /\ (clamp (r / 100) 0 1 <=? 1)%float = true
  /\ JS.isFinite (clamp (r / 100)%float 0%float 1%float) = true.
Proof.
  intros Nr. apply clamp_range.
  apply number_div_not_nan; [reflexivity | left; reflexivity | exact Nr].
Qed.

Lemma risk_fraction_mono (r1 r2 : float) :
  (r1 <=? r2)%float = true ->
  (clamp (r1 / 100) 0 1 <=? clamp (r2 / 100) 0 1)%float = true.
Proof.
  intros H. apply clamp_mono.
  apply number_div_mono_l; [reflexivity | left; reflexivity | exact H].
Qed.

Theorem position_size_mono_capital (c1 c2 r p : float) :
  JS.isFinite c1 = true -> JS.isFinite c2 = true -> is_nan r = false ->
  (c1 <=? c2)%float = true ->
  (position_size c1 r p <=? position_size c2 r p)%float = true.
Proof.
  intros F1 F2 Nr H. unfold position_size.
  destruct (JS.gtb p 0%float) eqn:Pp; [|reflexivity].
  destruct (risk_fraction_range r Nr) as (R0 & R1 & RF).
  apply round_dp_mono; [lia|].
  apply number_div_mono_l; [exact Pp | |].
  - right. split; apply number_mul_unit_finite; assumption.
  - apply number_mul_mono_l; assumption.
Qed.

Theorem position_size_mono_risk (c r1 r2 p : float) :
  JS.isFinite c = true -> (0 <=? c)%float = true ->
  (r1 <=? r2)%float = true ->
  (position_size c r1 p <=? position_size c r2 p)%float = true.
Proof.
  intros Fc Pc H. unfold position_size.
  destruct (JS.gtb p 0%float) eqn:Pp; [|reflexivity].
  destruct (leb_not_nan _ _ H) as [N1 N2].
  destruct (risk_fraction_range r1 N1) as (A0 & A1 & AF).
  destruct (risk_fraction_range r2 N2) as (B0 & B1 & BF).
  apply round_dp_mono; [lia|].
  apply number_div_mono_l; [exact Pp | |].
  - right. split; apply number_mul_unit_finite; assumption.
  - apply number_mul_mono_r; try assumption. apply risk_fraction_mono, H.
Qed.

Theorem position_size_anti_price (c r p1 p2 : float) :
  JS.isFinite c = true -> (0 <=? c)%float = true -> is_nan r = false ->
  JS.gtb p1 0%float = true -> (p1 <=? p2)%float = true ->
  (position_size c r p2 <=? position_size c r p1)%float = true.
Proof.
  intros Fc Pc Nr P1 H. unfold position_size. rewrite P1.
  assert (P2 : JS.gtb p2 0%float = true).
  { apply gtb_zero_SFpos in P1. apply gtb_zero_SFpos. apply leb_SFle in H.
    destruct (Prim2SF p1) as [|[]| |[]], (Prim2SF p2) as [|[]| |[]];
      cbn in *; try tauto; unfold SFle in H; cbn in H; lia. }
  rewrite P2.
  destruct (risk_fraction_range r Nr) as (R0 & R1 & RF).
  apply round_dp_mono; [lia|].
  apply number_div_anti_r; try assumption.
  - apply number_mul_unit_finite; assumption.
  - apply number_mul_nonneg; assumption.
Qed.


(** ** Properties of the specification *)

Lemma signal_policy (curFast curSlow prevFast prevSlow : option JS.number) :
  (fst (signal curFast curSlow prevFast prevSlow),
   kind_of (snd (signal curFast curSlow prevFast prevSlow)))
  = priority_policy curFast curSlow prevFast prevSlow.
Proof.
  unfold signal, priority_policy, all_defined, both_defined, compare_defined.
  destruct curFast as [cf|], curSlow as [cs|], prevFast as [pf|], prevSlow as [ps|];
    cbn [andb]; try reflexivity;
    repeat match goal with
      | |- context [if ?b then _ else _] => destruct b eqn:?; cbn [andb fst snd kind_of]
      end; try reflexivity; try congruence.
Qed.

Lemma evaluateStrategy_Ok_inv candles config comp :
  evaluateStrategy candles config = Ok comp ->
  candles <> [] /\ 1 <= fastLength config /\ 1 <= slowLength config.
Proof.
  unfold evaluateStrategy, simpleMovingAverage. intros H.
  destruct candles as [|c t]; [discriminate|]. cbn [length Nat.eqb] in H.
  destruct (Z.leb_spec (fastLength config) 0); [discriminate|].
  destruct (Z.leb_spec (slowLength config) 0); [discriminate|].
  repeat split; [discriminate | lia | lia].
Qed.

(** C7. Whatever the configuration, evaluating an empty candle sequence
    throws the no-data error; no computation is returned. *)
Theorem evaluateStrategy_empty_NoData (config : StrategyConfig) :
  evaluateStrategy [] config = Throw NoData.
Proof. unfold evaluateStrategy. cbn [length Nat.eqb]. reflexivity. Qed.

(** C6. A period [P <= 0] makes the moving average throw the
    invalid-period error on every input, and a non-empty evaluation with
    a non-positive [fastLength] or [slowLength] throws it as a whole:
    the result is the error, not a computation. *)
Theorem invalid_period_aborts :
  (forall (values : list JS.number) (P : Z),
      P <= 0 -> simpleMovingAverage values P = Throw InvalidPeriod)
  /\ (forall (candles : list OHLCVRecord) (config : StrategyConfig),
      candles <> [] ->
      fastLength config <= 0 \/ slowLength config <= 0 ->
      evaluateStrategy candles config = Throw InvalidPeriod).
Proof.
  assert (A : forall values P, P <= 0 -> simpleMovingAverage values P = Throw InvalidPeriod).
  { intros values P HP. unfold simpleMovingAverage.
    destruct (Z.leb_spec P 0); [reflexivity | lia]. }
  split; [exact A|].
  intros candles config Hne Hbad. unfold evaluateStrategy.
  destruct candles as [|c t]; [easy|]. cbn [length Nat.eqb].
  destruct (Z.leb_spec (fastLength config) 0) as [Hf|Hf].
  - rewrite A by assumption. reflexivity.
  - rewrite simpleMovingAverage_ok by lia. cbn [bind].
    rewrite A by lia. reflexivity.
Qed.

Lemma invalid_period_aborts_witness :
  simpleMovingAverage [1; 2; 3]%float 0 = Throw InvalidPeriod
  /\ evaluateStrategy (map candle [1; 2; 3]%float) (cfg 3 (-1) 1000%float 10%float)
     = Throw InvalidPeriod.
Proof.
  split.
  - apply (proj1 invalid_period_aborts). lia.
  - apply (proj2 invalid_period_aborts); [discriminate | right; cbn; lia].
Defined.

(** C2. For a sequence of length [N] and a period [1 <= P <= N], the
    moving average returns [N] entries; entry [i] is null exactly when
    [i < P - 1], and from [P - 1] on it is the mean of the [P] values at
    indices [i - P + 1] through [i]. Hence [fastMA] and [slowMA] of every
    computation returned are as long as the candle sequence. *)
Theorem simpleMovingAverage_spec :
  (forall (values : list JS.number) (P : Z),
      1 <= P <= Z.of_nat (length values) ->
      exists ma,
        simpleMovingAverage values P = Ok ma
        /\ length ma = length values
        /\ forall i : nat, (i < length values)%nat ->
             (nth_error ma i = Some None <-> Z.of_nat i < P - 1)
             /\ (P - 1 <= Z.of_nat i ->
                 nth_error ma i
                 = Some (Some (arithmetic_mean (window_at values P (Z.of_nat i))))))
  /\ (forall candles config comp,
      evaluateStrategy candles config = Ok comp ->
      length (fastMA comp) = length candles
      /\ length (slowMA comp) = length candles).
Proof.
  split.
  - intros values P HP. eexists. split; [apply simpleMovingAverage_ok; lia|].
    split; [apply sma_loop_length|].
    intros i Hi. rewrite sma_loop_nth by assumption.
    rewrite sma_entry_value by lia. unfold sma_value.
    destruct (Z.ltb_spec (Z.of_nat i) 0); [lia|]. cbn [orb].
    destruct (Z.ltb_spec (Z.of_nat i) (P - 1)).
    + split; [split; [lia | reflexivity] | lia].
    + split; [split; [discriminate | lia] | reflexivity].
  - intros candles config comp H.
    destruct (evaluateStrategy_Ok_inv _ _ _ H) as (Hne & Hf & Hs).
    destruct (evaluateStrategy_fields candles config Hne Hf Hs)
      as (comp' & E & Ef & Es & _).
    rewrite H in E. injection E as <-.
    rewrite Ef, Es, !sma_loop_length, length_map. split; reflexivity.
Qed.

Lemma simpleMovingAverage_spec_witness :
  exists ma,
    simpleMovingAverage [1; 2; 3; 4; 5]%float 3 = Ok ma
    /\ length ma = 5%nat
    /\ forall i : nat, (i < 5)%nat ->
         (nth_error ma i = Some None <-> Z.of_nat i < 3 - 1)
         /\ (3 - 1 <= Z.of_nat i ->
             nth_error ma i
             = Some (Some (arithmetic_mean
                             (window_at [1; 2; 3; 4; 5]%float 3 (Z.of_nat i))))).
Proof.
  apply (proj1 simpleMovingAverage_spec [1; 2; 3; 4; 5]%float 3). cbn. lia.
Defined.

(** C5. [buildOrder] returns no order exactly when the action is hold or
    the position size is [<= 0]; otherwise the order takes its side from
    the action, is a market order, and carries the position size, the
    latest price and the stop-loss and take-profit fields as they are. *)
Theorem buildOrder_spec (computation : StrategyComputation) :
  (buildOrder computation = None
   <-> action computation = hold
       \/ (positionSize computation <=? 0)%float = true)
  /\ (~ (action computation = hold
         \/ (positionSize computation <=? 0)%float = true) <->
      buildOrder computation
      = Some {| side := action computation;
                type := market;
                size := positionSize computation;
                price := latestPrice computation;
                order_stopLoss := stopLoss computation;
                order_takeProfit := takeProfit computation |}).
Proof.
  unfold buildOrder.
  destruct (action computation) eqn:Ha,
    (positionSize computation <=? 0)%float eqn:Hp; cbn [Action_eqb orb];
    intuition congruence.
Qed.

(** C1. On a non-empty candle sequence with positive periods, the action
    and the kind of reason returned are those of the five-case priority
    policy applied to the fast and slow averages at the last index and
    the one before it. In the fifth case (hold), two current averages
    that are both defined and are numbers (not NaN) are equal. *)
Theorem evaluateStrategy_priority_policy
    (candles : list OHLCVRecord) (config : StrategyConfig) :
  candles <> [] -> 0 < fastLength config -> 0 < slowLength config ->
  let closes := map close candles in
  let last_index := Z.of_nat (length candles) - 1 in
  let curFast := sma_value closes (fastLength config) last_index in
  let curSlow := sma_value closes (slowLength config) last_index in
  let prevFast := sma_value closes (fastLength config) (last_index - 1) in
  let prevSlow := sma_value closes (slowLength config) (last_index - 1) in
  exists comp,
    evaluateStrategy candles config = Ok comp
    /\ (action comp, kind_of (reason comp))
       = priority_policy curFast curSlow prevFast prevSlow
    /\ (action comp = hold ->
        forall cf cs, curFast = Some cf -> curSlow = Some cs ->
        is_nan cf = false -> is_nan cs = false -> (cf =? cs)%float = true).
Proof.
  intros Hne Hf Hs closes last_index curFast curSlow prevFast prevSlow.
  destruct (evaluateStrategy_fields candles config Hne) as (comp & E & _ & _ & Sig & _);
    [lia | lia |].
  fold closes last_index curFast curSlow prevFast prevSlow in Sig.
  exists comp. split; [exact E|].
  assert (P : (action comp, kind_of (reason comp))
              = priority_policy curFast curSlow prevFast prevSlow).
  { rewrite <- signal_policy, <- Sig. reflexivity. }
  split; [exact P|].
  intros Hhold cf cs Ecf Ecs Ncf Ncs.
  rewrite Hhold, Ecf, Ecs in P. unfold priority_policy in P.
  cbn [compare_defined] in P. unfold JS.gtb in P.
  destruct (number_trichotomy cf cs Ncf Ncs) as [L|[L|L]]; [| | exact L];
    rewrite L in P;
    repeat match type of P with
      | context [if ?b then _ else _] => destruct b; try discriminate
      end.
Qed.

Lemma evaluateStrategy_priority_policy_witness :
  let candles := map candle [3; 2; 1; 5]%float in
  let config := cfg 1 2 1000%float 10%float in
  let closes := map close candles in
  exists comp,
    evaluateStrategy candles config = Ok comp
    /\ (action comp, kind_of (reason comp))
       = priority_policy (sma_value closes 1 3) (sma_value closes 2 3)
                         (sma_value closes 1 2) (sma_value closes 2 2)
    /\ (action comp = hold ->
        forall cf cs, sma_value closes 1 3 = Some cf -> sma_value closes 2 3 = Some cs ->
        is_nan cf = false -> is_nan cs = false -> (cf =? cs)%float = true).
Proof.
  apply (evaluateStrategy_priority_policy
           (map candle [3; 2; 1; 5]%float) (cfg 1 2 1000%float 10%float));
    [discriminate | reflexivity | reflexivity].
Defined.

(** The construction of section 8: closes 3, 2, 1, 5 with periods 1 and 2
    put the fast average below the slow one at index 2 and above it at
    index 3, a bullish crossover; the mirrored closes give the bearish one. *)
Example bullish_crossover_run :
  exists comp,
    evaluateStrategy (map candle [3; 2; 1; 5]%float) (cfg 1 2 1000%float 10%float)
    = Ok comp
    /\ action comp = buy /\ kind_of (reason comp) = bullish_crossover.
Proof. eexists. split; [vm_compute; reflexivity | split; reflexivity]. Qed.

Example bearish_crossover_run :
  exists comp,
    evaluateStrategy (map candle [1; 2; 3; 1]%float) (cfg 1 2 1000%float 10%float)
    = Ok comp
    /\ action comp = sell /\ kind_of (reason comp) = bearish_crossover.
Proof. eexists. split; [vm_compute; reflexivity | split; reflexivity]. Qed.

(** In general: whenever the averages flip from fast <= slow to
    fast > slow between the last two indices the result is a buy with a
    bullish-crossover reason, and the mirrored flip gives a sell. *)
Lemma crossover_flip (candles : list OHLCVRecord) (config : StrategyConfig)
    (cf cs pf ps : JS.number) :
  candles <> [] -> 0 < fastLength config -> 0 < slowLength config ->
  let closes := map close candles in
  let last_index := Z.of_nat (length candles) - 1 in
  sma_value closes (fastLength config) last_index = Some cf ->
  sma_value closes (slowLength config) last_index = Some cs ->
  sma_value closes (fastLength config) (last_index - 1) = Some pf ->
  sma_value closes (slowLength config) (last_index - 1) = Some ps ->
  exists comp,
    evaluateStrategy candles config = Ok comp
    /\ ((pf <=? ps)%float = true -> JS.gtb cf cs = true ->
        action comp = buy /\ kind_of (reason comp) = bullish_crossover)
    /\ ((ps <=? pf)%float = true -> (cf <? cs)%float = true ->
        action comp = sell /\ kind_of (reason comp) = bearish_crossover).
Proof.
  intros Hne Hf Hs closes last_index Ecf Ecs Epf Eps.
  destruct (evaluateStrategy_fields candles config Hne) as (comp & E & _ & _ & Sig & _);
    [lia | lia |].
  fold closes last_index in Sig. rewrite Ecf, Ecs, Epf, Eps in Sig.
  exists comp. split; [exact E|].
  cbn [signal both_defined] in Sig. unfold JS.geb in Sig.
  split; intros H1 H2; rewrite H1 in Sig; cbn [andb] in Sig.
  - rewrite H2 in Sig. injection Sig as -> ->. split; reflexivity.
  - assert (G : JS.gtb cf cs = false).
    { apply leb_gtb_false, ltb_leb, H2. }
    rewrite G, H2, andb_false_r in Sig. injection Sig as -> ->. split; reflexivity.
Qed.

(** The scenario of section 8: closes 1..10 cut at index 4, periods 3 and
    5: fast 4 above slow 3 with no earlier slow value, a continuation. *)
Example continuation_run :
  exists comp,
    evaluateStrategy (map candle [1; 2; 3; 4; 5]%float) (cfg 3 5 1000%float 10%float)
    = Ok comp
    /\ nth_error (fastMA comp) 4 = Some (Some 4%float)
    /\ nth_error (slowMA comp) 4 = Some (Some 3%float)
    /\ nth_error (slowMA comp) 3 = Some None
    /\ action comp = buy /\ kind_of (reason comp) = continuation_above.
Proof. eexists. split; [vm_compute; reflexivity | repeat split; reflexivity]. Qed.

(** C3. On a non-empty candle sequence with positive periods, the
    position size is [capital * clamp(riskPercent / 100, 0, 1) / latest
    close] rounded to 6 decimal places when the latest close is strictly
    positive, and 0 when it is [<= 0]; a risk of 150 gives the same
    position size as a risk of 100. *)
Theorem positionSize_formula (candles : list OHLCVRecord) (config : StrategyConfig) :
  candles <> [] -> 0 < fastLength config -> 0 < slowLength config ->
  (exists comp,
      evaluateStrategy candles config = Ok comp
      /\ ((0 <? latest_close candles)%float = true ->
          positionSize comp
          = round_dp (capital config * clamp (riskPercent config / 100) 0 1
                      / latest_close candles)%float 6)
      /\ ((latest_close candles <=? 0)%float = true ->
          positionSize comp = 0%float))
  /\ (exists comp150 comp100,
      evaluateStrategy candles (set_riskPercent config 150%float) = Ok comp150
      /\ evaluateStrategy candles (set_riskPercent config 100%float) = Ok comp100
      /\ positionSize comp150 = positionSize comp100).
Proof.
  intros Hne Hf Hs. split.
  - destruct (evaluateStrategy_fields candles config Hne)
      as (comp & E & _ & _ & _ & _ & Size & _); [lia | lia |].
    exists comp. split; [exact E|]. rewrite Size. split; intros H.
    + unfold JS.gtb. rewrite H. reflexivity.
    + rewrite (leb_gtb_false _ _ H). reflexivity.
  - destruct (evaluateStrategy_fields candles (set_riskPercent config 150%float) Hne)
      as (c150 & E150 & _ & _ & _ & _ & S150 & _); [cbn; lia | cbn; lia |].
    destruct (evaluateStrategy_fields candles (set_riskPercent config 100%float) Hne)
      as (c100 & E100 & _ & _ & _ & _ & S100 & _); [cbn; lia | cbn; lia |].
    exists c150, c100. split; [exact E150|]. split; [exact E100|].
    rewrite S150, S100. cbn [capital riskPercent set_riskPercent].
    replace (clamp (150 / 100) 0 1)%float with (clamp (100 / 100) 0 1)%float
      by (vm_compute; reflexivity).
    reflexivity.
Qed.

Lemma positionSize_formula_witness :
  (exists comp,
      evaluateStrategy (map candle [1; 2; 4]%float) (cfg 1 2 1000%float 10%float)
      = Ok comp
      /\ ((0 <? latest_close (map candle [1; 2; 4]%float))%float = true ->
          positionSize comp
          = round_dp (1000 * clamp (10 / 100) 0 1
                      / latest_close (map candle [1; 2; 4]%float))%float 6)
      /\ ((latest_close (map candle [1; 2; 4]%float) <=? 0)%float = true ->
          positionSize comp = 0%float))
  /\ (exists comp150 comp100,
      evaluateStrategy (map candle [1; 2; 4]%float)
        (set_riskPercent (cfg 1 2 1000%float 10%float) 150%float) = Ok comp150
      /\ evaluateStrategy (map candle [1; 2; 4]%float)
           (set_riskPercent (cfg 1 2 1000%float 10%float) 100%float) = Ok comp100
      /\ positionSize comp150 = positionSize comp100).
Proof.
  apply (positionSize_formula (map candle [1; 2; 4]%float) (cfg 1 2 1000%float 10%float));
    [discriminate | reflexivity | reflexivity].
Defined.

Example positionSize_run :
  exists comp,
    evaluateStrategy (map candle [1; 2; 4]%float) (cfg 1 2 1000%float 10%float)
    = Ok comp
    /\ positionSize comp = 25%float.
Proof. eexists. split; [vm_compute; reflexivity | reflexivity]. Qed.

(** Five flat candles at 100 with periods 3 and 5: both averages are 100,
    the action is hold, and yet a stop-loss (101) and a take-profit (97)
    are returned. *)
Lemma hold_has_stop_and_take :
  exists comp,
    evaluateStrategy (map candle [100; 100; 100; 100; 100]%float)
      (cfg 3 5 1000%float 10%float) = Ok comp
    /\ action comp = hold
    /\ stopLoss comp = Some 101%float
    /\ takeProfit comp = Some 97%float.
Proof. eexists. split; [vm_compute; reflexivity | repeat split; reflexivity]. Qed.

(** C4, amended. On a non-empty candle sequence with positive periods,
    when the action is hold the stop-loss and take-profit are computed as
    for a sell (highest recent high times 1.01, latest close times 0.97,
    rounded to 2 decimals) and are absent only when that value is not
    finite. *)
Theorem hold_stop_take_as_sell (candles : list OHLCVRecord) (config : StrategyConfig) :
  candles <> [] -> 0 < fastLength config -> 0 < slowLength config ->
  exists comp,
    evaluateStrategy candles config = Ok comp
    /\ (action comp = hold ->
        let stop :=
          round_dp (JS.Math_max (map high (trailing candles (slowLength config)))
                    * 1.01)%float 2 in
        let take := round_dp (latest_close candles * 0.97)%float 2 in
        stopLoss comp = (if JS.isFinite stop then Some stop else None)
        /\ takeProfit comp = (if JS.isFinite take then Some take else None)).
Proof.
  intros Hne Hf Hs.
  destruct (evaluateStrategy_fields candles config Hne)
    as (comp & E & _ & _ & _ & _ & _ & Stop & Take); [lia | lia |].
  exists comp. split; [exact E|]. intros Hhold stop take.
  rewrite Stop, Take, Hhold. split; reflexivity.
Qed.

Lemma hold_stop_take_as_sell_witness :
  exists comp,
    evaluateStrategy (map candle [100; 100; 100; 100; 100]%float)
      (cfg 3 5 1000%float 10%float) = Ok comp
    /\ (action comp = hold ->
        let stop :=
          round_dp (JS.Math_max
                      (map high (trailing (map candle [100; 100; 100; 100; 100]%float) 5))
                    * 1.01)%float 2 in
        let take :=
          round_dp (latest_close (map candle [100; 100; 100; 100; 100]%float)
                    * 0.97)%float 2 in
        stopLoss comp = (if JS.isFinite stop then Some stop else None)
        /\ takeProfit comp = (if JS.isFinite take then Some take else None)).
Proof.
  apply (hold_stop_take_as_sell (map candle [100; 100; 100; 100; 100]%float)
           (cfg 3 5 1000%float 10%float));
    [discriminate | reflexivity | reflexivity].
Defined.

(** Five candles at price 0 with periods 3 and 5: the latest close is
    [<= 0], the position size is 0, and the stop-loss and take-profit are
    present (both 0), not omitted. *)
Lemma nonpositive_price_keeps_stop_and_take :
  exists comp,
    evaluateStrategy (map candle [0; 0; 0; 0; 0]%float)
      (cfg 3 5 1000%float 10%float) = Ok comp
    /\ (latest_close (map candle [0; 0; 0; 0; 0]%float) <=? 0)%float = true
    /\ positionSize comp = 0%float
    /\ stopLoss comp = Some 0%float
    /\ takeProfit comp = Some 0%float.
Proof. eexists. split; [vm_compute; reflexivity | repeat split; reflexivity]. Qed.

(** C8, amended. On a non-empty candle sequence whose latest close is
    [<= 0], with positive periods, the evaluation does not fail: it
    returns a computation whose position size is 0; its stop-loss and
    take-profit are the usual rounded values (by the action: buy or not),
    omitted exactly when not finite, so that a value that is present is
    never NaN or an infinity. *)
Theorem nonpositive_price_absorbed (candles : list OHLCVRecord) (config : StrategyConfig) :
  candles <> [] -> 0 < fastLength config -> 0 < slowLength config ->
  (latest_close candles <=? 0)%float = true ->
  exists comp,
    evaluateStrategy candles config = Ok comp
    /\ positionSize comp = 0%float
    /\ (let recent := trailing candles (slowLength config) in
        let stop :=
          if Action_eqb (action comp) buy
          then round_dp (JS.Math_min (map low recent) * 0.99)%float 2
          else round_dp (JS.Math_max (map high recent) * 1.01)%float 2 in
        let take :=
          if Action_eqb (action comp) buy
          then round_dp (latest_close candles * 1.03)%float 2
          else round_dp (latest_close candles * 0.97)%float 2 in
        stopLoss comp = (if JS.isFinite stop then Some stop else None)
        /\ takeProfit comp = (if JS.isFinite take then Some take else None))
    /\ (forall v, stopLoss comp = Some v -> JS.isFinite v = true)
    /\ (forall v, takeProfit comp = Some v -> JS.isFinite v = true).
Proof.
  intros Hne Hf Hs Hprice.
  destruct (evaluateStrategy_fields candles config Hne)
    as (comp & E & _ & _ & _ & _ & Size & Stop & Take); [lia | lia |].
  exists comp. split; [exact E|].
  split; [rewrite Size, (leb_gtb_false _ _ Hprice); reflexivity|].
  assert (F : forall x v, finite_or_undefined x = Some v -> JS.isFinite v = true).
  { intros x v. unfold finite_or_undefined.
    destruct (JS.isFinite x) eqn:Fx; [|discriminate].
    intros [= <-]. exact Fx. }
  rewrite Stop, Take.
  split; [split; reflexivity|].
  split; intros v Hv; apply (F _ _ Hv).
Qed.

Lemma nonpositive_price_absorbed_witness :
  exists comp,
    evaluateStrategy (map candle [0; 0; 0; 0; 0]%float)
      (cfg 3 5 1000%float 10%float) = Ok comp
    /\ positionSize comp = 0%float
    /\ (let recent := trailing (map candle [0; 0; 0; 0; 0]%float) 5 in
        let stop :=
          if Action_eqb (action comp) buy
          then round_dp (JS.Math_min (map low recent) * 0.99)%float 2
          else round_dp (JS.Math_max (map high recent) * 1.01)%float 2 in
        let take :=
          if Action_eqb (action comp) buy
          then round_dp (latest_close (map candle [0; 0; 0; 0; 0]%float) * 1.03)%float 2
          else round_dp (latest_close (map candle [0; 0; 0; 0; 0]%float) * 0.97)%float 2 in
        stopLoss comp = (if JS.isFinite stop then Some stop else None)
        /\ takeProfit comp = (if JS.isFinite take then Some take else None))
    /\ (forall v, stopLoss comp = Some v -> JS.isFinite v = true)
    /\ (forall v, takeProfit comp = Some v -> JS.isFinite v = true).
Proof.
  apply (nonpositive_price_absorbed (map candle [0; 0; 0; 0; 0]%float)
           (cfg 3 5 1000%float 10%float));
    [discriminate | reflexivity | reflexivity | reflexivity].
Defined.

(** The position size of a computation, in terms of [position_size]. *)
Lemma positionSize_position_size (candles : list OHLCVRecord) (config : StrategyConfig) :
  candles <> [] -> 0 < fastLength config -> 0 < slowLength config ->
  exists comp,
    evaluateStrategy candles config = Ok comp
    /\ latestPrice comp = latest_close candles
    /\ positionSize comp
       = position_size (capital config) (riskPercent config) (latest_close candles).
Proof.
  intros Hne Hf Hs.
  destruct (evaluateStrategy_fields candles config Hne)
    as (comp & E & _ & _ & _ & Price & Size & _); [lia | lia |].
  exists comp. split; [exact E|]. split; [exact Price | exact Size].
Qed.

Lemma latest_close_app (earlier : list OHLCVRecord) (k : OHLCVRecord) :
  latest_close (earlier ++ [k]) = close k.
Proof. unfold latest_close. now rewrite last_last. Qed.

(** Two sequences that differ only in the latest close, 0 against 1, with
    capital 1000 at 10% risk: the position size is 0 at price 0 and 100
    at price 1, so it rises with the price. *)
Lemma positionSize_rises_from_zero_price :
  exists comp1 comp2,
    evaluateStrategy
      (map candle [1; 1; 1; 1]%float ++ [set_close (candle 1%float) 0%float])
      (cfg 3 5 1000%float 10%float) = Ok comp1
    /\ evaluateStrategy
         (map candle [1; 1; 1; 1]%float ++ [set_close (candle 1%float) 1%float])
         (cfg 3 5 1000%float 10%float) = Ok comp2
    /\ (latestPrice comp1 <=? latestPrice comp2)%float = true
    /\ positionSize comp1 = 0%float
    /\ positionSize comp2 = 100%float
    /\ (positionSize comp2 <=? positionSize comp1)%float = false.
Proof.
  eexists _, _. split; [vm_compute; reflexivity|].
  split; [vm_compute; reflexivity|]. repeat split; reflexivity.
Qed.

(** Why the side conditions: with a negative capital the size falls as
    the risk rises, and with a risk that is NaN the size is NaN, which
    compares with nothing. *)
Example negative_capital_reverses_risk :
  position_size (-1000)%float 10%float 4%float = (-25)%float
  /\ position_size (-1000)%float 50%float 4%float = (-125)%float
  /\ (position_size (-1000) 10 4 <=? position_size (-1000) 50 4)%float = false.
Proof. repeat split; vm_compute; reflexivity. Qed.

Example nan_risk_is_unordered :
  is_nan (position_size 1000%float nan 4%float) = true
  /\ (position_size 1000 nan 4 <=? position_size 2000 nan 4)%float = false.
Proof. split; vm_compute; reflexivity. Qed.

(** C9, amended. With the candles fixed, the position size is
    non-decreasing in the capital (finite capitals, a risk that is not
    NaN) and, for a finite non-negative capital, in the risk percent;
    between two sequences that differ only in the latest close it is
    non-increasing in that close when the smaller close is strictly
    positive, the capital finite and non-negative and the risk not NaN. *)
Theorem positionSize_monotone :
  (forall candles config c1 c2,
      candles <> [] -> 0 < fastLength config -> 0 < slowLength config ->
      JS.isFinite c1 = true -> JS.isFinite c2 = true ->
      is_nan (riskPercent config) = false ->
      (c1 <=? c2)%float = true ->
      exists comp1 comp2,
        evaluateStrategy candles (set_capital config c1) = Ok comp1
        /\ evaluateStrategy candles (set_capital config c2) = Ok comp2
        /\ (positionSize comp1 <=? positionSize comp2)%float = true)
  /\ (forall candles config r1 r2,
      candles <> [] -> 0 < fastLength config -> 0 < slowLength config ->
      JS.isFinite (capital config) = true ->
      (0 <=? capital config)%float = true ->
      (r1 <=? r2)%float = true ->
      exists comp1 comp2,
        evaluateStrategy candles (set_riskPercent config r1) = Ok comp1
        /\ evaluateStrategy candles (set_riskPercent config r2) = Ok comp2
        /\ (positionSize comp1 <=? positionSize comp2)%float = true)
  /\ (forall earlier latest config p1 p2,
      0 < fastLength config -> 0 < slowLength config ->
      JS.isFinite (capital config) = true ->
      (0 <=? capital config)%float = true ->
      is_nan (riskPercent config) = false ->
      (0 <? p1)%float = true -> (p1 <=? p2)%float = true ->
      exists comp1 comp2,
        evaluateStrategy (earlier ++ [set_close latest p1]) config = Ok comp1
        /\ evaluateStrategy (earlier ++ [set_close latest p2]) config = Ok comp2
        /\ (positionSize comp2 <=? positionSize comp1)%float = true).
Proof.
  split; [|split].
  - intros candles config c1 c2 Hne Hf Hs F1 F2 Nr H.
    destruct (positionSize_position_size candles (set_capital config c1) Hne Hf Hs)
      as (comp1 & E1 & S1).
    destruct (positionSize_position_size candles (set_capital config c2) Hne Hf Hs)
      as (comp2 & E2 & S2).
    exists comp1, comp2. split; [exact E1|]. split; [exact E2|].
    destruct S1 as [_ S1], S2 as [_ S2].
    rewrite S1, S2. cbn [capital riskPercent set_capital].
    apply position_size_mono_capital; assumption.
  - intros candles config r1 r2 Hne Hf Hs Fc Pc H.
    destruct (positionSize_position_size candles (set_riskPercent config r1) Hne Hf Hs)
      as (comp1 & E1 & S1).
    destruct (positionSize_position_size candles (set_riskPercent config r2) Hne Hf Hs)
      as (comp2 & E2 & S2).
    exists comp1, comp2. split; [exact E1|]. split; [exact E2|].
    destruct S1 as [_ S1], S2 as [_ S2].
    rewrite S1, S2. cbn [capital riskPercent set_riskPercent].
    apply position_size_mono_risk; assumption.
  - intros earlier latest config p1 p2 Hf Hs Fc Pc Nr P1 H.
    assert (N1 : earlier ++ [set_close latest p1] <> []) by (destruct earlier; discriminate).
    assert (N2 : earlier ++ [set_close latest p2] <> []) by (destruct earlier; discriminate).
    destruct (positionSize_position_size _ config N1 Hf Hs) as (comp1 & E1 & S1).
    destruct (positionSize_position_size _ config N2 Hf Hs) as (comp2 & E2 & S2).
    exists comp1, comp2. split; [exact E1|]. split; [exact E2|].
    destruct S1 as [_ S1], S2 as [_ S2].
    rewrite S1, S2, !latest_close_app. cbn [close set_close].
    apply position_size_anti_price; assumption.
Qed.

Lemma positionSize_monotone_witness :
  (exists comp1 comp2,
      evaluateStrategy (map candle [1; 2; 4]%float)
        (set_capital (cfg 1 2 1000%float 10%float) 500%float) = Ok comp1
      /\ evaluateStrategy (map candle [1; 2; 4]%float)
           (set_capital (cfg 1 2 1000%float 10%float) 2000%float) = Ok comp2
      /\ (positionSize comp1 <=? positionSize comp2)%float = true)
  /\ (exists comp1 comp2,
      evaluateStrategy (map candle [1; 2; 4]%float)
        (set_riskPercent (cfg 1 2 1000%float 10%float) 5%float) = Ok comp1
      /\ evaluateStrategy (map candle [1; 2; 4]%float)
           (set_riskPercent (cfg 1 2 1000%float 10%float) 150%float) = Ok comp2
      /\ (positionSize comp1 <=? positionSize comp2)%float = true)
  /\ (exists comp1 comp2,
      evaluateStrategy (map candle [1; 2]%float ++ [set_close (candle 4%float) 3%float])
        (cfg 1 2 1000%float 10%float) = Ok comp1
      /\ evaluateStrategy (map candle [1; 2]%float ++ [set_close (candle 4%float) 7%float])
           (cfg 1 2 1000%float 10%float) = Ok comp2
      /\ (positionSize comp2 <=? positionSize comp1)%float = true).
Proof.
  split; [|split].
  - apply (proj1 positionSize_monotone (map candle [1; 2; 4]%float)
             (cfg 1 2 1000%float 10%float) 500%float 2000%float);
      (discriminate || reflexivity).
  - apply (proj1 (proj2 positionSize_monotone) (map candle [1; 2; 4]%float)
             (cfg 1 2 1000%float 10%float) 5%float 150%float);
      (discriminate || reflexivity).
  - apply (proj2 (proj2 positionSize_monotone) (map candle [1; 2]%float)
             (candle 4%float) (cfg 1 2 1000%float 10%float) 3%float 7%float);
      reflexivity.
Defined.

(** In the data model the capital of a configuration is a number of at
    least 10 and its risk percent lies between 0.1 and 100. What follows
    needs less of them: a finite capital and a risk percent that is not
    NaN. The position size, rounded to six decimals, is then not NaN, and
    an order is built only when it is above zero. *)



(** Why the capital has to be a number: the filter of [buildOrder] is
    [positionSize <= 0], and a NaN capital, which the data model does not
    have, would give a NaN position size that this comparison lets
    through. *)
Example nan_capital_run :
  exists comp o,
    evaluateStrategy (map candle [100; 101; 102; 103; 104]%float)
      (cfg 3 5 nan 10%float) = Ok comp
    /\ buildOrder comp = Some o
    /\ is_nan (size o) = true.
Proof.
  eexists _, _. split; [vm_compute; reflexivity|].
  split; [vm_compute; reflexivity|]. reflexivity.
Qed.

Example order_run :
  exists comp,
    evaluateStrategy (map candle [100; 101; 102; 103; 104]%float)
      (cfg 3 5 1000%float 10%float) = Ok comp
    /\ buildOrder comp
       = Some {| side := buy; type := market; size := 0.961538%float;
                 price := 104%float;
                 order_stopLoss := Some 99%float;
                 order_takeProfit := Some 107.12%float |}.
Proof. eexists. split; vm_compute; reflexivity. Qed.

(** ** Further properties of the strategy engine *)

(** *** Helper lemmas *)

Lemma map_seq_const {A} (f : nat -> A) (a : A) (n : nat) :
  (forall k, (k < n)%nat -> f k = a) -> map f (seq 0 n) = repeat a n.
Proof.
  intros H. apply nth_ext with (d := f 0%nat) (d' := a).
  - now rewrite length_map, length_seq, repeat_length.
  - intros k Hk. rewrite length_map, length_seq in Hk.
    rewrite (map_nth f), seq_nth, nth_repeat by assumption. now apply H.
Qed.

Lemma slice_app_l {A} (xs more : list A) (start stop : Z) :
  0 <= start <= stop -> stop <= Z.of_nat (length xs) ->
  JS.slice (xs ++ more) start stop = JS.slice xs start stop.
Proof.
  intros H1 H2. unfold JS.slice, JS.clamp_index. rewrite length_app.
  destruct (Z.ltb_spec start 0); [lia|]. destruct (Z.ltb_spec stop 0); [lia|].
  rewrite !Z.min_l by lia.
  rewrite skipn_app.
  replace (Z.to_nat start - length xs)%nat with 0%nat by lia. cbn [skipn].
  rewrite firstn_app.
  replace (Z.to_nat (stop - start) - length (skipn (Z.to_nat start) xs))%nat
    with 0%nat by (rewrite length_skipn; lia).
  cbn [firstn]. now rewrite app_nil_r.
Qed.

Lemma sma_entry_app values more period i :
  0 <= i < Z.of_nat (length values) -> 1 <= period ->
  sma_entry (values ++ more) period i = sma_entry values period i.
Proof.
  intros Hi HP. unfold sma_entry.
  destruct (Z.ltb_spec (i + 1) period); [reflexivity|].
  rewrite slice_app_l by lia. reflexivity.
Qed.

Lemma ltb_irrefl (x : float) : (x <? x)%float = false.
Proof.
  rewrite ltb_spec. unfold SFltb.
  pose proof (SFcompare_antisym (Prim2SF x) (Prim2SF x)) as H.
  destruct (SFcompare (Prim2SF x) (Prim2SF x)) as [[]|]; try reflexivity.
  discriminate.
Qed.

Lemma signal_equal (x : JS.number) (pf ps : option JS.number) :
  signal (Some x) (Some x) pf ps = (hold, NoActionableCrossover).
Proof.
  unfold signal, JS.gtb. rewrite !ltb_irrefl, !andb_false_r. reflexivity.
Qed.

Lemma signal_undefined_l (ls pf ps : option JS.number) :
  signal None ls pf ps = (hold, NoActionableCrossover).
Proof. reflexivity. Qed.

Lemma signal_undefined_r (lf pf ps : option JS.number) :
  signal lf None pf ps = (hold, NoActionableCrossover).
Proof. destruct lf; reflexivity. Qed.

Lemma buildOrder_hold (comp : StrategyComputation) :
  action comp = hold -> buildOrder comp = None.
Proof. intros H. unfold buildOrder. rewrite H. reflexivity. Qed.

(** X1. A period longer than the sequence gives a null at every index. *)
Theorem simpleMovingAverage_short_input (values : list JS.number) (P : Z) :
  Z.of_nat (length values) < P ->
  simpleMovingAverage values P = Ok (repeat None (length values)).
Proof.
  intros H. rewrite simpleMovingAverage_ok by lia.
  rewrite sma_loop_entries. cbn [app]. f_equal.
  apply map_seq_const. intros k Hk. unfold sma_entry.
  destruct (Z.ltb_spec (0 + Z.of_nat k + 1) P); [reflexivity | lia].
Qed.

Lemma simpleMovingAverage_short_input_witness :
  simpleMovingAverage [1; 2; 3]%float 5 = Ok [None; None; None].
Proof.
  apply (simpleMovingAverage_short_input [1; 2; 3]%float 5). cbn. lia.
Defined.

(** X2. Values appended to the sequence leave the averages already
    computed as they are: the series of the longer sequence starts with
    the series of the shorter one. *)
Theorem simpleMovingAverage_prefix (values more : list JS.number) (P : Z)
    (ma : list (option JS.number)) :
  simpleMovingAverage values P = Ok ma ->
  exists tail,
    simpleMovingAverage (values ++ more) P = Ok (ma ++ tail)
    /\ length tail = length more.
Proof.
  unfold simpleMovingAverage. destruct (Z.leb_spec P 0) as [|HP]; [discriminate|].
  intros [= <-]. rewrite !sma_loop_entries. cbn [app].
  rewrite length_app, seq_app, map_app. cbn [Nat.add].
  eexists. split.
  - f_equal. f_equal. apply map_ext_in. intros k Hk. apply in_seq in Hk.
    apply sma_entry_app; lia.
  - now rewrite length_map, length_seq.
Qed.

Lemma simpleMovingAverage_prefix_witness :
  exists tail,
    simpleMovingAverage ([1; 2; 3]%float ++ [4; 5]%float) 2
    = Ok ([None; Some 1.5%float; Some 2.5%float] ++ tail)
    /\ length tail = length [4; 5]%float.
Proof.
  apply (simpleMovingAverage_prefix [1; 2; 3]%float [4; 5]%float 2).
  vm_compute. reflexivity.
Defined.

Lemma evaluateStrategy_cases (candles : list OHLCVRecord) (config : StrategyConfig) :
  (candles = [] /\ evaluateStrategy candles config = Throw NoData)
  \/ (candles <> [] /\ (fastLength config <= 0 \/ slowLength config <= 0)
      /\ evaluateStrategy candles config = Throw InvalidPeriod)
  \/ (candles <> [] /\ 0 < fastLength config /\ 0 < slowLength config
      /\ exists comp, evaluateStrategy candles config = Ok comp).
Proof.
  destruct candles as [|c t]; [left; split; reflexivity|]. right.
  assert (Hne : c :: t <> []) by discriminate.
  destruct (Z.leb_spec (fastLength config) 0) as [Hf|Hf].
  { left. split; [exact Hne|]. split; [now left|].
    unfold evaluateStrategy, simpleMovingAverage. cbn [length Nat.eqb].
    destruct (Z.leb_spec (fastLength config) 0); [reflexivity | lia]. }
  destruct (Z.leb_spec (slowLength config) 0) as [Hs|Hs].
  { left. split; [exact Hne|]. split; [now right|].
    unfold evaluateStrategy, simpleMovingAverage. cbn [length Nat.eqb].
    destruct (Z.leb_spec (fastLength config) 0); [lia|]. cbn [bind].
    destruct (Z.leb_spec (slowLength config) 0); [reflexivity | lia]. }
  right. split; [exact Hne|]. split; [exact Hf|]. split; [exact Hs|].
  destruct (evaluateStrategy_fields (c :: t) config Hne) as (comp & E & _); [lia | lia |].
  exists comp. exact E.
Qed.

(** X3. The evaluation throws the no-data message exactly on the empty
    sequence and the invalid-period message exactly on a non-empty
    sequence with a non-positive period, the empty sequence taking
    precedence. With a slow period of at most 400, the bound of the data
    model, under which the recent window spread into [Math.min] and
    [Math.max] holds at most 400 arguments, it throws nothing else and
    returns a computation on every other input. *)
Theorem evaluateStrategy_throws (candles : list OHLCVRecord) (config : StrategyConfig) :
  (evaluateStrategy candles config = Throw NoData <-> candles = [])
  /\ (evaluateStrategy candles config = Throw InvalidPeriod
      <-> candles <> [] /\ (fastLength config <= 0 \/ slowLength config <= 0))
  /\ (slowLength config <= 400 ->
      ((exists comp, evaluateStrategy candles config = Ok comp)
       <-> candles <> [] /\ 0 < fastLength config /\ 0 < slowLength config)
      /\ (forall message, evaluateStrategy candles config = Throw message ->
            message = NoData \/ message = InvalidPeriod)).
Proof.
  assert (D : NoData <> InvalidPeriod) by discriminate.
  destruct (evaluateStrategy_cases candles config)
    as [(Hc & E)|[(Hc & Hp & E)|(Hc & Hf & Hs & comp & E)]]; rewrite E.
  - split; [tauto|]. split; [split; [congruence | tauto]|]. intros _.
    split; [split; [intros [comp' H]; discriminate | tauto]|].
    intros message [= <-]. now left.
  - split; [split; [congruence | tauto]|]. split; [tauto|]. intros _.
    split; [split; [intros [comp' H]; discriminate | lia]|].
    intros message [= <-]. now right.
  - split; [split; [discriminate | tauto]|].
    split; [split; [discriminate | lia]|]. intros _.
    split; [split; [tauto | intros _; now exists comp]|].
    discriminate.
Qed.

Lemma evaluateStrategy_throws_witness :
  ((exists comp,
       evaluateStrategy (map candle [100; 101; 102; 103; 104]%float)
         (cfg 3 5 1000%float 10%float) = Ok comp)
   <-> map candle [100; 101; 102; 103; 104]%float <> [] /\ 0 < 3 /\ 0 < 5)
  /\ (forall message,
        evaluateStrategy (map candle [100; 101; 102; 103; 104]%float)
          (cfg 3 5 1000%float 10%float) = Throw message ->
        message = NoData \/ message = InvalidPeriod).
Proof.
  apply (proj2 (proj2 (evaluateStrategy_throws
                         (map candle [100; 101; 102; 103; 104]%float)
                         (cfg 3 5 1000%float 10%float)))).
  cbn. lia.
Defined.

(** X4. With fewer candles than one of the periods the action is hold and
    no order is built. *)
Theorem short_history_holds (candles : list OHLCVRecord) (config : StrategyConfig) :
  candles <> [] -> 0 < fastLength config -> 0 < slowLength config ->
  Z.of_nat (length candles) < Z.max (fastLength config) (slowLength config) ->
  exists comp,
    evaluateStrategy candles config = Ok comp
    /\ action comp = hold
    /\ reason comp = NoActionableCrossover
    /\ buildOrder comp = None.
Proof.
  intros Hne Hf Hs Hshort.
  destruct (evaluateStrategy_fields candles config Hne) as (comp & E & _ & _ & Sig & _);
    [lia | lia |].
  exists comp. split; [exact E|].
  assert (U : forall P, Z.of_nat (length candles) < P ->
                sma_value (map close candles) P (Z.of_nat (length candles) - 1) = None).
  { intros P HP. unfold sma_value.
    destruct (Z.ltb_spec (Z.of_nat (length candles) - 1) (P - 1)); [|lia].
    now rewrite orb_true_r. }
  assert (A : (action comp, reason comp) = (hold, NoActionableCrossover)).
  { rewrite Sig.
    destruct (Z.max_spec (fastLength config) (slowLength config)) as [[_ M]|[_ M]];
      rewrite M in Hshort.
    - rewrite (U (slowLength config) Hshort). apply signal_undefined_r.
    - rewrite (U (fastLength config) Hshort). apply signal_undefined_l. }
  injection A as A R. repeat split; [exact A | exact R | apply buildOrder_hold, A].
Qed.

Lemma short_history_holds_witness :
  exists comp,
    evaluateStrategy (map candle [1; 2; 3; 4]%float) (cfg 3 5 1000%float 10%float)
    = Ok comp
    /\ action comp = hold
    /\ reason comp = NoActionableCrossover
    /\ buildOrder comp = None.
Proof.
  apply (short_history_holds (map candle [1; 2; 3; 4]%float) (cfg 3 5 1000%float 10%float));
    [discriminate | reflexivity | reflexivity | reflexivity].
Defined.

(** X5. With equal periods the two averages are the same series, so the
    action is hold on every input and no order is built. *)
Theorem equal_periods_hold (candles : list OHLCVRecord) (config : StrategyConfig) :
  candles <> [] -> 0 < fastLength config ->
  fastLength config = slowLength config ->
  exists comp,
    evaluateStrategy candles config = Ok comp
    /\ fastMA comp = slowMA comp
    /\ action comp = hold
    /\ reason comp = NoActionableCrossover
    /\ buildOrder comp = None.
Proof.
  intros Hne Hf Heq.
  destruct (evaluateStrategy_fields candles config Hne)
    as (comp & E & Ef & Es & Sig & _); [lia | lia |].
  exists comp. split; [exact E|].
  split; [now rewrite Ef, Es, Heq|].
  assert (A : (action comp, reason comp) = (hold, NoActionableCrossover)).
  { rewrite Sig, Heq.
    destruct (sma_value (map close candles) (slowLength config)
                (Z.of_nat (length candles) - 1)) as [x|].
    - apply signal_equal.
    - apply signal_undefined_l. }
  injection A as A R. repeat split; [exact A | exact R | apply buildOrder_hold, A].
Qed.

Lemma equal_periods_hold_witness :
  exists comp,
    evaluateStrategy (map candle [1; 2; 3; 4; 9]%float) (cfg 3 3 1000%float 10%float)
    = Ok comp
    /\ fastMA comp = slowMA comp
    /\ action comp = hold
    /\ reason comp = NoActionableCrossover
    /\ buildOrder comp = None.
Proof.
  apply (equal_periods_hold (map candle [1; 2; 3; 4; 9]%float) (cfg 3 3 1000%float 10%float));
    [discriminate | reflexivity | reflexivity].
Defined.

(** *** NaN *)

Lemma is_nan_eq (x : float) : is_nan x = true -> x = nan.
Proof.
  intros H. apply is_nan_Prim2SF in H.
  rewrite <- (SF2Prim_Prim2SF x), H. reflexivity.
Qed.

Lemma add_nan_l (y : float) : (nan + y)%float = nan.
Proof.
  apply is_nan_eq, is_nan_Prim2SF. rewrite add_spec. reflexivity.
Qed.

Lemma add_nan_r (x : float) : (x + nan)%float = nan.
Proof.
  apply is_nan_eq, is_nan_Prim2SF. rewrite add_spec.
  change (Prim2SF nan) with S754_nan. destruct (Prim2SF x); reflexivity.
Qed.

Lemma div_nan_l (y : float) : (nan / y)%float = nan.
Proof.
  apply is_nan_eq, is_nan_Prim2SF. rewrite div_spec. reflexivity.
Qed.

Lemma mul_nan_l (y : float) : (nan * y)%float = nan.
Proof.
  apply is_nan_eq, is_nan_Prim2SF. rewrite mul_spec. reflexivity.
Qed.

Lemma ltb_nan_l (y : float) : (nan <? y)%float = false.
Proof. rewrite ltb_spec. reflexivity. Qed.

Lemma ltb_nan_r (x : float) : (x <? nan)%float = false.
Proof.
  rewrite ltb_spec. change (Prim2SF nan) with S754_nan.
  unfold SFltb. destruct (Prim2SF x); reflexivity.
Qed.

Lemma fold_add_nan (xs : list float) : fold_left PrimFloat.add xs nan = nan.
Proof. induction xs as [|x xs IH]; [reflexivity|]. cbn. now rewrite add_nan_l. Qed.

Lemma fold_add_In_nan (xs : list float) (acc : float) :
  In nan xs -> fold_left PrimFloat.add xs acc = nan.
Proof.
  revert acc. induction xs as [|x xs IH]; intros acc; [easy|].
  intros [->|H]; cbn.
  - rewrite add_nan_r. apply fold_add_nan.
  - now apply IH.
Qed.

Lemma signal_nan_l (ls pf ps : option JS.number) :
  signal (Some nan) ls pf ps = (hold, NoActionableCrossover).
Proof.
  destruct ls as [y|]; [|reflexivity].
  unfold signal, JS.gtb. rewrite ltb_nan_l, ltb_nan_r, !andb_false_r. reflexivity.
Qed.

Lemma signal_nan_r (lf pf ps : option JS.number) :
  signal lf (Some nan) pf ps = (hold, NoActionableCrossover).
Proof.
  destruct lf as [x|]; [|reflexivity].
  unfold signal, JS.gtb. rewrite ltb_nan_l, ltb_nan_r, !andb_false_r. reflexivity.
Qed.

Lemma trailing_map {A B} (f : A -> B) (xs : list A) (n : Z) :
  trailing (map f xs) n = map f (trailing xs n).
Proof. unfold trailing. now rewrite length_map, skipn_map. Qed.

(** The last full window is the trailing part of the sequence. *)
Lemma window_at_last (values : list JS.number) (P : Z) :
  1 <= P <= Z.of_nat (length values) ->
  window_at values P (Z.of_nat (length values) - 1) = trailing values P.
Proof.
  intros H. rewrite <- slice_window by lia.
  unfold JS.slice, JS.clamp_index, trailing.
  destruct (Z.ltb_spec (Z.of_nat (length values) - 1 + 1 - P) 0); [lia|].
  destruct (Z.ltb_spec (Z.of_nat (length values) - 1 + 1) 0); [lia|].
  rewrite !Z.min_l by lia.
  replace (Z.to_nat (Z.of_nat (length values) - 1 + 1 - P))
    with (length values - Z.to_nat P)%nat by lia.
  apply firstn_all2. rewrite length_skipn. lia.
Qed.

(** A NaN among the last [P] values makes the last average undefined or
    NaN. *)
Lemma sma_value_last_nan (values : list JS.number) (P : Z) :
  1 <= P -> In nan (trailing values P) ->
  sma_value values P (Z.of_nat (length values) - 1) = None
  \/ sma_value values P (Z.of_nat (length values) - 1) = Some nan.
Proof.
  intros HP Hin. unfold sma_value.
  destruct ((Z.of_nat (length values) - 1 <? 0)
            || (Z.of_nat (length values) - 1 <? P - 1)) eqn:E; [now left|].
  right. apply orb_false_iff in E. destruct E as [E1 E2].
  apply Z.ltb_ge in E1, E2.
  rewrite window_at_last by lia. unfold arithmetic_mean.
  rewrite fold_add_In_nan by exact Hin. now rewrite div_nan_l.
Qed.

(** X6. A close that is NaN among the last [fastLength] closes, or among
    the last [slowLength] closes, makes the action hold, and no order is
    built. *)
Theorem nan_close_holds (candles : list OHLCVRecord) (config : StrategyConfig)
    (k : OHLCVRecord) :
  0 < fastLength config -> 0 < slowLength config ->
  In k (trailing candles (fastLength config))
  \/ In k (trailing candles (slowLength config)) ->
  is_nan (close k) = true ->
  exists comp,
    evaluateStrategy candles config = Ok comp
    /\ action comp = hold
    /\ reason comp = NoActionableCrossover
    /\ buildOrder comp = None.
Proof.
  intros Hf Hs Hin Hnan.
  assert (Hne : candles <> []).
  { intros ->. unfold trailing in Hin. rewrite !skipn_nil in Hin.
    destruct Hin as [[]|[]]. }
  destruct (evaluateStrategy_fields candles config Hne) as (comp & E & _ & _ & Sig & _);
    [lia | lia |].
  exists comp. split; [exact E|].
  assert (W : forall P, 1 <= P -> In k (trailing candles P) ->
                In nan (trailing (map close candles) P)).
  { intros P HP H. rewrite trailing_map, <- (is_nan_eq _ Hnan). now apply in_map. }
  assert (A : (action comp, reason comp) = (hold, NoActionableCrossover)).
  { rewrite Sig. rewrite <- (length_map close candles).
    destruct Hin as [H|H].
    - destruct (sma_value_last_nan (map close candles) (fastLength config))
        as [-> | ->]; [lia | apply W; [lia | exact H] | |].
      + apply signal_undefined_l.
      + apply signal_nan_l.
    - destruct (sma_value_last_nan (map close candles) (slowLength config))
        as [-> | ->]; [lia | apply W; [lia | exact H] | |].
      + apply signal_undefined_r.
      + apply signal_nan_r. }
  injection A as A R. repeat split; [exact A | exact R | apply buildOrder_hold, A].
Qed.

Lemma nan_close_holds_witness :
  exists comp,
    evaluateStrategy (map candle [1; 2; nan; 4; 9]%float) (cfg 2 3 1000%float 10%float)
    = Ok comp
    /\ action comp = hold
    /\ reason comp = NoActionableCrossover
    /\ buildOrder comp = None.
Proof.
  apply (nan_close_holds (map candle [1; 2; nan; 4; 9]%float) (cfg 2 3 1000%float 10%float)
           (candle nan));
    [reflexivity | reflexivity | right; vm_compute; left; reflexivity | reflexivity].
Defined.

(** *** Bounds on the outputs *)

Lemma finite_or_undefined_finite (x v : JS.number) :
  finite_or_undefined x = Some v -> JS.isFinite v = true.
Proof.
  unfold finite_or_undefined. destruct (JS.isFinite x) eqn:Fx; [|discriminate].
  intros [= <-]. exact Fx.
Qed.

(** X7. A stop-loss or take-profit that is present is a finite number,
    in the computation and in the order built from it. *)
Theorem stop_take_finite (candles : list OHLCVRecord) (config : StrategyConfig)
    (comp : StrategyComputation) :
  evaluateStrategy candles config = Ok comp ->
  (forall v, stopLoss comp = Some v -> JS.isFinite v = true)
  /\ (forall v, takeProfit comp = Some v -> JS.isFinite v = true)
  /\ (forall o v, buildOrder comp = Some o ->
        (order_stopLoss o = Some v -> JS.isFinite v = true)
        /\ (order_takeProfit o = Some v -> JS.isFinite v = true)).
Proof.
  intros H. destruct (evaluateStrategy_Ok_inv _ _ _ H) as (Hne & Hf & Hs).
  destruct (evaluateStrategy_fields candles config Hne Hf Hs)
    as (comp' & E & _ & _ & _ & _ & _ & Stop & Take).
  rewrite H in E. injection E as <-.
  assert (S : forall v, stopLoss comp = Some v -> JS.isFinite v = true).
  { intros v Hv. rewrite Stop in Hv. apply (finite_or_undefined_finite _ _ Hv). }
  assert (T : forall v, takeProfit comp = Some v -> JS.isFinite v = true).
  { intros v Hv. rewrite Take in Hv. apply (finite_or_undefined_finite _ _ Hv). }
  split; [exact S|]. split; [exact T|].
  intros o v Ho. unfold buildOrder in Ho.
  destruct (Action_eqb (action comp) hold || (positionSize comp <=? 0)%float);
    [discriminate|].
  injection Ho as <-. cbn [order_stopLoss order_takeProfit]. split; [apply S | apply T].
Qed.

Lemma stop_take_finite_witness :
  let comp :=
    {| action := buy; reason := RemainsAbove; latestPrice := 5%float;
       positionSize := 20%float; stopLoss := Some 3.96%float;
       takeProfit := Some 5.15%float;
       fastMA := [Some 1; Some 2; Some 3; Some 4; Some 5]%float;
       slowMA := [None; Some 1.5; Some 2.5; Some 3.5; Some 4.5]%float |} in
  (forall v, stopLoss comp = Some v -> JS.isFinite v = true)
  /\ (forall v, takeProfit comp = Some v -> JS.isFinite v = true)
  /\ (forall o v, buildOrder comp = Some o ->
        (order_stopLoss o = Some v -> JS.isFinite v = true)
        /\ (order_takeProfit o = Some v -> JS.isFinite v = true)).
Proof.
  apply (stop_take_finite (map candle [1; 2; 3; 4; 5]%float) (cfg 1 2 1000%float 10%float)).
  vm_compute. reflexivity.
Defined.

Lemma number_mul_one (x : float) : JS.isFinite x = true -> (x * 1)%float = x.
Proof.
  intros F. apply isFinite_SFfinite in F.
  rewrite <- (SF2Prim_Prim2SF (x * 1)%float), mul_spec.
  change (Prim2SF 1%float) with SFone. unfold SF64mul.
  rewrite SFmul_one by (try apply Prim2SF_valid; exact F).
  apply SF2Prim_Prim2SF.
Qed.

Lemma number_div_nonneg (x p : float) :
  JS.isFinite x = true -> (0 <=? x)%float = true -> JS.gtb p 0%float = true ->
  (0 <=? x / p)%float = true.
Proof.
  rewrite gtb_zero_SFpos, isFinite_SFfinite, !leb_SFle, div_spec.
  change (Prim2SF 0%float) with SFzero.
  intros Fx Px Pp.
  destruct (SFpos_cases _ Pp) as [[Mp Sp]|Ep].
  - apply SFdiv_l_nonneg; try assumption.
    split; [apply Prim2SF_valid | now apply SFfinite_not_nan].
  - rewrite Ep. unfold SF64div. rewrite SFdiv_by_infinity by assumption.
    unfold SFle. cbn. lia.
Qed.

(** The position size lies between 0 and what the whole capital buys. *)
Lemma position_size_bounds (c r p : float) :
  JS.isFinite c = true -> (0 <=? c)%float = true -> is_nan r = false ->
  (0 <=? position_size c r p)%float = true
  /\ (JS.gtb p 0%float = true ->
      (position_size c r p <=? round_dp (c / p) 6)%float = true)
  /\ (JS.gtb p 0%float = false -> position_size c r p = 0%float).
Proof.
  intros Fc Pc Nr. unfold position_size.
  destruct (risk_fraction_range r Nr) as (R0 & R1 & RF).
  destruct (JS.gtb p 0%float) eqn:Pp.
  - assert (Fm : JS.isFinite (c * clamp (r / 100) 0 1)%float = true)
      by (apply number_mul_unit_finite; assumption).
    split; [|split; [intros _ | discriminate]].
    + change 0%float with (round_dp 0%float 6) at 1.
      apply round_dp_mono; [lia|].
      apply number_div_nonneg; [exact Fm | | exact Pp].
      apply number_mul_nonneg; assumption.
    + apply round_dp_mono; [lia|].
      apply number_div_mono_l; [exact Pp | right; split; assumption |].
      rewrite <- (number_mul_one c Fc) at 2.
      apply number_mul_mono_r; try assumption. reflexivity.
  - split; [reflexivity|]. split; [discriminate | reflexivity].
Qed.

(** X8. With a finite non-negative capital and a risk percent that is not
    NaN, the position size is never negative and never more than the
    capital buys at the latest close (capital / close, rounded to 6
    decimals); it is 0 whenever the latest close is not strictly positive,
    a close that is NaN included. *)
Theorem positionSize_bounds (candles : list OHLCVRecord) (config : StrategyConfig)
    (comp : StrategyComputation) :
  evaluateStrategy candles config = Ok comp ->
  JS.isFinite (capital config) = true -> (0 <=? capital config)%float = true ->
  is_nan (riskPercent config) = false ->
  (0 <=? positionSize comp)%float = true
  /\ ((0 <? latestPrice comp)%float = true ->
      (positionSize comp <=? round_dp (capital config / latestPrice comp) 6)%float = true)
  /\ ((0 <? latestPrice comp)%float = false -> positionSize comp = 0%float).
Proof.
  intros H Fc Pc Nr. destruct (evaluateStrategy_Ok_inv _ _ _ H) as (Hne & Hf & Hs).
  destruct (evaluateStrategy_fields candles config Hne Hf Hs)
    as (comp' & E & _ & _ & _ & Price & Size & _).
  rewrite H in E. injection E as <-.
  fold (position_size (capital config) (riskPercent config) (latest_close candles)) in Size.
  rewrite Size, Price.
  apply (position_size_bounds _ _ (latest_close candles) Fc Pc Nr).
Qed.

Lemma positionSize_bounds_witness :
  let comp :=
    {| action := buy; reason := RemainsAbove; latestPrice := 5%float;
       positionSize := 20%float; stopLoss := Some 3.96%float;
       takeProfit := Some 5.15%float;
       fastMA := [Some 1; Some 2; Some 3; Some 4; Some 5]%float;
       slowMA := [None; Some 1.5; Some 2.5; Some 3.5; Some 4.5]%float |} in
  (0 <=? positionSize comp)%float = true
  /\ ((0 <? latestPrice comp)%float = true ->
      (positionSize comp <=? round_dp (1000 / latestPrice comp) 6)%float = true)
  /\ ((0 <? latestPrice comp)%float = false -> positionSize comp = 0%float).
Proof.
  apply (positionSize_bounds (map candle [1; 2; 3; 4; 5]%float) (cfg 1 2 1000%float 10%float));
    [vm_compute; reflexivity | reflexivity | reflexivity | reflexivity].
Defined.

(** *** What the decision depends on *)

(** X9. The action, the reason and the two average series depend on the
    closes and the two periods only: candles with the same closes, under
    configurations with the same periods, give the same ones. *)
Theorem signal_depends_on_closes (candles1 candles2 : list OHLCVRecord)
    (config1 config2 : StrategyConfig) (comp1 : StrategyComputation) :
  evaluateStrategy candles1 config1 = Ok comp1 ->
  map close candles1 = map close candles2 ->
  fastLength config1 = fastLength config2 ->
  slowLength config1 = slowLength config2 ->
  exists comp2,
    evaluateStrategy candles2 config2 = Ok comp2
    /\ action comp2 = action comp1
    /\ reason comp2 = reason comp1
    /\ fastMA comp2 = fastMA comp1
    /\ slowMA comp2 = slowMA comp1.
Proof.
  intros H Hc Hf Hs. destruct (evaluateStrategy_Ok_inv _ _ _ H) as (Hne & Pf & Ps).
  assert (Hlen : length candles2 = length candles1).
  { rewrite <- (length_map close candles2), <- Hc. apply length_map. }
  assert (Hne2 : candles2 <> []).
  { intros ->. destruct candles1; [easy | discriminate]. }
  destruct (evaluateStrategy_fields candles1 config1 Hne Pf Ps)
    as (c1 & E1 & F1 & S1 & Sig1 & _).
  rewrite H in E1. injection E1 as <-.
  destruct (evaluateStrategy_fields candles2 config2 Hne2)
    as (comp2 & E2 & F2 & S2 & Sig2 & _); [lia | lia |].
  exists comp2. split; [exact E2|].
  rewrite <- Hc, <- Hf, <- Hs, Hlen in Sig2. rewrite <- Sig1 in Sig2.
  injection Sig2 as A R.
  rewrite F1, S1, F2, S2, Hc, Hf, Hs. repeat split; assumption.
Qed.

Lemma signal_depends_on_closes_witness :
  exists comp2,
    evaluateStrategy
      (map (fun c => {| timestamp := 7; open := 1; high := 99; low := 0;
                        close := c; volume := 3 |}%float) [1; 2; 3; 4; 5]%float)
      (cfg 1 2 50%float 100%float) = Ok comp2
    /\ action comp2 = buy
    /\ reason comp2 = RemainsAbove
    /\ fastMA comp2 = [Some 1; Some 2; Some 3; Some 4; Some 5]%float
    /\ slowMA comp2 = [None; Some 1.5; Some 2.5; Some 3.5; Some 4.5]%float.
Proof.
  apply (signal_depends_on_closes (map candle [1; 2; 3; 4; 5]%float) _
           (cfg 1 2 1000%float 10%float) (cfg 1 2 50%float 100%float)
           {| action := buy; reason := RemainsAbove; latestPrice := 5%float;
              positionSize := 20%float; stopLoss := Some 3.96%float;
              takeProfit := Some 5.15%float;
              fastMA := [Some 1; Some 2; Some 3; Some 4; Some 5]%float;
              slowMA := [None; Some 1.5; Some 2.5; Some 3.5; Some 4.5]%float |});
    [vm_compute; reflexivity | reflexivity | reflexivity | reflexivity].
Defined.

Lemma window_at_skipn (values : list JS.number) (k : nat) (P i : Z) :
  0 <= i - P + 1 ->
  window_at (skipn k values) P i = window_at values P (i + Z.of_nat k).
Proof.
  intros H. unfold window_at. apply map_ext. intros j.
  rewrite nth_skipn. f_equal. lia.
Qed.

Lemma trailing_length {A} (xs : list A) (n : Z) :
  length (trailing xs n) = Nat.min (length xs) (Z.to_nat n).
Proof. unfold trailing. rewrite length_skipn. lia. Qed.

(** The averages at the last index and the one before it, computed from
    the trailing [M] values, for a period [P < M]. *)
Lemma sma_value_trailing (values : list JS.number) (P M d : Z) :
  1 <= P -> P + 1 <= M -> 0 <= d <= 1 ->
  sma_value (trailing values M) P (Z.of_nat (length (trailing values M)) - 1 - d)
  = sma_value values P (Z.of_nat (length values) - 1 - d).
Proof.
  intros HP HM Hd. rewrite trailing_length. unfold trailing.
  destruct (Nat.le_gt_cases (length values) (Z.to_nat M)) as [Hle|Hgt].
  - replace (length values - Z.to_nat M)%nat with 0%nat by lia.
    rewrite Nat.min_l by lia. reflexivity.
  - rewrite Nat.min_r by lia. unfold sma_value.
    destruct (Z.ltb_spec (Z.of_nat (Z.to_nat M) - 1 - d) 0); [lia|].
    destruct (Z.ltb_spec (Z.of_nat (Z.to_nat M) - 1 - d) (P - 1)); [lia|].
    destruct (Z.ltb_spec (Z.of_nat (length values) - 1 - d) 0); [lia|].
    destruct (Z.ltb_spec (Z.of_nat (length values) - 1 - d) (P - 1)); [lia|].
    cbn [orb]. rewrite window_at_skipn by lia. do 3 f_equal. lia.
Qed.

Lemma trailing_trailing {A} (xs : list A) (n M : Z) :
  n <= M -> trailing (trailing xs M) n = trailing xs n.
Proof.
  intros H. unfold trailing at 1. rewrite trailing_length. unfold trailing.
  rewrite skipn_skipn. f_equal. lia.
Qed.

Lemma last_skipn {A} (xs : list A) (k : nat) (d : A) :
  (k < length xs)%nat -> last (skipn k xs) d = last xs d.
Proof.
  revert xs. induction k as [|k IH]; intros xs Hk; [reflexivity|].
  destruct xs as [|x [|y t]]; cbn [length] in Hk; try lia.
  cbn [skipn]. rewrite (IH (y :: t)) by (cbn [length]; lia). reflexivity.
Qed.

Lemma latest_close_trailing (candles : list OHLCVRecord) (M : Z) :
  1 <= M -> candles <> [] -> latest_close (trailing candles M) = latest_close candles.
Proof.
  intros HM Hne. unfold latest_close, trailing. rewrite last_skipn; [reflexivity|].
  destruct candles; [easy | cbn [length]; lia].
Qed.

(** X10. Candles older than the last [max(fastLength, slowLength) + 1]
    have no influence: evaluating that trailing part alone gives the same
    action, reason, latest price, position size, stop-loss and
    take-profit. *)
Theorem older_candles_irrelevant (candles : list OHLCVRecord) (config : StrategyConfig)
    (comp : StrategyComputation) :
  evaluateStrategy candles config = Ok comp ->
  exists comp',
    evaluateStrategy
      (trailing candles (Z.max (fastLength config) (slowLength config) + 1)) config
    = Ok comp'
    /\ action comp' = action comp
    /\ reason comp' = reason comp
    /\ latestPrice comp' = latestPrice comp
    /\ positionSize comp' = positionSize comp
    /\ stopLoss comp' = stopLoss comp
    /\ takeProfit comp' = takeProfit comp.
Proof.
  intros H. destruct (evaluateStrategy_Ok_inv _ _ _ H) as (Hne & Pf & Ps).
  set (M := Z.max (fastLength config) (slowLength config) + 1).
  assert (HM : 1 <= M) by (unfold M; lia).
  assert (Hne' : trailing candles M <> []).
  { intros E. apply (f_equal (@length _)) in E. rewrite trailing_length in E.
    destruct candles; [easy | cbn [length] in E; lia]. }
  destruct (evaluateStrategy_fields candles config Hne Pf Ps)
    as (c & E & _ & _ & Sig & Price & Size & Stop & Take).
  rewrite H in E. injection E as <-.
  destruct (evaluateStrategy_fields (trailing candles M) config Hne' Pf Ps)
    as (comp' & E' & _ & _ & Sig' & Price' & Size' & Stop' & Take').
  exists comp'. split; [exact E'|].
  rewrite <- !trailing_map in Sig'.
  rewrite <- (length_map close (trailing candles M)), <- trailing_map in Sig'.
  pose proof (sma_value_trailing (map close candles)) as T.
  rewrite <- (Z.sub_0_r (Z.of_nat (length (trailing (map close candles) M)) - 1)) in Sig' at 1 2.
  rewrite !T in Sig' by (unfold M; lia).
  rewrite Z.sub_0_r, length_map, <- Sig in Sig'. injection Sig' as A R.
  rewrite latest_close_trailing in Price', Size', Take' by assumption.
  rewrite trailing_trailing in Stop' by (unfold M; lia).
  rewrite A in Stop', Take'.
  rewrite Price, Size, Stop, Take. repeat split; assumption.
Qed.

Lemma older_candles_irrelevant_witness :
  exists comp',
    evaluateStrategy
      (trailing (map candle [9; 8; 1; 2; 3; 4; 5]%float) (Z.max 1 2 + 1))
      (cfg 1 2 1000%float 10%float)
    = Ok comp'
    /\ action comp' = buy
    /\ reason comp' = RemainsAbove
    /\ latestPrice comp' = 5%float
    /\ positionSize comp' = 20%float
    /\ stopLoss comp' = Some 3.96%float
    /\ takeProfit comp' = Some 5.15%float.
Proof.
  apply (older_candles_irrelevant (map candle [9; 8; 1; 2; 3; 4; 5]%float)
           (cfg 1 2 1000%float 10%float)
           {| action := buy; reason := RemainsAbove; latestPrice := 5%float;
              positionSize := 20%float; stopLoss := Some 3.96%float;
              takeProfit := Some 5.15%float;
              fastMA := [Some 9; Some 8; Some 1; Some 2; Some 3; Some 4; Some 5]%float;
              slowMA := [None; Some 8.5; Some 4.5; Some 1.5; Some 2.5; Some 3.5;
                         Some 4.5]%float |}).
  vm_compute. reflexivity.
Defined.

Lemma signal_no_previous (lf ls pf ps : option JS.number) :
  pf = None \/ ps = None ->
  kind_of (snd (signal lf ls pf ps)) <> bullish_crossover
  /\ kind_of (snd (signal lf ls pf ps)) <> bearish_crossover.
Proof.
  intros H.
  assert (B : forall t, both_defined pf ps t = false).
  { intros t. destruct H as [-> | ->]; [reflexivity | destruct pf; reflexivity]. }
  unfold signal. rewrite !B. cbn [andb].
  destruct lf as [x|], ls as [y|]; cbn [snd kind_of]; try (split; discriminate).
  destruct (JS.gtb x y); cbn [snd kind_of]; [split; discriminate|].
  destruct (x <? y)%float; cbn [snd kind_of]; split; discriminate.
Qed.

(** X11. A crossover is reported only when the candles outnumber both
    periods: with at most [max(fastLength, slowLength)] candles the reason
    is a continuation or no signal, never a crossover. *)
Theorem no_crossover_without_previous (candles : list OHLCVRecord)
    (config : StrategyConfig) (comp : StrategyComputation) :
  evaluateStrategy candles config = Ok comp ->
  Z.of_nat (length candles) <= Z.max (fastLength config) (slowLength config) ->
  kind_of (reason comp) <> bullish_crossover
  /\ kind_of (reason comp) <> bearish_crossover.
Proof.
  intros H Hn. destruct (evaluateStrategy_Ok_inv _ _ _ H) as (Hne & Pf & Ps).
  destruct (evaluateStrategy_fields candles config Hne Pf Ps)
    as (c & E & _ & _ & Sig & _).
  rewrite H in E. injection E as <-.
  replace (reason comp) with (snd (action comp, reason comp)) by reflexivity.
  rewrite Sig. apply signal_no_previous.
  assert (U : forall P, Z.of_nat (length candles) <= P ->
                sma_value (map close candles) P (Z.of_nat (length candles) - 1 - 1) = None).
  { intros P HP. unfold sma_value.
    destruct (Z.ltb_spec (Z.of_nat (length candles) - 1 - 1) (P - 1)); [|lia].
    now rewrite orb_true_r. }
  destruct (Z.max_spec (fastLength config) (slowLength config)) as [[_ M]|[_ M]];
    rewrite M in Hn; [right | left]; now apply U.
Qed.

Lemma no_crossover_without_previous_witness :
  kind_of RemainsAbove <> bullish_crossover
  /\ kind_of RemainsAbove <> bearish_crossover.
Proof.
  apply (no_crossover_without_previous (map candle [1; 2; 3; 4; 5]%float)
           (cfg 3 5 1000%float 10%float)
           {| action := buy; reason := RemainsAbove; latestPrice := 5%float;
              positionSize := 20%float; stopLoss := Some 0.99%float;
              takeProfit := Some 5.15%float;
              fastMA := [None; None; Some 2; Some 3; Some 4]%float;
              slowMA := [None; None; None; None; Some 3]%float |});
    [vm_compute; reflexivity | cbn; lia].
Defined.

(** *** The stop-loss against the recent lows and highs *)

Lemma SFround_dp_finite (x : spec_float) (f : Z) :
  0 <= f -> SFfinite x -> SFfinite (SFround_dp x f).
Proof.
  intros Hf F. destruct x as [s|s| |s m e]; try contradiction; [exact I|].
  cbn [SFround_dp]. destruct (JS.at_least_1e21 m e) eqn:A; [exact I|].
  assert (H10 : 0 < 10 ^ f) by (apply Z.pow_pos_nonneg; lia).
  assert (B : JS.nearest_scaled m e f <= 10 ^ 21 * 10 ^ f).
  { apply nearest_scaled_below; [exact Hf|].
    rewrite <- at_least_1e21_dle. congruence. }
  pose proof (nearest_scaled_nonneg m e f Hf) as N.
  assert (P : SFfinite (RNf false (JS.nearest_scaled m e f) (10 ^ f) 0)).
  { apply (SFle_between_finite _ (RNf false (10 ^ 21) 1 0)).
    - apply RNf_nonneg.
    - apply RNf_mono_sign; try lia; auto.
      unfold dle. rewrite Z.min_id, Z.sub_diag. change (2 ^ 0) with 1. lia.
    - vm_compute. exact I. }
  destruct s; [|exact P].
  change true with (negb false). rewrite <- RNf_opp. now apply SFfinite_opp.
Qed.

Lemma round_dp_finite (x : float) (f : Z) :
  0 <= f -> JS.isFinite x = true -> JS.isFinite (round_dp x f) = true.
Proof.
  intros Hf. rewrite !isFinite_SFfinite, Prim2SF_round_dp by exact Hf.
  now apply SFround_dp_finite.
Qed.

Lemma isFinite_not_nan (x : float) : JS.isFinite x = true -> is_nan x = false.
Proof.
  unfold JS.isFinite. intros H. apply andb_true_iff in H.
  destruct H as [H _]. now apply negb_true_iff in H.
Qed.

(** [fold_left min2] from a number: a lower bound of the start and of
    every item, and one of them. *)
Lemma fold_min2 (xs : list float) (acc : float) :
  is_nan acc = false -> Forall (fun x => is_nan x = false) xs ->
  let r := fold_left JS.min2 xs acc in
  is_nan r = false
  /\ (r <=? acc)%float = true
  /\ (forall x, In x xs -> (r <=? x)%float = true)
  /\ (r = acc \/ In r xs).
Proof.
  revert acc. induction xs as [|x xs IH]; intros acc Na Hall; cbn [fold_left].
  - repeat split; auto. apply number_leb_refl, Na.
  - inversion Hall as [|? ? Nx Hall']; subst.
    destruct (min2_spec acc x Na Nx) as (C & La & Lx).
    assert (Nm : is_nan (JS.min2 acc x) = false) by (destruct C as [-> | ->]; assumption).
    destruct (IH (JS.min2 acc x) Nm Hall') as (Nr & Lr & Lall & Cr).
    split; [exact Nr|]. split; [eapply number_leb_trans; eassumption|].
    split.
    + intros y [<-|Hy]; [eapply number_leb_trans; eassumption | now apply Lall].
    + destruct Cr as [Cr|Cr]; [|right; now right].
      rewrite Cr. destruct C as [-> | ->]; [now left | right; now left].
Qed.

Lemma fold_max2 (xs : list float) (acc : float) :
  is_nan acc = false -> Forall (fun x => is_nan x = false) xs ->
  let r := fold_left JS.max2 xs acc in
  is_nan r = false
  /\ (acc <=? r)%float = true
  /\ (forall x, In x xs -> (x <=? r)%float = true)
  /\ (r = acc \/ In r xs).
Proof.
  revert acc. induction xs as [|x xs IH]; intros acc Na Hall; cbn [fold_left].
  - repeat split; auto. apply number_leb_refl, Na.
  - inversion Hall as [|? ? Nx Hall']; subst.
    destruct (max2_spec acc x Na Nx) as (C & La & Lx).
    assert (Nm : is_nan (JS.max2 acc x) = false) by (destruct C as [-> | ->]; assumption).
    destruct (IH (JS.max2 acc x) Nm Hall') as (Nr & Lr & Lall & Cr).
    split; [exact Nr|]. split; [eapply number_leb_trans; eassumption|].
    split.
    + intros y [<-|Hy]; [eapply number_leb_trans; eassumption | now apply Lall].
    + destruct Cr as [Cr|Cr]; [|right; now right].
      rewrite Cr. destruct C as [-> | ->]; [now left | right; now left].
Qed.

Lemma leb_infinity_finite (x : float) :
  JS.isFinite x = true -> (infinity <=? x)%float = false.
Proof.
  rewrite isFinite_SFfinite, leb_spec. change (Prim2SF infinity) with (S754_infinity false).
  destruct (Prim2SF x) as [s|s| |[] m e]; cbn; try tauto; reflexivity.
Qed.

Lemma leb_finite_neg_infinity (x : float) :
  JS.isFinite x = true -> (x <=? neg_infinity)%float = false.
Proof.
  rewrite isFinite_SFfinite, leb_spec.
  change (Prim2SF neg_infinity) with (S754_infinity true).
  destruct (Prim2SF x) as [s|s| |[] m e]; cbn; try tauto; reflexivity.
Qed.

(** The minimum of finite numbers, at least one, is one of them and a
    lower bound of all. *)
Lemma Math_min_finite (xs : list float) :
  xs <> [] -> Forall (fun x => JS.isFinite x = true) xs ->
  In (JS.Math_min xs) xs
  /\ JS.isFinite (JS.Math_min xs) = true
  /\ forall x, In x xs -> (JS.Math_min xs <=? x)%float = true.
Proof.
  intros Hne Hall.
  assert (Nall : Forall (fun x => is_nan x = false) xs).
  { eapply Forall_impl; [|exact Hall]. intros x. apply isFinite_not_nan. }
  destruct (fold_min2 xs infinity eq_refl Nall) as (Nr & _ & Lall & C).
  fold (JS.Math_min xs) in *.
  assert (Hin : In (JS.Math_min xs) xs).
  { destruct C as [C|C]; [|exact C]. exfalso.
    destruct xs as [|x xs']; [congruence|].
    pose proof (Lall x (or_introl eq_refl)) as L. rewrite C in L.
    rewrite leb_infinity_finite in L; [discriminate|].
    now inversion Hall. }
  split; [exact Hin|]. split; [|exact Lall].
  rewrite Forall_forall in Hall. now apply Hall.
Qed.

Lemma Math_max_finite (xs : list float) :
  xs <> [] -> Forall (fun x => JS.isFinite x = true) xs ->
  In (JS.Math_max xs) xs
  /\ JS.isFinite (JS.Math_max xs) = true
  /\ forall x, In x xs -> (x <=? JS.Math_max xs)%float = true.
Proof.
  intros Hne Hall.
  assert (Nall : Forall (fun x => is_nan x = false) xs).
  { eapply Forall_impl; [|exact Hall]. intros x. apply isFinite_not_nan. }
  destruct (fold_max2 xs neg_infinity eq_refl Nall) as (Nr & _ & Lall & C).
  fold (JS.Math_max xs) in *.
  assert (Hin : In (JS.Math_max xs) xs).
  { destruct C as [C|C]; [|exact C]. exfalso.
    destruct xs as [|x xs']; [congruence|].
    pose proof (Lall x (or_introl eq_refl)) as L. rewrite C in L.
    rewrite leb_finite_neg_infinity in L; [discriminate|].
    now inversion Hall. }
  split; [exact Hin|]. split; [|exact Lall].
  rewrite Forall_forall in Hall. now apply Hall.
Qed.

Lemma trailing_nonempty {A} (xs : list A) (n : Z) :
  xs <> [] -> 1 <= n -> trailing xs n <> [].
Proof.
  intros Hne Hn E. apply (f_equal (@length _)) in E. rewrite trailing_length in E.
  destruct xs; [easy | cbn [length] in E; lia].
Qed.

(** X12. On a buy whose recent lows (those of the last [slowLength]
    candles) are all finite, a stop-loss is always present, and it is at
    most 0.99 times each of those lows, rounded to 2 decimals; the
    take-profit is present whenever 1.03 times the latest close is
    finite. *)
Theorem buy_stop_below_recent_lows (candles : list OHLCVRecord) (config : StrategyConfig)
    (comp : StrategyComputation) :
  evaluateStrategy candles config = Ok comp ->
  action comp = buy ->
  (forall k, In k (trailing candles (slowLength config)) -> JS.isFinite (low k) = true) ->
  (exists stop,
      stopLoss comp = Some stop
      /\ forall k, In k (trailing candles (slowLength config)) ->
           (stop <=? round_dp (low k * 0.99) 2)%float = true)
  /\ (JS.isFinite (latestPrice comp * 1.03)%float = true ->
      takeProfit comp = Some (round_dp (latestPrice comp * 1.03)%float 2)).
Proof.
  intros H Ha Hfin. destruct (evaluateStrategy_Ok_inv _ _ _ H) as (Hne & Hf & Hs).
  destruct (evaluateStrategy_fields candles config Hne Hf Hs)
    as (c & E & _ & _ & _ & Price & _ & Stop & Take).
  rewrite H in E. injection E as <-.
  rewrite Ha in Stop, Take. cbn [Action_eqb] in Stop, Take.
  set (lows := map low (trailing candles (slowLength config))) in *.
  assert (Lne : lows <> []).
  { unfold lows. intros E. apply map_eq_nil in E.
    now apply (trailing_nonempty candles (slowLength config) Hne). }
  assert (Lfin : Forall (fun x => JS.isFinite x = true) lows).
  { unfold lows. rewrite Forall_map, Forall_forall. exact Hfin. }
  destruct (Math_min_finite lows Lne Lfin) as (_ & Fm & Lm).
  assert (F99 : JS.isFinite (JS.Math_min lows * 0.99)%float = true)
    by (apply number_mul_unit_finite; [exact Fm | reflexivity ..]).
  split.
  - exists (round_dp (JS.Math_min lows * 0.99)%float 2). split.
    + rewrite Stop. unfold finite_or_undefined.
      now rewrite round_dp_finite by (lia || assumption).
    + intros k Hk. apply round_dp_mono; [lia|].
      apply number_mul_mono_l; try reflexivity; try assumption.
      * now apply Hfin.
      * apply Lm. unfold lows. now apply in_map.
  - intros Fp. rewrite Take, <- Price. unfold finite_or_undefined.
    now rewrite round_dp_finite by (lia || assumption).
Qed.

Lemma buy_stop_below_recent_lows_witness :
  let candles := map candle [100; 101; 102; 103; 104]%float in
  let comp :=
    {| action := buy; reason := RemainsAbove; latestPrice := 104%float;
       positionSize := 0.961538%float; stopLoss := Some 99%float;
       takeProfit := Some 107.12%float;
       fastMA := [None; None; Some 101; Some 102; Some 103]%float;
       slowMA := [None; None; None; None; Some 102]%float |} in
  (exists stop,
      stopLoss comp = Some stop
      /\ forall k, In k (trailing candles 5) ->
           (stop <=? round_dp (low k * 0.99) 2)%float = true)
  /\ (JS.isFinite (latestPrice comp * 1.03)%float = true ->
      takeProfit comp = Some (round_dp (latestPrice comp * 1.03)%float 2)).
Proof.
  intros candles comp.
  apply (buy_stop_below_recent_lows candles (cfg 3 5 1000%float 10%float) comp);
    [vm_compute; reflexivity | reflexivity |].
  intros k Hk. vm_compute in Hk.
  repeat (destruct Hk as [<-|Hk]; [reflexivity|]). destruct Hk.
Defined.

(** X13. On a sell (or a hold) whose recent highs are all finite, a
    stop-loss that is present is at least 1.01 times each of the highs of
    the last [slowLength] candles, rounded to 2 decimals, and it is
    present whenever 1.01 times the highest of them is finite. *)
Theorem sell_stop_above_recent_highs (candles : list OHLCVRecord) (config : StrategyConfig)
    (comp : StrategyComputation) :
  evaluateStrategy candles config = Ok comp ->
  action comp <> buy ->
  (forall k, In k (trailing candles (slowLength config)) -> JS.isFinite (high k) = true) ->
  let highest := JS.Math_max (map high (trailing candles (slowLength config))) in
  (forall stop,
      stopLoss comp = Some stop ->
      forall k, In k (trailing candles (slowLength config)) ->
        (round_dp (high k * 1.01) 2 <=? stop)%float = true)
  /\ (JS.isFinite (highest * 1.01)%float = true ->
      stopLoss comp = Some (round_dp (highest * 1.01)%float 2)).
Proof.
  intros H Ha Hfin highest. destruct (evaluateStrategy_Ok_inv _ _ _ H) as (Hne & Hf & Hs).
  destruct (evaluateStrategy_fields candles config Hne Hf Hs)
    as (c & E & _ & _ & _ & _ & _ & Stop & _).
  rewrite H in E. injection E as <-.
  assert (Ab : Action_eqb (action comp) buy = false)
    by (destruct (action comp); try reflexivity; congruence).
  rewrite Ab in Stop. fold highest in Stop.
  set (highs := map high (trailing candles (slowLength config))) in *.
  assert (Lne : highs <> []).
  { unfold highs. intros E. apply map_eq_nil in E.
    now apply (trailing_nonempty candles (slowLength config) Hne). }
  assert (Lfin : Forall (fun x => JS.isFinite x = true) highs).
  { unfold highs. rewrite Forall_map, Forall_forall. exact Hfin. }
  destruct (Math_max_finite highs Lne Lfin) as (_ & Fm & Lm). fold highest in Fm, Lm.
  split.
  - intros stop Es k Hk. rewrite Stop in Es. unfold finite_or_undefined in Es.
    destruct (JS.isFinite (round_dp (highest * 1.01)%float 2)); [|discriminate].
    injection Es as <-. apply round_dp_mono; [lia|].
    apply number_mul_mono_l; try reflexivity; try assumption.
    + now apply Hfin.
    + apply Lm. unfold highs. now apply in_map.
  - intros Fp. rewrite Stop. unfold finite_or_undefined.
    now rewrite round_dp_finite by (lia || assumption).
Qed.

Lemma sell_stop_above_recent_highs_witness :
  let candles := map candle [104; 103; 102; 101; 100]%float in
  let comp :=
    {| action := sell; reason := RemainsBelow; latestPrice := 100%float;
       positionSize := 1%float; stopLoss := Some 105.04%float;
       takeProfit := Some 97%float;
       fastMA := [None; None; Some 103; Some 102; Some 101]%float;
       slowMA := [None; None; None; None; Some 102]%float |} in
  let highest := JS.Math_max (map high (trailing candles 5)) in
  (forall stop,
      stopLoss comp = Some stop ->
      forall k, In k (trailing candles 5) ->
        (round_dp (high k * 1.01) 2 <=? stop)%float = true)
  /\ (JS.isFinite (highest * 1.01)%float = true ->
      stopLoss comp = Some (round_dp (highest * 1.01)%float 2)).
Proof.
  intros candles comp.
  apply (sell_stop_above_recent_highs candles (cfg 3 5 1000%float 10%float) comp);
    [vm_compute; reflexivity | discriminate |].
  intros k Hk. vm_compute in Hk.
  repeat (destruct Hk as [<-|Hk]; [reflexivity|]). destruct Hk.
Defined.

(** ** The exchange client and the routes *)

Lemma and_then_resolve {A B} (a : A) (k : A -> Async B) :
  and_then (resolve a) k = k a.
Proof. unfold and_then, resolve. destruct (k a). reflexivity. Qed.

Lemma and_then_throw {A B} (message : string) (k : A -> Async B) :
  and_then (throw_error message) k = throw_error message.
Proof. reflexivity. Qed.

Lemma and_then_await {A B} (c : Call) (answer : Outcome A) (k : A -> Async B) :
  and_then (await c answer) k
  = match answer with
    | Returns a => prepend c (k a)
    | Throws e => ([c], Throws e)
    end.
Proof.
  unfold and_then, await, prepend. destruct answer as [a|e]; [|reflexivity].
  destruct (k a). reflexivity.
Qed.

Lemma and_then_prepend {A B} (c : Call) (m : Async A) (k : A -> Async B) :
  and_then (prepend c m) k = prepend c (and_then m k).
Proof.
  unfold and_then, prepend. destruct m as [calls [a|e]]; cbn [fst snd]; [|reflexivity].
  destruct (k a). reflexivity.
Qed.

Lemma and_then_assoc {A B C} (m : Async A) (k : A -> Async B) (h : B -> Async C) :
  and_then (and_then m k) h = and_then m (fun a => and_then (k a) h).
Proof.
  unfold and_then. destruct m as [calls [a|e]]; [|reflexivity].
  destruct (k a) as [more [b|e]]; [|reflexivity].
  destruct (h b). now rewrite app_assoc.
Qed.

Lemma createExchange_cases (ccxt : Ccxt) (env : ProcessEnv) (requireAuth : bool) :
  createExchange ccxt env requireAuth
  = if requireAuth && negb (has_credentials env) then throw_error AuthRequired
    else match registry ccxt (exchangeId_of env) with
         | Some (exchange_class cls) => resolve (exchange_of env cls)
         | Some (other_export thrown) => ([], Throws thrown)
         | None => throw_error (ExchangeNotAvailable (exchangeId_of env))
         end.
Proof.
  unfold createExchange, has_credentials, getExchangeClass, exchange_of, exchangeId_of.
  rewrite negb_andb.
  destruct (requireAuth && _); [reflexivity|].
  destruct (registry ccxt _) as [[cls|thrown]|]; reflexivity.
Qed.

Lemma fetchOhlcv_cases (ccxt : Ccxt) (env : ProcessEnv) (symbol timeframe : string)
    (limit : Z) :
  fetchOhlcv ccxt env symbol timeframe limit
  = match registry ccxt (exchangeId_of env) with
    | None => throw_error (ExchangeNotAvailable (exchangeId_of env))
    | Some (other_export thrown) => ([], Throws thrown)
    | Some (exchange_class cls) =>
        let exchange := exchange_of env cls in
        match fetchOHLCV ccxt exchange symbol timeframe limit with
        | Returns raw =>
            prepend (call_fetchOHLCV exchange symbol timeframe limit)
              (resolve (map record_of_row raw))
        | Throws e => ([call_fetchOHLCV exchange symbol timeframe limit], Throws e)
        end
    end.
Proof.
  unfold fetchOhlcv. rewrite createExchange_cases. cbn [andb].
  destruct (registry ccxt (exchangeId_of env)) as [[cls|thrown]|]; try reflexivity.
  rewrite and_then_resolve, and_then_await. reflexivity.
Qed.

Lemma POST_cases (ccxt : Ccxt) (env : ProcessEnv) (now : JS.number)
    (payload : StrategyConfig) :
  POST_run ccxt env now payload
    (fst (StrategyRoute.POST ccxt env now (StrategyRoute.ValidPayload payload)))
    (snd (StrategyRoute.POST ccxt env now (StrategyRoute.ValidPayload payload))).
Proof.
  unfold StrategyRoute.POST, StrategyRoute.evaluate_and_execute.
  rewrite fetchOhlcv_cases.
  destruct (registry ccxt (exchangeId_of env)) as [[cls|thrown]|] eqn:Ereg;
    [|cbn; now apply run_not_constructed|cbn; now apply run_unavailable].
  cbv zeta.
  destruct (fetchOHLCV ccxt (exchange_of env cls) (symbol payload) (timeframe payload)
              (Z.max (slowLength payload * 4) 200)) as [raw|error] eqn:Efetch.
  2:{ cbn. now apply (run_fetch_failed ccxt env now payload cls error). }
  rewrite and_then_prepend, and_then_resolve.
  assert (G : forall m : Async StrategyRoute.Response,
            evaluated_run ccxt env now payload cls (map record_of_row raw) (fst m)
              match snd m with
              | Returns response => response
              | Throws error =>
                  StrategyRoute.json_error 500
                    (message_or error "Strategy evaluation failed.") []
              end ->
            POST_run ccxt env now payload
              (fst (let (calls, o) :=
                      prepend (call_fetchOHLCV (exchange_of env cls) (symbol payload)
                                 (timeframe payload) (Z.max (slowLength payload * 4) 200)) m in
                    match o with
                    | Returns response => (calls, response)
                    | Throws error =>
                        (calls,
                         StrategyRoute.json_error 500
                           match error with
                           | Some message => message
                           | None => "Strategy evaluation failed."%string
                           end [])
                    end))
              (snd (let (calls, o) :=
                      prepend (call_fetchOHLCV (exchange_of env cls) (symbol payload)
                                 (timeframe payload) (Z.max (slowLength payload * 4) 200)) m in
                    match o with
                    | Returns response => (calls, response)
                    | Throws error =>
                        (calls,
                         StrategyRoute.json_error 500
                           match error with
                           | Some message => message
                           | None => "Strategy evaluation failed."%string
                           end [])
                    end))).
  { intros [calls [response|error]] R; cbn [prepend fst snd] in *;
      now apply (run_evaluated ccxt env now payload cls raw). }
  apply G. clear G.
  destruct (evaluateStrategy (map record_of_row raw) payload) as [comp|message] eqn:Eev;
    cbn [of_Result].
  2:{ rewrite and_then_throw. cbn. now apply run_strategy_failed. }
  rewrite and_then_resolve.
  destruct (buildOrder comp) as [order|] eqn:Eorder.
  2:{ rewrite and_then_resolve. cbn [resolve fst snd].
      pose proof (run_no_execution ccxt env now payload cls _ comp Eev) as R.
      unfold response_body in R. rewrite Eorder in R. apply R. now left. }
  destruct (mode payload) eqn:Emode; cbn [StrategyRoute.mode_is_live].
  { rewrite and_then_resolve. cbn [resolve fst snd].
    pose proof (run_no_execution ccxt env now payload cls _ comp Eev) as R.
    unfold response_body in R. rewrite Eorder, Emode in R. apply R. now right. }
  destruct (is_text (ENABLE_LIVE_TRADING env) "true") eqn:Eflag.
  2:{ rewrite and_then_resolve. cbn [resolve fst snd].
      pose proof (run_skipped ccxt env now payload cls _ comp order Eev Eorder Emode Eflag)
        as R.
      unfold response_body in R. rewrite Eorder, Emode in R. apply R. }
  rewrite createExchange_cases. cbn [andb].
  destruct (has_credentials env) eqn:Eauth; cbn [negb].
  2:{ rewrite !and_then_throw. cbn.
      now apply (run_auth_missing ccxt env now payload cls _ comp order). }
  rewrite Ereg, and_then_resolve, and_then_await.
  destruct (createOrder ccxt (exchange_of env cls) (symbol payload) (type order)
              (side order) (size order)) as [answer|error] eqn:Eans.
  - rewrite and_then_prepend, !and_then_resolve. cbn [prepend resolve fst snd].
    pose proof (run_submitted ccxt env now payload cls _ comp order answer
                  Eev Eorder Emode Eflag Eauth Eans) as R.
    unfold response_body in R. rewrite Eorder, Emode in R. apply R.
  - cbn [and_then fst snd].
    now apply (run_order_failed ccxt env now payload cls _ comp order error).
Qed.

Lemma is_text_eq (value : option string) (text : string) :
  is_text value text = true <-> value = Some text.
Proof.
  unfold is_text. destruct value as [s|]; [|split; discriminate].
  rewrite String.eqb_eq. split; [now intros -> | now intros [= ->]].
Qed.

Lemma buildOrder_Some (comp : StrategyComputation) (order : StrategyOrder) :
  buildOrder comp = Some order ->
  side order = action comp /\ (side order = buy \/ side order = sell)
  /\ type order = market
  /\ size order = positionSize comp /\ (size order <=? 0)%float = false
  /\ price order = latestPrice comp.
Proof.
  unfold buildOrder. destruct (Action_eqb (action comp) hold) eqn:Ah; [discriminate|].
  destruct (positionSize comp <=? 0)%float eqn:L; [discriminate|].
  intros [= <-]. cbn [side type size price].
  repeat split; try assumption.
  destruct (action comp); auto; discriminate.
Qed.

(** X14. The strategy route submits an order to the exchange only for a
    valid payload in live mode with ENABLE_LIVE_TRADING set to "true" and
    both credentials present. The order is the one [buildOrder] makes of
    the evaluation of the candles the exchange answered to the route's
    own request: a market order on the payload's symbol whose side is the
    action of that evaluation, buy or sell, and whose amount is its
    position size, which is not [<= 0]; it goes to the exchange the
    candles came from. *)
Theorem order_submitted_only_when_enabled (ccxt : Ccxt) (env : ProcessEnv)
    (now : JS.number) (request : StrategyRoute.ParsedRequest)
    (exchange : BasicExchange) (sym : string) (ty : OrderType) (sd : Action)
    (amount : JS.number) :
  In (call_createOrder exchange sym ty sd amount)
     (fst (StrategyRoute.POST ccxt env now request)) ->
  exists payload cls raw comp order,
    request = StrategyRoute.ValidPayload payload
    /\ mode payload = live
    /\ ENABLE_LIVE_TRADING env = Some "true"%string
    /\ truthy (CRYPTO_API_KEY env) = true
    /\ truthy (CRYPTO_API_SECRET env) = true
    /\ registry ccxt (exchangeId_of env) = Some (exchange_class cls)
    /\ exchange = exchange_of env cls
    /\ apiKey (options exchange) = CRYPTO_API_KEY env
    /\ secret (options exchange) = CRYPTO_API_SECRET env
    /\ fetchOHLCV ccxt exchange (symbol payload) (timeframe payload)
         (Z.max (slowLength payload * 4) 200) = Returns raw
    /\ evaluateStrategy (map record_of_row raw) payload = Ok comp
    /\ buildOrder comp = Some order
    /\ sym = symbol payload
    /\ ty = market
    /\ sd = side order
    /\ sd = action comp
    /\ (sd = buy \/ sd = sell)
    /\ amount = size order
    /\ amount = positionSize comp
    /\ (amount <=? 0)%float = false.
Proof.
  destruct request as [|issues|payload]; try (cbn; tauto).
  intros Hin. exists payload.
  pose proof (POST_cases ccxt env now payload) as R.
  remember (fst (StrategyRoute.POST ccxt env now (StrategyRoute.ValidPayload payload)))
    as calls0 eqn:Ec0.
  remember (snd (StrategyRoute.POST ccxt env now (StrategyRoute.ValidPayload payload)))
    as response0 eqn:Er0.
  clear Ec0 Er0.
  inversion R as [Ereg Ec Er|thrown Ereg Ec Er|cls error Ereg ex limit Efetch Ec Er
                 |cls raw calls response Ereg ex limit Efetch R' Ec Er];
    subst calls0; try (cbn in Hin; tauto);
    try (destruct Hin as [Hin|[]]; discriminate).
  destruct Hin as [Hin|Hin]; [discriminate|].
  exists cls, raw.
  inversion R'; subst; try (cbn in Hin; tauto);
    (destruct Hin as [Hin|[]]; inversion Hin; subst;
     match goal with
     | Eev : evaluateStrategy _ _ = Ok ?comp, Eo : buildOrder ?comp = Some ?order,
       Ef : is_text _ _ = true, Ea : has_credentials _ = true |- _ =>
         exists comp, order; apply is_text_eq in Ef;
         unfold has_credentials in Ea; apply andb_true_iff in Ea;
         destruct Ea as [Ka Sa];
         destruct (buildOrder_Some _ _ Eo) as (S1 & S2 & S3 & S4 & S5 & _);
         repeat split; try assumption; try reflexivity; congruence
     end).
Qed.

Lemma order_submitted_only_when_enabled_witness :
  let rows := map sample_row [100; 101; 102; 103; 104]%float in
  let ccxt := sample_ccxt rows in
  let env := sample_env (Some "true"%string) in
  let exchange := exchange_of env {| has_setSandboxMode := true |} in
  exists payload cls raw comp order,
    StrategyRoute.ValidPayload (live_cfg 3 5 1000%float 10%float)
    = StrategyRoute.ValidPayload payload
    /\ mode payload = live
    /\ ENABLE_LIVE_TRADING env = Some "true"%string
    /\ truthy (CRYPTO_API_KEY env) = true
    /\ truthy (CRYPTO_API_SECRET env) = true
    /\ registry ccxt (exchangeId_of env) = Some (exchange_class cls)
    /\ exchange = exchange_of env cls
    /\ apiKey (options exchange) = CRYPTO_API_KEY env
    /\ secret (options exchange) = CRYPTO_API_SECRET env
    /\ fetchOHLCV ccxt exchange (symbol payload) (timeframe payload)
         (Z.max (slowLength payload * 4) 200) = Returns raw
    /\ evaluateStrategy (map record_of_row raw) payload = Ok comp
    /\ buildOrder comp = Some order
    /\ "BTC/USDT"%string = symbol payload
    /\ market = market
    /\ buy = side order
    /\ buy = action comp
    /\ (buy = buy \/ buy = sell)
    /\ 0.961538%float = size order
    /\ 0.961538%float = positionSize comp
    /\ (0.961538 <=? 0)%float = false.
Proof.
  intros rows ccxt env exchange.
  apply (order_submitted_only_when_enabled ccxt env 0%float
           (StrategyRoute.ValidPayload (live_cfg 3 5 1000%float 10%float))).
  vm_compute. right. left. reflexivity.
Defined.

(** X15. The strategy route fetches candles at most once, before
    anything else, asking for [max(4 * slowLength, 200)] candles of the
    payload's symbol and timeframe; at most one order submission follows,
    on an exchange of the same id; it never fetches balances. For a
    payload the schema admits the number asked for lies between 200 and
    1600. *)
Theorem POST_calls (ccxt : Ccxt) (env : ProcessEnv) (now : JS.number)
    (request : StrategyRoute.ParsedRequest) :
  let calls := fst (StrategyRoute.POST ccxt env now request) in
  (calls = []
   \/ exists payload exchange,
        request = StrategyRoute.ValidPayload payload
        /\ exchange_id exchange
           = match CRYPTO_EXCHANGE env with
             | Some e => e
             | None => "binance"%string
             end
        /\ let fetch :=
             call_fetchOHLCV exchange (symbol payload) (timeframe payload)
               (Z.max (slowLength payload * 4) 200) in
           (calls = [fetch]
            \/ exists order,
                 calls = [fetch;
                          call_createOrder exchange (symbol payload) market
                            (side order) (size order)]))
  /\ (forall payload,
        request = StrategyRoute.ValidPayload payload ->
        StrategyRoute.bodySchema payload = true ->
        200 <= Z.max (slowLength payload * 4) 200 <= 1600).
Proof.
  intros calls. split.
  - destruct request as [|issues|payload]; try (now left).
    pose proof (POST_cases ccxt env now payload) as R. fold calls in R.
    remember (snd (StrategyRoute.POST ccxt env now (StrategyRoute.ValidPayload payload)))
      as response0 eqn:Er0.
    clear Er0. clearbody calls.
    inversion R as [|thrown Ereg|cls error Ereg ex limit Efetch
                   |cls raw calls' response Ereg ex limit Efetch R']; subst;
      [now left | now left | right; exists payload, (exchange_of env cls)
      | right; exists payload, (exchange_of env cls)];
      (split; [reflexivity|]); (split; [reflexivity|]); [now left|].
    inversion R'; subst; try (now left);
      right;
      match goal with
      | Eo : buildOrder _ = Some ?order |- _ =>
          exists order; destruct (buildOrder_Some _ _ Eo) as (_ & _ & -> & _);
          reflexivity
      end.
  - intros payload _ S. unfold StrategyRoute.bodySchema in S.
    repeat (apply andb_true_iff in S; destruct S as [S ?]).
    lia.
Qed.

(** X16. A successful response of the strategy route tells what happened:
    its suggestion is the order [buildOrder] makes of its strategy; it
    reports a submission only when one order was submitted, with the id
    the exchange answered; it reports a skipped execution, or none, only
    when no order was submitted. *)
Theorem response_reports_execution (ccxt : Ccxt) (env : ProcessEnv) (now : JS.number)
    (request : StrategyRoute.ParsedRequest) (body : StrategyRoute.Evaluation) :
  snd (StrategyRoute.POST ccxt env now request) = StrategyRoute.json_ok body ->
  let calls := fst (StrategyRoute.POST ccxt env now request) in
  StrategyRoute.suggestion body = buildOrder (StrategyRoute.strategy body)
  /\ match StrategyRoute.execution body with
     | Some (StrategyRoute.submitted orderId answer) =>
         exists exchange payload order,
           request = StrategyRoute.ValidPayload payload
           /\ StrategyRoute.suggestion body = Some order
           /\ StrategyRoute.liveTrading (StrategyRoute.meta body) = true
           /\ createOrder ccxt exchange (symbol payload) market (side order) (size order)
              = Returns answer
           /\ orderId = order_id answer
           /\ filter is_createOrder calls
              = [call_createOrder exchange (symbol payload) market (side order)
                   (size order)]
     | Some (StrategyRoute.skipped reason) =>
         reason = StrategyRoute.NotEnabled
         /\ StrategyRoute.suggestion body <> None
         /\ StrategyRoute.liveTrading (StrategyRoute.meta body) = true
         /\ ENABLE_LIVE_TRADING env <> Some "true"%string
         /\ filter is_createOrder calls = []
     | None =>
         (StrategyRoute.suggestion body = None
          \/ StrategyRoute.liveTrading (StrategyRoute.meta body) = false)
         /\ filter is_createOrder calls = []
     end.
Proof.
  destruct request as [|issues|payload]; try discriminate.
  intros Hr calls.
  pose proof (POST_cases ccxt env now payload) as R. fold calls in R.
  rewrite Hr in R. clearbody calls. clear Hr.
  inversion R as [| | |cls raw calls' response Ereg ex limit Efetch R']; subst.
  inversion R'; subst; cbn [response_body StrategyRoute.suggestion
    StrategyRoute.strategy StrategyRoute.execution StrategyRoute.meta
    StrategyRoute.liveTrading filter is_createOrder];
    (split; [reflexivity|]).
  - match goal with Hno : _ \/ _ |- _ => destruct Hno as [Hn|Hn] end;
      rewrite Hn; split; auto.
  - match goal with
    | Eo : buildOrder _ = Some _, Em : mode payload = live,
      Ef : is_text _ _ = false |- _ =>
        rewrite Eo, Em; repeat split; try discriminate;
        intros E; apply is_text_eq in E; congruence
    end.
  - match goal with
    | Eo : buildOrder _ = Some ?order, Em : mode payload = live,
      Ea : createOrder _ _ _ _ _ _ = Returns _ |- _ =>
        exists (exchange_of env cls), payload, order; rewrite Em;
        destruct (buildOrder_Some _ _ Eo) as (_ & _ & T & _);
        rewrite T in *; repeat split; assumption || reflexivity
    end.
Qed.

Lemma response_reports_execution_witness :
  let ccxt := sample_ccxt (map sample_row [100; 101; 102; 103; 104]%float) in
  let env := sample_env None in
  let request := StrategyRoute.ValidPayload (live_cfg 3 5 1000%float 10%float) in
  let order :=
    {| side := buy; type := market; size := 0.961538%float; price := 104%float;
       order_stopLoss := Some 99%float; order_takeProfit := Some 107.12%float |} in
  let body :=
    {| StrategyRoute.strategy :=
         {| action := buy; reason := RemainsAbove; latestPrice := 104%float;
            positionSize := 0.961538%float; stopLoss := Some 99%float;
            takeProfit := Some 107.12%float;
            fastMA := [None; None; Some 101; Some 102; Some 103]%float;
            slowMA := [None; None; None; None; Some 102]%float |};
       StrategyRoute.suggestion := Some order;
       StrategyRoute.execution := Some (StrategyRoute.skipped StrategyRoute.NotEnabled);
       StrategyRoute.meta :=
         {| StrategyRoute.evaluatedAt := 0%float;
            StrategyRoute.meta_symbol := "BTC/USDT";
            StrategyRoute.meta_timeframe := "1h";
            StrategyRoute.candlesUsed := 5;
            StrategyRoute.liveTrading := true |} |} in
  StrategyRoute.suggestion body = buildOrder (StrategyRoute.strategy body)
  /\ StrategyRoute.NotEnabled = StrategyRoute.NotEnabled
  /\ StrategyRoute.suggestion body <> None
  /\ StrategyRoute.liveTrading (StrategyRoute.meta body) = true
  /\ ENABLE_LIVE_TRADING env <> Some "true"%string
  /\ filter is_createOrder (fst (StrategyRoute.POST ccxt env 0%float request)) = [].
Proof.
  intros ccxt env request order body.
  apply (response_reports_execution ccxt env 0%float request body).
  vm_compute. reflexivity.
Defined.

(** X17. In paper mode, for a payload the schema admits and an exchange
    that answers the candle request, the route submits nothing; it
    answers the evaluation of the candles, with no execution, when at
    least one candle came back, and the no-data error with status 500
    when none did. *)
Theorem paper_mode_evaluates (ccxt : Ccxt) (env : ProcessEnv) (now : JS.number)
    (payload : StrategyConfig) (cls : ExchangeCtor) (raw : list (list JS.number)) :
  StrategyRoute.bodySchema payload = true ->
  mode payload = paper ->
  registry ccxt (exchangeId_of env) = Some (exchange_class cls) ->
  let fetch :=
    call_fetchOHLCV (exchange_of env cls) (symbol payload) (timeframe payload)
      (Z.max (slowLength payload * 4) 200) in
  fetchOHLCV ccxt (exchange_of env cls) (symbol payload) (timeframe payload)
    (Z.max (slowLength payload * 4) 200) = Returns raw ->
  (raw = [] ->
   StrategyRoute.POST ccxt env now (StrategyRoute.ValidPayload payload)
   = ([fetch], StrategyRoute.json_error 500 NoData []))
  /\ (raw <> [] ->
      exists comp,
        evaluateStrategy (map record_of_row raw) payload = Ok comp
        /\ StrategyRoute.POST ccxt env now (StrategyRoute.ValidPayload payload)
           = ([fetch],
              StrategyRoute.json_ok
                {| StrategyRoute.strategy := comp;
                   StrategyRoute.suggestion := buildOrder comp;
                   StrategyRoute.execution := None;
                   StrategyRoute.meta :=
                     {| StrategyRoute.evaluatedAt := now;
                        StrategyRoute.meta_symbol := symbol payload;
                        StrategyRoute.meta_timeframe := timeframe payload;
                        StrategyRoute.candlesUsed := length raw;
                        StrategyRoute.liveTrading := false |} |})).
Proof.
  intros S Em Ereg fetch Efetch.
  unfold StrategyRoute.bodySchema in S.
  repeat (apply andb_true_iff in S; destruct S as [S ?]).
  assert (E : StrategyRoute.POST ccxt env now (StrategyRoute.ValidPayload payload)
              = match evaluateStrategy (map record_of_row raw) payload with
                | Ok comp =>
                    ([fetch],
                     StrategyRoute.json_ok
                       (response_body now payload (map record_of_row raw) comp None))
                | Throw message => ([fetch], StrategyRoute.json_error 500 message [])
                end).
  { unfold StrategyRoute.POST, StrategyRoute.evaluate_and_execute.
    rewrite fetchOhlcv_cases, Ereg. cbv zeta. rewrite Efetch.
    rewrite and_then_prepend, and_then_resolve.
    destruct (evaluateStrategy (map record_of_row raw) payload) as [comp|message];
      cbn [of_Result]; [|reflexivity].
    rewrite and_then_resolve, Em. cbn [StrategyRoute.mode_is_live].
    unfold response_body.
    destruct (buildOrder comp) eqn:Eo; rewrite and_then_resolve, Em; reflexivity. }
  rewrite E. split.
  - intros ->. reflexivity.
  - intros Hne.
    destruct (evaluateStrategy_fields (map record_of_row raw) payload)
      as (comp & Eev & _); [destruct raw; [easy | discriminate] | lia | lia |].
    exists comp. split; [exact Eev|]. rewrite Eev.
    unfold response_body. rewrite Em, length_map. reflexivity.
Qed.

Lemma paper_mode_evaluates_witness :
  let ccxt := sample_ccxt (map sample_row [100; 101; 102; 103; 104]%float) in
  let env := sample_env (Some "true"%string) in
  let payload := cfg 3 5 1000%float 10%float in
  let raw := map sample_row [100; 101; 102; 103; 104]%float in
  let fetch :=
    call_fetchOHLCV (exchange_of env {| has_setSandboxMode := true |})
      "BTC/USDT" "1h" (Z.max (5 * 4) 200) in
  (raw = [] ->
   StrategyRoute.POST ccxt env 7%float (StrategyRoute.ValidPayload payload)
   = ([fetch], StrategyRoute.json_error 500 NoData []))
  /\ (raw <> [] ->
      exists comp,
        evaluateStrategy (map record_of_row raw) payload = Ok comp
        /\ StrategyRoute.POST ccxt env 7%float (StrategyRoute.ValidPayload payload)
           = ([fetch],
              StrategyRoute.json_ok
                {| StrategyRoute.strategy := comp;
                   StrategyRoute.suggestion := buildOrder comp;
                   StrategyRoute.execution := None;
                   StrategyRoute.meta :=
                     {| StrategyRoute.evaluatedAt := 7%float;
                        StrategyRoute.meta_symbol := "BTC/USDT";
                        StrategyRoute.meta_timeframe := "1h";
                        StrategyRoute.candlesUsed := length raw;
                        StrategyRoute.liveTrading := false |} |})).
Proof.
  intros ccxt env payload raw fetch.
  apply (paper_mode_evaluates ccxt env 7%float payload {| has_setSandboxMode := true |} raw);
    reflexivity.
Defined.

(** X18. In live mode with ENABLE_LIVE_TRADING set to "true", once the
    candles are evaluated and an order is suggested: without both
    credentials nothing is submitted and the response is the credentials
    error with status 500, the evaluation being discarded; with them the
    order is submitted once, and the response is the exchange's error
    with status 500 when the submission is rejected, and the evaluation
    with a submitted execution carrying the exchange's order id when it
    is accepted. *)
Theorem live_mode_executes (ccxt : Ccxt) (env : ProcessEnv) (now : JS.number)
    (payload : StrategyConfig) (cls : ExchangeCtor) (raw : list (list JS.number))
    (comp : StrategyComputation) (order : StrategyOrder) :
  mode payload = live ->
  ENABLE_LIVE_TRADING env = Some "true"%string ->
  registry ccxt (exchangeId_of env) = Some (exchange_class cls) ->
  fetchOHLCV ccxt (exchange_of env cls) (symbol payload) (timeframe payload)
    (Z.max (slowLength payload * 4) 200) = Returns raw ->
  evaluateStrategy (map record_of_row raw) payload = Ok comp ->
  buildOrder comp = Some order ->
  let fetch :=
    call_fetchOHLCV (exchange_of env cls) (symbol payload) (timeframe payload)
      (Z.max (slowLength payload * 4) 200) in
  let submit :=
    call_createOrder (exchange_of env cls) (symbol payload) market (side order)
      (size order) in
  let answer_of_exchange :=
    createOrder ccxt (exchange_of env cls) (symbol payload) market (side order)
      (size order) in
  let response := StrategyRoute.POST ccxt env now (StrategyRoute.ValidPayload payload) in
  (has_credentials env = false ->
   response = ([fetch], StrategyRoute.json_error 500 AuthRequired []))
  /\ (has_credentials env = true ->
      forall error, answer_of_exchange = Throws error ->
      response
      = ([fetch; submit],
         StrategyRoute.json_error 500
           match error with
           | Some message => message
           | None => "Strategy evaluation failed."%string
           end []))
  /\ (has_credentials env = true ->
      forall answer, answer_of_exchange = Returns answer ->
      response
      = ([fetch; submit],
         StrategyRoute.json_ok
           {| StrategyRoute.strategy := comp;
              StrategyRoute.suggestion := Some order;
              StrategyRoute.execution :=
                Some (StrategyRoute.submitted (order_id answer) answer);
              StrategyRoute.meta :=
                {| StrategyRoute.evaluatedAt := now;
                   StrategyRoute.meta_symbol := symbol payload;
                   StrategyRoute.meta_timeframe := timeframe payload;
                   StrategyRoute.candlesUsed := length raw;
                   StrategyRoute.liveTrading := true |} |})).
Proof.
  intros Em Ef Ereg Efetch Eev Eo fetch submit answer_of_exchange response.
  destruct (buildOrder_Some _ _ Eo) as (_ & _ & Ty & _).
  apply is_text_eq in Ef.
  assert (E : response
              = match (if negb (has_credentials env)
                       then throw_error AuthRequired
                       else resolve (exchange_of env cls)) with
                | (_, Throws e) =>
                    ([fetch], StrategyRoute.json_error 500 (message_or e "Strategy evaluation failed.") [])
                | (_, Returns _) =>
                    match answer_of_exchange with
                    | Returns answer =>
                        ([fetch; submit],
                         StrategyRoute.json_ok
                           (response_body now payload (map record_of_row raw) comp
                              (Some (StrategyRoute.submitted (order_id answer) answer))))
                    | Throws e =>
                        ([fetch; submit],
                         StrategyRoute.json_error 500
                           (message_or e "Strategy evaluation failed.") [])
                    end
                end).
  { unfold response, StrategyRoute.POST, StrategyRoute.evaluate_and_execute.
    rewrite fetchOhlcv_cases, Ereg. cbv zeta. rewrite Efetch.
    rewrite and_then_prepend, and_then_resolve, Eev. cbn [of_Result].
    rewrite and_then_resolve, Eo, Em. cbn [StrategyRoute.mode_is_live].
    rewrite Ef, createExchange_cases, Ereg. cbn [andb].
    destruct (has_credentials env); cbn [negb].
    - rewrite and_then_resolve, and_then_await, Ty.
      fold answer_of_exchange submit.
      unfold response_body. rewrite Eo, Em.
      destruct answer_of_exchange as [answer|e].
      + rewrite and_then_prepend, !and_then_resolve. reflexivity.
      + reflexivity.
    - rewrite !and_then_throw. reflexivity. }
  rewrite E. split; [|split].
  - intros ->. reflexivity.
  - intros -> error ->. reflexivity.
  - intros -> answer ->. unfold response_body.
    rewrite Eo, Em, length_map. reflexivity.
Qed.

Lemma live_mode_executes_witness :
  let rows := map sample_row [100; 101; 102; 103; 104]%float in
  let ccxt := sample_ccxt rows in
  let env := sample_env (Some "true"%string) in
  let payload := live_cfg 3 5 1000%float 10%float in
  let exchange := exchange_of env {| has_setSandboxMode := true |} in
  let order :=
    {| side := buy; type := market; size := 0.961538%float; price := 104%float;
       order_stopLoss := Some 99%float; order_takeProfit := Some 107.12%float |} in
  let comp :=
    {| action := buy; reason := RemainsAbove; latestPrice := 104%float;
       positionSize := 0.961538%float; stopLoss := Some 99%float;
       takeProfit := Some 107.12%float;
       fastMA := [None; None; Some 101; Some 102; Some 103]%float;
       slowMA := [None; None; None; None; Some 102]%float |} in
  let fetch := call_fetchOHLCV exchange "BTC/USDT" "1h" (Z.max (5 * 4) 200) in
  let submit := call_createOrder exchange "BTC/USDT" market buy 0.961538%float in
  let answer_of_exchange :=
    createOrder ccxt exchange "BTC/USDT" market buy 0.961538%float in
  let response := StrategyRoute.POST ccxt env 7%float (StrategyRoute.ValidPayload payload) in
  (has_credentials env = false ->
   response = ([fetch], StrategyRoute.json_error 500 AuthRequired []))
  /\ (has_credentials env = true ->
      forall error, answer_of_exchange = Throws error ->
      response
      = ([fetch; submit],
         StrategyRoute.json_error 500
           match error with
           | Some message => message
           | None => "Strategy evaluation failed."%string
           end []))
  /\ (has_credentials env = true ->
      forall answer, answer_of_exchange = Returns answer ->
      response
      = ([fetch; submit],
         StrategyRoute.json_ok
           {| StrategyRoute.strategy := comp;
              StrategyRoute.suggestion := Some order;
              StrategyRoute.execution :=
                Some (StrategyRoute.submitted (order_id answer) answer);
              StrategyRoute.meta :=
                {| StrategyRoute.evaluatedAt := 7%float;
                   StrategyRoute.meta_symbol := "BTC/USDT";
                   StrategyRoute.meta_timeframe := "1h";
                   StrategyRoute.candlesUsed := length rows;
                   StrategyRoute.liveTrading := true |} |})).
Proof.
  intros rows ccxt env payload exchange order comp.
  apply (live_mode_executes ccxt env 7%float payload {| has_setSandboxMode := true |}
           rows comp order);
    try reflexivity; vm_compute; reflexivity.
Defined.

Lemma ExchangeNotAvailable_not_AuthRequired (exchangeId : string) :
  ExchangeNotAvailable exchangeId <> AuthRequired.
Proof. unfold ExchangeNotAvailable, AuthRequired. cbn. discriminate. Qed.

(** With CRYPTO_EXCHANGE set to the key of the version text the lookup
    succeeds and [new] throws; the three routes answer status 500 with
    that message and call no exchange. *)
Example not_a_constructor_run :
  createExchange (sample_ccxt []) version_env false
  = ([], Throws (Some "ExchangeClass is not a constructor"%string))
  /\ AccountRoute.GET (sample_ccxt []) version_env
     = ([], AccountRoute.json_error 500 "ExchangeClass is not a constructor")
  /\ MarketDataRoute.GET (sample_ccxt []) version_env []
     = ([], MarketDataRoute.json_error 500 "ExchangeClass is not a constructor")
  /\ StrategyRoute.POST (sample_ccxt []) version_env 0%float
       (StrategyRoute.ValidPayload (live_cfg 3 5 1000%float 10%float))
     = ([], StrategyRoute.json_error 500 "ExchangeClass is not a constructor" []).
Proof. repeat split; vm_compute; reflexivity. Qed.


(** *** The account route *)





(** *** The chart series of the dashboard *)

Lemma movingAverage_loop_sma_loop (values : list JS.number) (p : Z) (n : nat) :
  forall index output,
    movingAverage_loop values (PeriodInt p) n index output
    = sma_loop values p n index output.
Proof.
  induction n as [|n IH]; intros index output; [reflexivity|].
  cbn [movingAverage_loop sma_loop].
  destruct (index + 1 <? p); rewrite IH; reflexivity.
Qed.

(** X22. For an integer period the dashboard's [movingAverage] is the
    series the strategy computes: the result of [simpleMovingAverage]
    where that returns one, and the empty series where it throws (a
    period [<= 0]). *)
Theorem movingAverage_agrees (values : list JS.number) (p : Z) :
  movingAverage values (PeriodInt p)
  = match simpleMovingAverage values p with
    | Ok ma => ma
    | Throw _ => []
    end.
Proof.
  unfold movingAverage, simpleMovingAverage.
  destruct (p <=? 0); [reflexivity|]. apply movingAverage_loop_sma_loop.
Qed.

Lemma div_nan_r (x : float) : (x / nan)%float = nan.
Proof.
  rewrite <- (SF2Prim_Prim2SF (x / nan)%float), div_spec.
  change (Prim2SF nan) with S754_nan. destruct (Prim2SF x); reflexivity.
Qed.

Lemma movingAverage_loop_nan (values : list JS.number) (n : nat) :
  forall index output,
    movingAverage_loop values PeriodNaN n index output
    = output ++ repeat (Some nan) n.
Proof.
  induction n as [|n IH]; intros index output.
  - cbn. now rewrite app_nil_r.
  - cbn [movingAverage_loop repeat]. rewrite IH, div_nan_r, <- app_assoc. reflexivity.
Qed.

(** X23. With a period that is NaN (an input field that holds no number)
    [movingAverage] neither throws nor returns the empty series: it
    returns one entry per value, each of them NaN and none null. *)
Theorem movingAverage_nan_period (values : list JS.number) :
  movingAverage values PeriodNaN = repeat (Some nan) (length values).
Proof. unfold movingAverage. apply movingAverage_loop_nan. Qed.

(** *** The market-data route *)

Lemma querySchema_limit (entries : list (string * string)) (data : MarketDataRoute.Query) :
  MarketDataRoute.querySchema entries = Some data ->
  50 <= MarketDataRoute.query_limit data <= 500
  /\ MarketDataRoute.query_limit data
     = MarketDataRoute.limit_of (MarketDataRoute.fromEntries entries "limit")
  /\ MarketDataRoute.query_symbol data
     = match MarketDataRoute.fromEntries entries "symbol" with
       | Some s => s
       | None => "BTC/USDT"%string
       end
  /\ MarketDataRoute.query_timeframe data
     = match MarketDataRoute.fromEntries entries "timeframe" with
       | Some s => s
       | None => "1h"%string
       end.
Proof.
  unfold MarketDataRoute.querySchema.
  destruct (_ && _) eqn:E; [|discriminate]. intros [= <-].
  cbn [MarketDataRoute.query_limit MarketDataRoute.query_symbol
       MarketDataRoute.query_timeframe].
  apply andb_true_iff in E. destruct E as [E1 E2].
  repeat split; lia.
Qed.

(** X24. The market-data route asks an exchange for candles at most once
    and for nothing else, and only for a number of candles between 50 and
    500; a query whose limit lies outside is answered with status 400 and
    no exchange is called. *)
Theorem market_data_limit (ccxt : Ccxt) (env : ProcessEnv)
    (searchParams : list (string * string)) :
  let calls := fst (MarketDataRoute.GET ccxt env searchParams) in
  let response := snd (MarketDataRoute.GET ccxt env searchParams) in
  let limit := MarketDataRoute.limit_of (MarketDataRoute.fromEntries searchParams "limit") in
  (calls = []
   \/ exists exchange symbol timeframe,
        calls = [call_fetchOHLCV exchange symbol timeframe limit]
        /\ 50 <= limit <= 500)
  /\ (limit < 50 \/ 500 < limit <->
      response = MarketDataRoute.json_error 400 "Invalid query parameters.")
  /\ (limit < 50 \/ 500 < limit -> calls = []).
Proof.
  intros calls response limit. unfold calls, response, MarketDataRoute.GET.
  destruct (MarketDataRoute.querySchema searchParams) as [data|] eqn:Q.
  - destruct (querySchema_limit _ _ Q) as (R & L & _). fold limit in L.
    rewrite fetchOhlcv_cases.
    destruct (registry ccxt (exchangeId_of env)) as [[cls|thrown]|]; cbv zeta.
    + destruct (fetchOHLCV ccxt (exchange_of env cls) _ _ _);
        cbn [prepend resolve fst snd]; rewrite L in *;
        (split; [right; do 3 eexists; split; [reflexivity | lia]|]);
        (split; [split; [lia | discriminate] | lia]).
    + cbn [fst snd].
      split; [now left|]. split; [split; [lia | discriminate] | reflexivity].
    + cbn [throw_error fst snd].
      split; [now left|]. split; [split; [lia | discriminate] | reflexivity].
  - cbn [fst snd]. split; [now left|]. split; [|reflexivity].
    split; [reflexivity|]. intros _.
    unfold MarketDataRoute.querySchema in Q. fold limit in Q.
    destruct (Z.leb_spec 50 limit), (Z.leb_spec limit 500); cbn in Q;
      try discriminate; lia.
Qed.

(** X25. A limit that is left out, empty, or does not start with a number
    is not an error: the route asks for 200 candles. *)
Theorem market_data_default_limit (searchParams : list (string * string)) :
  MarketDataRoute.fromEntries searchParams "limit" = None
  \/ MarketDataRoute.fromEntries searchParams "limit" = Some EmptyString
  \/ (exists text, MarketDataRoute.fromEntries searchParams "limit" = Some text
                   /\ MarketDataRoute.parseInt text = None) ->
  exists data,
    MarketDataRoute.querySchema searchParams = Some data
    /\ MarketDataRoute.query_limit data = 200.
Proof.
  intros H.
  assert (L : MarketDataRoute.limit_of (MarketDataRoute.fromEntries searchParams "limit")
              = 200).
  { destruct H as [->|[->|(text & -> & P)]]; try reflexivity.
    unfold MarketDataRoute.limit_of. rewrite P.
    destruct (text =? EmptyString)%string; reflexivity. }
  unfold MarketDataRoute.querySchema. rewrite L. cbn.
  eexists. split; reflexivity.
Qed.

Lemma market_data_default_limit_witness :
  exists data,
    MarketDataRoute.querySchema [("symbol", "ETH/USDT"); ("limit", "many")]%string
    = Some data
    /\ MarketDataRoute.query_limit data = 200.
Proof.
  apply (market_data_default_limit [("symbol", "ETH/USDT"); ("limit", "many")]%string).
  right. right. exists "many"%string. split; reflexivity.
Defined.

Lemma digit_of_cases (c : ascii) :
  MarketDataRoute.digit_of c = None
  \/ exists d, MarketDataRoute.digit_of c = Some d /\ 0 <= d <= 9.
Proof.
  unfold MarketDataRoute.digit_of.
  destruct ((48 <=? MarketDataRoute.byte c) && (MarketDataRoute.byte c <=? 57)) eqn:E;
    [|now left].
  right. eexists. split; [reflexivity|].
  apply andb_true_iff in E. lia.
Qed.

Lemma fold_digits_acc (d : Decimal.uint) (rest : string) :
  MarketDataRoute.leading_digits rest = [] ->
  forall acc : positive,
    fold_left (fun a k => 10 * a + k)
      (MarketDataRoute.leading_digits (NilEmpty.string_of_uint d ++ rest)) (Z.pos acc)
    = Z.pos (Pos.of_uint_acc d acc).
Proof.
  intros Hrest. induction d; intros acc; cbn [NilEmpty.string_of_uint append];
    try (change (MarketDataRoute.leading_digits (String ?c ?r))
           with (MarketDataRoute.leading_digits (String c r));
         cbn [MarketDataRoute.leading_digits];
         match goal with
         | |- context [MarketDataRoute.digit_of ?c] =>
             let v := eval vm_compute in (MarketDataRoute.digit_of c) in
             change (MarketDataRoute.digit_of c) with v
         end;
         cbn [fold_left Pos.of_uint_acc]; rewrite <- IHd; f_equal; lia).
  rewrite Hrest. reflexivity.
Qed.

Lemma fold_digits (d : Decimal.uint) (rest : string) :
  MarketDataRoute.leading_digits rest = [] ->
  MarketDataRoute.mathInt
    (MarketDataRoute.leading_digits (NilEmpty.string_of_uint d ++ rest))
  = Z.of_N (Pos.of_uint d).
Proof.
  intros Hrest. unfold MarketDataRoute.mathInt.
  induction d; cbn [NilEmpty.string_of_uint append];
    try (cbn [MarketDataRoute.leading_digits];
         match goal with
         | |- context [MarketDataRoute.digit_of ?c] =>
             let v := eval vm_compute in (MarketDataRoute.digit_of c) in
             change (MarketDataRoute.digit_of c) with v
         end;
         cbn [fold_left Pos.of_uint]).
  - rewrite Hrest. reflexivity.
  - exact IHd.
  - apply (fold_digits_acc d rest Hrest 1).
  - apply (fold_digits_acc d rest Hrest 2).
  - apply (fold_digits_acc d rest Hrest 3).
  - apply (fold_digits_acc d rest Hrest 4).
  - apply (fold_digits_acc d rest Hrest 5).
  - apply (fold_digits_acc d rest Hrest 6).
  - apply (fold_digits_acc d rest Hrest 7).
  - apply (fold_digits_acc d rest Hrest 8).
  - apply (fold_digits_acc d rest Hrest 9).
Qed.

(** A numeral starts with a digit: nothing is trimmed from it and its
    digits are not empty. *)
Lemma numeral_head (d : Decimal.uint) (rest : string) :
  d <> Decimal.Nil ->
  exists c r k,
    (NilEmpty.string_of_uint d ++ rest)%string = String c r
    /\ MarketDataRoute.digit_of c = Some k
    /\ MarketDataRoute.trim_start (String c r) = String c r
    /\ (MarketDataRoute.byte c =? 45) = false
    /\ (MarketDataRoute.byte c =? 43) = false.
Proof.
  intros Hd. destruct d; [congruence| | | | | | | | | |];
    cbn [NilEmpty.string_of_uint append]; do 3 eexists;
    (split; [reflexivity|]); (split; [vm_compute; reflexivity|]);
    (split; [|split; reflexivity]);
    cbn [MarketDataRoute.trim_start];
    match goal with
    | |- context [MarketDataRoute.is_space ?c] =>
        change (MarketDataRoute.is_space c) with false
    end; cbv iota;
    destruct (_ ++ _)%string as [|c2 [|c3 r3]]; try reflexivity;
    match goal with
    | |- context [MarketDataRoute.byte ?c =? 194] =>
        change (MarketDataRoute.byte c =? 194) with false
    end; cbn [andb]; try reflexivity;
    cbv zeta;
    repeat match goal with
    | |- context [MarketDataRoute.byte ?c =? ?n] =>
        match c with
        | Ascii _ _ _ _ _ _ _ _ => change (MarketDataRoute.byte c =? n) with false
        end
    end; reflexivity.
Qed.

Lemma parseInt_unsigned (d : Decimal.uint) (rest : string) :
  d <> Decimal.Nil -> MarketDataRoute.leading_digits rest = [] ->
  MarketDataRoute.parseInt (NilEmpty.string_of_uint d ++ rest)
  = Some (Z.of_N (Pos.of_uint d)).
Proof.
  intros Hd Hrest. pose proof (fold_digits d rest Hrest) as F.
  destruct (numeral_head d rest Hd) as (c & r & k & E & Dc & T & M & P).
  unfold MarketDataRoute.parseInt. rewrite E in *. rewrite T, M, P.
  cbn [MarketDataRoute.leading_digits] in *. rewrite Dc in *.
  rewrite F. f_equal. lia.
Qed.

(** The digits of a decimal numeral spell its integer, whatever follows
    them. *)
Lemma parseInt_numeral (z : Z) (rest : string) :
  MarketDataRoute.leading_digits rest = [] ->
  MarketDataRoute.parseInt (NilZero.string_of_int (Z.to_int z) ++ rest) = Some z.
Proof.
  intros Hrest. destruct z as [|p|p]; cbn [Z.to_int NilZero.string_of_int].
  - change (NilZero.string_of_uint (Decimal.D0 Decimal.Nil))
      with (NilEmpty.string_of_uint (Decimal.D0 Decimal.Nil)).
    rewrite parseInt_unsigned by (discriminate || assumption). reflexivity.
  - pose proof (Unsigned.to_uint_nonnil p) as Hn.
    replace (NilZero.string_of_uint (Pos.to_uint p))
      with (NilEmpty.string_of_uint (Pos.to_uint p))
      by (destruct (Pos.to_uint p); [congruence | reflexivity ..]).
    rewrite parseInt_unsigned by assumption.
    now rewrite Unsigned.of_to.
  - pose proof (Unsigned.to_uint_nonnil p) as Hn.
    replace (NilZero.string_of_uint (Pos.to_uint p))
      with (NilEmpty.string_of_uint (Pos.to_uint p))
      by (destruct (Pos.to_uint p); [congruence | reflexivity ..]).
    pose proof (fold_digits (Pos.to_uint p) rest Hrest) as F.
    rewrite Unsigned.of_to in F.
    destruct (numeral_head (Pos.to_uint p) rest Hn) as (c & r & k & E & Dc & _).
    unfold MarketDataRoute.parseInt.
    cbn [append MarketDataRoute.trim_start].
    change (MarketDataRoute.is_space "-") with false. cbv iota.
    rewrite E in *.
    assert (T : MarketDataRoute.trim_start (String "-" (String c r))
                = String "-" (String c r)).
    { cbn [MarketDataRoute.trim_start].
      change (MarketDataRoute.is_space "-") with false. cbv iota.
      change (MarketDataRoute.byte "-" =? 194) with false. cbn [andb].
      destruct r; [reflexivity|]. cbv zeta.
      change (MarketDataRoute.byte "-" =? 225) with false.
      change (MarketDataRoute.byte "-" =? 226) with false.
      change (MarketDataRoute.byte "-" =? 227) with false.
      change (MarketDataRoute.byte "-" =? 239) with false.
      reflexivity. }
    cbn [MarketDataRoute.trim_start] in T.
    change (MarketDataRoute.is_space "-") with false in T. cbv iota in T.
    rewrite T. change (MarketDataRoute.byte "-" =? 45) with true. cbv iota.
    cbn [MarketDataRoute.leading_digits] in *. rewrite Dc in *.
    rewrite F. first [reflexivity | f_equal; lia].
Qed.

(** X26. A query whose limit is a decimal numeral, followed by any text
    that does not start with a digit, is accepted exactly when the number
    lies between 50 and 500, and that number is then the limit of the
    query; the numeral is that of an integer a number holds exactly. *)
Theorem market_data_limit_numeral (searchParams : list (string * string))
    (n : Z) (rest : string) :
  MarketDataRoute.fromEntries searchParams "limit"
  = Some (NilZero.string_of_int (Z.to_int n) ++ rest)%string ->
  MarketDataRoute.leading_digits rest = [] ->
  Z.abs n <= 2 ^ 53 ->
  (50 <= n <= 500 ->
   exists data,
     MarketDataRoute.querySchema searchParams = Some data
     /\ MarketDataRoute.query_limit data = n)
  /\ (n < 50 \/ 500 < n -> MarketDataRoute.querySchema searchParams = None).
Proof.
  intros Hlimit Hrest _.
  pose proof (parseInt_numeral n rest Hrest) as P.
  assert (L : MarketDataRoute.limit_of (MarketDataRoute.fromEntries searchParams "limit")
              = n).
  { rewrite Hlimit. unfold MarketDataRoute.limit_of. rewrite P.
    destruct (_ =? EmptyString)%string eqn:E; [|reflexivity].
    apply String.eqb_eq in E. rewrite E in P. discriminate. }
  unfold MarketDataRoute.querySchema. rewrite L. split.
  - intros [Lo Hi].
    apply Z.leb_le in Lo, Hi. rewrite Lo, Hi. cbn [andb].
    eexists. split; reflexivity.
  - intros [Lo|Hi].
    + apply Z.leb_gt in Lo. rewrite Lo. reflexivity.
    + apply Z.leb_gt in Hi. rewrite Hi, andb_false_r. reflexivity.
Qed.

Lemma market_data_limit_numeral_witness :
  exists data,
    MarketDataRoute.querySchema [("symbol", "ETH/USDT"); ("limit", "120px")]%string
    = Some data
    /\ MarketDataRoute.query_limit data = 120.
Proof.
  apply (market_data_limit_numeral
           [("symbol", "ETH/USDT"); ("limit", "120px")]%string 120 "px");
    [reflexivity | reflexivity | vm_compute; discriminate | lia].
Defined.
